(** * Pencil.js shapes: a shallow embedding of the shape modules

    The development follows the sources of the modules [rectangle], [line],
    [arc], [text], [sprite], [select], [button] and [color].  Every class
    becomes a Rocq module holding a record for the instance state and one
    function per method; a method that mutates [this] returns the new
    state.

    Conventions.
    - JavaScript numbers are exact rationals in canonical form ([Qc]), so
      that numeric equality is Leibniz equality.  Where the code stores
      whatever number it is given, as the setter of [Select] does, the
      number is a [number]: a rational, an infinity or [NaN].  Elsewhere
      [NaN] and [Infinity] have no counterpart: an arithmetic operation
      whose operand is not a number ends in the outcome [NotANumber]
      instead of producing a value, and nothing is said of what the code
      does with the [NaN] from there on.
    - A JavaScript object used as a dictionary of options is a finite map
      from property names to [value]s; [{...a, ...b}] is [spread a b].
    - A call either completes, throws, or stops at [NotANumber]
      ([outcome]).
    - Code of the repository that the shape modules import but that is not
      part of the sources at hand (the [Component], [Input], [Image] base
      classes, the [math] helpers, the browser canvas) is gathered in the
      class [Platform] or modelled explicitly where a comment says so;
      what [Color] and [Spritesheet] call in other packages is gathered
      in the class [Packages]. *)

From Stdlib Require Import QArith Qcanon Qround Reals Lra.
From Stdlib Require Lqa.
From stdpp Require Import gmap strings list fin_maps.
Set Warnings "-register-all".

(** ** Numbers *)

Module Num.

(** Integer literals and fractions as canonical rationals. *)
Definition int (z : Z) : Qc := Qc_of_Z z.
Definition frac (a : Z) (b : positive) : Qc := Q2Qc (a # b).

(** [Math.floor]. *)
Definition floor (x : Qc) : Z := Qfloor x.

(** The comparison [x < y]. *)
Definition ltb (x y : Qc) : bool := bool_decide (x < y)%Qc.

(** [Math.max] and [Math.min]. *)
Definition max (x y : Qc) : Qc := if ltb x y then y else x.
Definition min (x y : Qc) : Qc := if ltb y x then y else x.

End Num.

(** A number of JavaScript where the code may meet one that is no
    rational: a rational, an infinity, or [NaN].  A rational stands for
    itself. *)
Inductive number : Type :=
| Finite (q : Qc)
| PositiveInfinity
| NegativeInfinity
| NaN.

Coercion Finite : Qc >-> number.

(** ** JavaScript values and objects *)

Inductive value : Type :=
| VUndefined
| VNull
| VBool (b : bool)
| VNum (n : Qc)
| VStr (s : string)
| VArr (items : list value)
| VObj (props : gmap string value).

(** An options object: property name to value. *)
Abbreviation object := (gmap string value).

Module Js.

(** Property read [o.k]: a missing property reads as [undefined]. *)
Definition get (k : string) (o : object) : value :=
  default VUndefined (o !! k).

(** Object spread [{...a, ...b}]: every own property of [b], those set
    to [undefined] included, replaces the property of [a] with the same
    name; the replacement is wholesale whatever the two values are. *)
Definition spread (a b : object) : object := b ∪ a.

(** Strict equality [a === b] of primitive values.  Two objects or arrays
    are equal only when they are one and the same; values carry no
    identity here, so they compare unequal. *)
Definition strict_eq (a b : value) : bool :=
  match a, b with
  | VUndefined, VUndefined | VNull, VNull => true
  | VBool a, VBool b => bool_decide (a = b)
  | VNum a, VNum b => bool_decide (a = b)
  | VStr a, VStr b => bool_decide (a = b)
  | _, _ => false
  end.

(** Truthiness, as tested by [if], [||] and [&&]. *)
Definition truthy (v : value) : bool :=
  match v with
  | VUndefined | VNull => false
  | VBool b => b
  | VNum n => negb (bool_decide (n = 0%Qc))
  | VStr s => negb (bool_decide (s = ""))
  | VArr _ | VObj _ => true
  end.

(** The operand of an arithmetic operator, when it is a number, [null] or
    a boolean.  Every other operand makes the result [NaN] or needs the
    parsing of a string; both are outside the model. *)
Definition to_number (v : value) : option Qc :=
  match v with
  | VNum n => Some n
  | VNull | VBool false => Some 0%Qc
  | VBool true => Some 1%Qc
  | _ => None
  end.

(** [string.split(separator)] for a one-character separator. *)
Fixpoint split (sep : Ascii.ascii) (s : string) : list string :=
  match s with
  | EmptyString => [EmptyString]
  | String c rest =>
      if bool_decide (c = sep) then EmptyString :: split sep rest
      else match split sep rest with
           | line :: lines => String c line :: lines
           | [] => [String c EmptyString]
           end
  end.

(** [array.join(separator)]. *)
Fixpoint join (sep : string) (lines : list string) : string :=
  match lines with
  | [] => EmptyString
  | [line] => line
  | line :: rest => line +:+ sep +:+ join sep rest
  end.

Definition newline : Ascii.ascii := Ascii.ascii_of_nat 10.

(** Array read [array[index]] with a number: an element for an integer
    index within the bounds, [undefined] ([None]) otherwise. *)
Definition index {A : Type} (array : list A) (i : Qc) : option A :=
  let z := Num.floor i in
  if bool_decide (Num.int z = i) && bool_decide (0 ≤ z)%Z
  then array !! Z.to_nat z
  else None.

End Js.

(** ** Outcomes *)

Inductive exn : Type :=
| RangeError (message : string)
| TypeError
| IndexSizeError
| UnknownTypeError (tag : string).

Inductive outcome (A : Type) : Type :=
| Ok (a : A)
| Throw (e : exn)
| NotANumber.
Arguments Ok {A} a.
Arguments Throw {A} e.
Arguments NotANumber {A}.

Definition bind {A B : Type} (m : outcome A) (k : A → outcome B) : outcome B :=
  match m with
  | Ok a => k a
  | Throw e => Throw e
  | NotANumber => NotANumber
  end.

#[global] Instance outcome_ret : MRet outcome := @Ok.
#[global] Instance outcome_bind : MBind outcome := λ A B k m, bind m k.

Definition number_of (v : value) : outcome Qc :=
  match Js.to_number v with
  | Some n => Ok n
  | None => NotANumber
  end.

Definition threw {A : Type} (m : outcome A) : Prop :=
  ∃ e, m = Throw e.

(** The helpers of the package [math]. *)
Module Math.

(** Modelled from the spec: [constrain] of the package [math], which is
    not among the sources; the spec lists it as the pure function
    "clamp": the value, kept between the two bounds. *)
Definition constrain (value lo hi : Qc) : Qc := Num.min (Num.max value lo) hi.

(** [constrain] on any number, between two rational bounds: the package
    computes [Math.min(Math.max(value, min), max)], which leaves [NaN] as
    it is and brings an infinity to a bound. *)
Definition constrain_number (value : number) (lo hi : Qc) : number :=
  match value with
  | Finite value => Finite (constrain value lo hi)
  | PositiveInfinity => Finite hi
  | NegativeInfinity => Finite (Num.min lo hi)
  | NaN => NaN
  end.

(** [a % b], the remainder of JavaScript: the quotient is cut towards
    zero, so that the remainder has the sign of [a]. *)
Definition remainder (a b : Qc) : Qc :=
  let quotient := (a / b)%Qc in
  (a - b * Num.int (if Num.ltb quotient 0 then Qceiling quotient
                    else Num.floor quotient))%Qc.

(** Modelled from the spec: [modulo] of the package [math], which is not
    among the sources; the spec lists it as a pure function.  It is the
    remainder of JavaScript by the size of the divider, to which that
    size is added when the value is negative: for a value that is not
    negative it is the representative of the value in [[0, divider)];
    for a negative value it lies in [(0, divider]], a negative multiple
    of the divider giving the divider itself.  No number is the
    remainder of a division by zero. *)
Definition modulo (value divider : Qc) : outcome Qc :=
  if bool_decide (divider = 0%Qc) then NotANumber
  else
    let size := if Num.ltb divider 0 then (- divider)%Qc else divider in
    Ok (if Num.ltb value 0 then (remainder value size + size)%Qc
        else remainder value size).

(** Modelled from the spec: the constant [radianCircle] of the package
    [math], which is not among the sources.  Section 3 fixes the
    convention "1.0 = full turn"; the radian measure of one full turn is
    [2 * PI]. *)
Definition radianCircle : R := (2 * PI)%R.

End Math.

(** ** Positions *)

Module Position.
Record t : Type := { x : Qc; y : Qc }.
(** [new Position()]. *)
Definition zero : t := {| x := 0%Qc; y := 0%Qc |}.
(** A position held as the value of an option. *)
Definition value (p : t) : value :=
  VObj {[ "x" := VNum (x p); "y" := VNum (y p) ]}.
End Position.

(** What a caller may pass where a position is expected, and what an
    array of points may hold: nothing, a number, a [Position] instance or
    an array. *)
Inductive PositionDefinition : Type :=
| DUndefined
| DNumber (n : Qc)
| DPosition (p : Position.t)
| DArray (items : list PositionDefinition).

(** A coordinate argument of [new Position(x = 0, y = 0)]. *)
Definition coordinate (d : option PositionDefinition) : Qc :=
  match d with
  | Some (DNumber n) => n
  | _ => 0%Qc
  end.

(** Modelled from the spec: [Position.from] of the package [position],
    which is not among the sources.  Section 3: a position is the value
    [{x, y}]; section 6: it is written [[x, y]].  An instance stands for
    itself, an array gives its first two items as coordinates, anything
    else gives [new Position()]. *)
Definition Position_from (d : PositionDefinition) : Position.t :=
  match d with
  | DPosition p => p
  | DArray items =>
      {| Position.x := coordinate (items !! 0%nat);
         Position.y := coordinate (items !! 1%nat) |}
  | _ => Position.zero
  end.

(** ** The code outside the sources *)

(** What the shape modules read from the rest of the repository and from
    the browser.  [Component_joins] and [Component_cursors] are the static
    tables that [Line.joins] and [Component.cursors] resolve to;
    [canvas_measureText options line] is
    [sandbox.measureText(line).width] once [sandbox.font] holds the font
    of [options]; [hash text options] is the key
    [hash(`${text}${JSON.stringify(options)}`)] of the measure cache. *)
Class Platform : Type := {
  Component_defaultOptions : object;
  Component_joins : object;
  Component_cursors : object;
  Input_defaultOptions : object;
  Image_defaultOptions : object;
  canvas_measureText : object → string → Qc;
  hash : string → object → N;
}.

(** ** The merge of the specification *)

Module Spec.

(** Section 3 of the specification, "Options": "child keys override
    parent keys; nested default objects merge recursively, arrays replace
    wholesale". *)
Fixpoint deepMergeValue (parent child : value) {struct parent} : value :=
  match parent, child with
  | VObj parent, VObj child =>
      VObj (merge (λ p c,
                     match p, c with
                     | Some p, Some c => Some (deepMergeValue p c)
                     | Some p, None => Some p
                     | None, c => c
                     end) parent child)
  | _, _ => child
  end.

Definition deepMerge (parent child : object) : object :=
  merge (λ p c,
           match p, c with
           | Some p, Some c => Some (deepMergeValue p c)
           | Some p, None => Some p
           | None, c => c
           end) parent child.

End Spec.

(** Modelled from the spec: the constructor of [Component], which is not
    among the sources.  Section 2, "Options Resolution": "per-class
    default-options inheritance chain merged with instance overrides";
    section 3 has the merge recursive on nested objects, and section 9
    the precedence "instance > variant defaults > base defaults". *)
Definition Component_resolve (defaultOptions options : object) : object :=
  Spec.deepMerge defaultOptions options.

(** ** Canvas paths *)

Inductive PathCommand : Type :=
| Rect (x y width height : Qc)
| MoveTo (x y : Qc)
| LineTo (x y : Qc)
| Ellipse (x y radiusX radiusY rotation : Qc) (startAngle endAngle : R).

(** A [Path2D] is the list of the sub-paths added to it so far. *)
Abbreviation Path2D := (list PathCommand).

Module Path.

Definition rect (path : Path2D) (x y width height : Qc) : Path2D :=
  path ++ [Rect x y width height].

Definition moveTo (path : Path2D) (x y : Qc) : Path2D :=
  path ++ [MoveTo x y].

Definition lineTo (path : Path2D) (x y : Qc) : Path2D :=
  path ++ [LineTo x y].

(** [Path2D.ellipse] belongs to the browser: the canvas standard makes it
    throw an [IndexSizeError] when a radius is negative. *)
Definition ellipse (path : Path2D) (x y radiusX radiusY rotation : Qc)
    (startAngle endAngle : R) : outcome Path2D :=
  if Num.ltb radiusX 0 || Num.ltb radiusY 0 then Throw IndexSizeError
  else Ok (path ++ [Ellipse x y radiusX radiusY rotation startAngle endAngle]).

(** The canvas standard measures the angles of an ellipse clockwise from
    the positive x axis, the y axis pointing down: the point of the
    ellipse centred on the origin at [angle]. *)
Definition ellipsePoint (radiusX radiusY : Qc) (angle : R) : R * R :=
  ((Q2R radiusX * cos angle)%R, (Q2R radiusY * sin angle)%R).

End Path.

(** ** Rectangle *)

Module Rectangle.

Record t : Type := {
  position : Position.t;
  options : object;
  width : Qc;
  height : Qc;
}.

(** [constructor (positionDefinition, width = 0, height = 0, options)];
    an argument left out is [None]. *)
Definition new `{Platform} (positionDefinition : PositionDefinition)
    (width height : option Qc) (options : object) : t :=
  {| position := Position_from positionDefinition;
     options := Component_resolve Component_defaultOptions options;
     width := default 0%Qc width;
     height := default 0%Qc height |}.

(** [trace (path)]. *)
Definition trace (this : t) (path : Path2D) : Path2D :=
  Path.rect path 0 0 (width this) (height this).

End Rectangle.

(** ** Line *)

Module Line.

Record t : Type := {
  position : Position.t;
  options : object;
  points : list Position.t;
}.

(** [static get caps ()]. *)
Definition caps : object :=
  {[ "butt" := VStr "butt"; "round" := VStr "round";
     "square" := VStr "square" ]}.

(** [Line.joins]: the class has no such getter of its own, the static
    table is inherited from [Component]. *)
Definition joins `{Platform} : object := Component_joins.

(** [static get defaultOptions ()]. *)
Definition defaultOptions `{Platform} : object :=
  let options :=
    Js.spread Component_defaultOptions
      {[ "cap" := Js.get "round" caps;
         "join" := Js.get "round" joins;
         "fill" := VNull;
         "cursor" := VNull ]} in
  <[ "stroke" := Js.get "fill" Component_defaultOptions ]> options.

(** [n => n === undefined || typeof n === "number"]. *)
Definition is_coordinate (n : PositionDefinition) : bool :=
  match n with
  | DUndefined | DNumber _ => true
  | _ => false
  end.

(** [constructor (positionDefinition, points, options)]. *)
Definition new `{Platform} (positionDefinition : PositionDefinition)
    (points : list PositionDefinition) (options : object) : t :=
  let positions :=
    if forallb is_coordinate (take 2 points)
    then [Position_from (DArray points)]
    else map (λ point, Position_from point) points in
  {| position := Position_from positionDefinition;
     options := Component_resolve defaultOptions options;
     points := positions |}.

(** [trace (path)]. *)
Definition trace (this : t) (path : Path2D) : Path2D :=
  fold_left (λ path point,
               Path.lineTo path (Position.x point) (Position.y point))
            (points this) (Path.moveTo path 0 0).

End Line.

(** ** Arc *)

Module Arc.

Record t : Type := {
  position : Position.t;
  options : object;
  horizontalRadius : Qc;
  verticalRadius : Qc;
  startAngle : Qc;
  endAngle : Qc;
}.

(** [static get defaultOptions ()]. *)
Definition defaultOptions `{Platform} : object :=
  Js.spread Line.defaultOptions {[ "join" := VNull ]}.

(** [constructor (positionDefinition, horizontalRadius = 0,
    verticalRadius = 0, startAngle = 0, endAngle = 0.5, options)]. *)
Definition new `{Platform} (positionDefinition : PositionDefinition)
    (horizontalRadius verticalRadius startAngle endAngle : option Qc)
    (options : object) : t :=
  {| position := Position_from positionDefinition;
     options := Component_resolve defaultOptions options;
     horizontalRadius := default 0%Qc horizontalRadius;
     verticalRadius := default 0%Qc verticalRadius;
     startAngle := default 0%Qc startAngle;
     endAngle := default (Num.frac 1 2) endAngle |}.

Definition correction : Qc := Num.frac (-1) 4.

(** [(angle + correction) * radianCircle]: the sum is a number of turns,
    the product a real number of radians. *)
Definition radians (angle : Qc) : R :=
  (Q2R (angle + correction)%Qc * Math.radianCircle)%R.

(** [trace (path)]. *)
Definition trace (this : t) (path : Path2D) : outcome Path2D :=
  let startAngle := radians (startAngle this) in
  let endAngle := radians (endAngle this) in
  Path.ellipse path 0 0 (horizontalRadius this) (verticalRadius this) 0
    startAngle endAngle.

End Arc.

(** ** The measure cache *)

Module Measures.
Record t : Type := { width : Qc; height : Qc }.
End Measures.

(** [const cache = {}] of [measureText]: hash key to measures. *)
Abbreviation Cache := (gmap N Measures.t).

(** A computation that uses the measure cache. *)
Definition M (A : Type) : Type := Cache → outcome (A * Cache).

#[global] Instance M_ret : MRet M := λ A a cache, Ok (a, cache).
#[global] Instance M_bind : MBind M :=
  λ A B k m cache, bind (m cache) (λ r, k r.1 r.2).

Definition lift {A : Type} (m : outcome A) : M A :=
  λ cache, bind m (λ a, Ok (a, cache)).

(** The computation never throws, whatever the cache. *)
Definition nothrow {A : Type} (m : M A) : Prop :=
  ∀ cache e, m cache ≠ Throw e.

(** The computation completes, whatever the cache. *)
Definition completes {A : Type} (m : M A) : Prop :=
  ∀ cache, ∃ a cache', m cache = Ok (a, cache').

(** ** Text *)

Module Text.

(** The argument of the [text] setter: [String|Array<String>]. *)
Inductive TextDefinition : Type :=
| Single (line : string)
| Multi (array : list string).

Definition separator : string := String Js.newline EmptyString.

Definition formatString (text : TextDefinition) : list string :=
  match text with
  | Multi array =>
      fold_left (λ acc line, acc ++ Js.split Js.newline line) array []
  | Single line => Js.split Js.newline line
  end.

(** [measureText (text, options)], the cached measurement. *)
Definition measureText `{Platform} (text : string) (options : object)
    : M Measures.t :=
  λ cache,
    let key := hash text options in
    match cache !! key with
    | Some measures => Ok (measures, cache)
    | None =>
        let lines := formatString (Single text) in
        fontSize ← number_of (Js.get "fontSize" options);
        lineHeight ← number_of (Js.get "lineHeight" options);
        let height :=
          (fontSize * lineHeight * Num.int (Z.of_nat (length lines)))%Qc in
        let width :=
          fold_left (λ max line,
                       Num.max max (canvas_measureText options line))
                    lines 0%Qc in
        let result := {| Measures.width := width;
                         Measures.height := height |} in
        Ok (result, <[ key := result ]> cache)
    end.

Record t : Type := {
  position : Position.t;
  options : object;
  lines : list string;
  path : option Path2D;
}.

(** [static get alignments ()]. *)
Definition alignments : object :=
  {[ "left" := VStr "left"; "right" := VStr "right";
     "center" := VStr "center"; "start" := VStr "start";
     "end" := VStr "end" ]}.

(** [static get defaultOptions ()]. *)
Definition defaultOptions `{Platform} : object :=
  Js.spread Component_defaultOptions
    {[ "font" := VStr "sans-serif";
       "fontSize" := VNum (Num.int 20);
       "align" := Js.get "start" alignments;
       "bold" := VBool false;
       "italic" := VBool false;
       "underscore" := VBool false;
       "lineHeight" := VNum 1%Qc ]}.

(** [get text ()]. *)
Definition text (this : t) : string := Js.join separator (lines this).

(** [set text (text)]. *)
Definition set_text (this : t) (text : TextDefinition) : t :=
  {| position := position this; options := options this;
     lines := formatString text; path := path this |}.

Definition with_options (this : t) (options : object) : t :=
  {| position := position this; options := options;
     lines := lines this; path := path this |}.

(** [constructor (positionDefinition, text = "", options)].  The ready
    event and the loading of a font given by its URL are left out. *)
Definition new `{Platform} (positionDefinition : PositionDefinition)
    (text : option TextDefinition) (options : object) : t :=
  set_text
    {| position := Position_from positionDefinition;
       options := Component_resolve defaultOptions options;
       lines := []; path := None |}
    (default (Single "") text).

(** [static measure (text, options)]. *)
Definition measure `{Platform} (text : TextDefinition) (options : object)
    : M Measures.t :=
  let string :=
    match text with
    | Multi array => Js.join separator array
    | Single line => line
    end in
  let opts := Js.spread defaultOptions options in
  measureText string opts.

(** [getMeasures ()]. *)
Definition getMeasures `{Platform} (this : t) : M Measures.t :=
  measure (Single (text this)) (options this).

(** [get width ()] and [get height ()]. *)
Definition width `{Platform} (this : t) : M Qc :=
  measures ← getMeasures this; mret (Measures.width measures).

Definition height `{Platform} (this : t) : M Qc :=
  measures ← getMeasures this; mret (Measures.height measures).

(** [trace (path)]: the rectangle behind the text, kept in [this.path]. *)
Definition trace `{Platform} (this : t) (path : Path2D) : M (t * Path2D) :=
  width ← width this;
  height ← height this;
  let path := Path.rect path 0 0 width height in
  mret ({| position := position this; options := options this;
           lines := lines this; path := Some path |}, path).

(** [getAlignOffset ()].  [rootDirection] is the text direction of the
    canvas when the root of the text is a scene, [None] when it is not. *)
Definition getAlignOffset (this : t) (rootDirection : option string) : Qc :=
  let align := Js.get "align" (options this) in
  if Js.strict_eq align (Js.get "center" alignments) then Num.frac 1 2
  else if Js.strict_eq align (Js.get "right" alignments) then 1%Qc
  else if Js.strict_eq align (Js.get "start" alignments)
          || Js.strict_eq align (Js.get "end" alignments)
  then match rootDirection with
       | Some dir =>
           if (Js.strict_eq align (Js.get "start" alignments)
               && bool_decide (dir = "rtl"))
              || (Js.strict_eq align (Js.get "end" alignments)
                  && bool_decide (dir = "ltr"))
           then 1%Qc else 0%Qc
       | None => 0%Qc
       end
  else 0%Qc.

End Text.

(** ** Sprite *)

Module Frame.
Record t : Type := { x : Qc; y : Qc; w : Qc; h : Qc }.
End Frame.

Module FrameData.
Record t : Type := { frame : Frame.t; spriteSourceSize : Frame.t }.
End FrameData.

(** What is drawn on a [CanvasRenderingContext2D], in order. *)
Inductive CanvasCommand : Type :=
| DrawImage (file : option string) (sx sy sWidth sHeight : Qc)
            (dx dy dWidth dHeight : Qc).

Abbreviation Context2D := (list CanvasCommand).

(** Modelled from the spec: [makePath] of the class [Image], which is not
    among the sources.  Sections 4.1 and 5: a component paints itself
    within the paint of its frame, and an image has nothing to paint
    before its asynchronous load has completed; once loaded, the image is
    painted by the [draw] method of the instance. *)
Definition Image_makePath (isLoaded : bool)
    (draw : Context2D → outcome Context2D) (ctx : Context2D)
    : outcome Context2D :=
  if isLoaded then draw ctx else Ok ctx.

Module Sprite.

Record t : Type := {
  position : Position.t;
  options : object;
  url : option string;
  isLoaded : bool;
  width : Qc;
  height : Qc;
  frames : list FrameData.t;
  frame : Qc;
  isPaused : bool;
}.

(** [static get defaultOptions ()]. *)
Definition defaultOptions `{Platform} : object :=
  Js.spread Image_defaultOptions
    {[ "speed" := VNum 1%Qc; "loop" := VBool true ]}.

(** [static get events ()], the names this class adds. *)
Definition events : object :=
  {[ "start" := VStr "sprite-start"; "frame" := VStr "sprite-frame";
     "end" := VStr "sprite-end" ]}.

(** [constructor (positionDefinition, url, frames, options)]; the image
    is not loaded yet. *)
Definition new `{Platform} (positionDefinition : PositionDefinition)
    (url : option string) (frames : list FrameData.t) (options : object)
    : t :=
  {| position := Position_from positionDefinition;
     options := Component_resolve defaultOptions options;
     url := url; isLoaded := false; width := 0%Qc; height := 0%Qc;
     frames := frames; frame := 0%Qc; isPaused := false |}.

(** [this.frames[Math.floor(this.frame)]], destructured: a [TypeError]
    when there is no such frame. *)
Definition currentFrame (this : t) : outcome FrameData.t :=
  match Js.index (frames this) (Num.int (Num.floor (frame this))) with
  | Some data => Ok data
  | None => Throw TypeError
  end.

(** [draw (ctx)]. *)
Definition draw (this : t) (ctx : Context2D) : outcome Context2D :=
  data ← currentFrame this;
  let frame := FrameData.frame data in
  let spriteSourceSize := FrameData.spriteSourceSize data in
  Ok (ctx ++ [DrawImage (url this)
                (Frame.x frame) (Frame.y frame)
                (Frame.w frame) (Frame.h frame)
                (Frame.x spriteSourceSize) (Frame.y spriteSourceSize)
                (width this) (height this)]).

Definition with_frame (this : t) (frame : Qc) : t :=
  {| position := position this; options := options this; url := url this;
     isLoaded := isLoaded this; width := width this;
     height := height this; frames := frames this; frame := frame;
     isPaused := isPaused this |}.

Definition with_size (this : t) (width height : Qc) : t :=
  {| position := position this; options := options this; url := url this;
     isLoaded := isLoaded this; width := width; height := height;
     frames := frames this; frame := frame this;
     isPaused := isPaused this |}.

Definition with_isPaused (this : t) (isPaused : bool) : t :=
  {| position := position this; options := options this; url := url this;
     isLoaded := isLoaded this; width := width this;
     height := height this; frames := frames this; frame := frame this;
     isPaused := isPaused |}.

Definition with_options (this : t) (options : object) : t :=
  {| position := position this; options := options; url := url this;
     isLoaded := isLoaded this; width := width this;
     height := height this; frames := frames this; frame := frame this;
     isPaused := isPaused this |}.

(** The completion of the load of the image, which sets [isLoaded]. *)
Definition loaded (this : t) : t :=
  {| position := position this; options := options this; url := url this;
     isLoaded := true; width := width this;
     height := height this; frames := frames this; frame := frame this;
     isPaused := isPaused this |}.

(** [setFrame (frame)]. *)
Definition setFrame (this : t) (frame : Qc) : outcome t :=
  frame ← Math.modulo frame (Num.int (Z.of_nat (length (frames this))));
  Ok (with_frame this frame).

(** [this.frames.length - 1]. *)
Definition lastFrame (this : t) : Qc :=
  (Num.int (Z.of_nat (length (frames this))) - 1)%Qc.

(** [makePath (ctx)]: the new state, the canvas, and the names of the
    events fired, in order. *)
Definition makePath (this : t) (ctx : Context2D)
    : outcome (t * Context2D * list value) :=
  data ← currentFrame this;
  let spriteSourceSize := FrameData.spriteSourceSize data in
  let this :=
    with_size this (Frame.w spriteSourceSize) (Frame.h spriteSourceSize) in
  ctx ← Image_makePath (isLoaded this) (draw this) ctx;
  if isLoaded this then
    let frameNumber := Num.floor (frame this) in
    this ←
      (if negb (isPaused this)
          && (Js.truthy (Js.get "loop" (options this))
              || Num.ltb (frame this) (lastFrame this))
       then speed ← number_of (Js.get "speed" (options this));
            setFrame this (frame this + speed)%Qc
       else Ok this);
    let nextFrame := Num.floor (frame this) in
    let fired :=
      if bool_decide (nextFrame ≠ frameNumber) then
        Js.get "frame" events
        :: (if negb (Js.truthy (Js.get "loop" (options this)))
               && bool_decide (Num.int nextFrame = lastFrame this)
            then [Js.get "end" events] else [])
      else [] in
    Ok (this, ctx, fired)
  else Ok (this, ctx, []).

(** [play (speed)]. *)
Definition play (this : t) (speed : option Qc) : t :=
  let this := with_isPaused this false in
  match speed with
  | Some speed =>
      with_options this (<[ "speed" := VNum speed ]> (options this))
  | None => this
  end.

(** [pause ()]. *)
Definition pause (this : t) : t := with_isPaused this true.

End Sprite.

(** ** Button *)

Module Button.

(** [static get defaultOptions ()]. *)
Definition defaultOptions `{Platform} : object :=
  Js.spread (Js.spread Text.defaultOptions Input_defaultOptions)
    {[ "value" := VStr "" ]}.

(** [static get MARGIN ()]. *)
Definition MARGIN : Qc := Num.frac 1 5.

End Button.

(** ** Select *)

Module Select.

(** The state of a select that its own methods read and write: the
    selected index [this[selectedKey]], which is whatever number the
    setter has stored, [NaN] included; the text on display, one text per
    option, and whether and where the container of the options shows.
    The background, the rectangle around each option and the arrow are
    widgets of [Input], [Rectangle] and [Triangle] that the methods below
    never read; they are left out, and so are the listeners, but for the
    click on an option (see [operation]). *)
Record t : Type := {
  position : Position.t;
  options : object;
  selected : number;
  display : Text.t;
  optionsList : list Text.t;
  optionsContainer_shown : bool;
  optionsContainer_position : Position.t;
}.

(** [static get defaultOptions ()]. *)
Definition defaultOptions `{Platform} : object :=
  Js.spread (Js.spread Text.defaultOptions Input_defaultOptions)
    {[ "value" := VNum 0%Qc ]}.

(** [static get MARGIN ()]. *)
Definition MARGIN : Qc := Num.frac 1 5.

Definition message : string := "Options list should have at least one item.".

(** [Math.max(...widths)]; without any argument the maximum is
    [-Infinity], which is no number here. *)
Definition maximum (widths : list Qc) : M Qc :=
  match widths with
  | [] => λ _, NotANumber
  | first :: rest => mret (fold_left Num.max rest first)
  end.

(** [const textOptions = {...}], built from the options of the select. *)
Definition textOptions `{Platform} (this_options : object) : object :=
  {[ "cursor" := Js.get "pointer" Component_cursors;
     "fill" := Js.get "fill" this_options;
     "font" := Js.get "font" this_options;
     "fontSize" := Js.get "fontSize" this_options;
     "align" := Js.get "align" this_options;
     "bold" := Js.get "bold" this_options;
     "italic" := Js.get "italic" this_options;
     "underscore" := Js.get "underscore" this_options;
     "lineHeight" := Js.get "lineHeight" this_options;
     "origin" := Position.value Position.zero ]}.

(** [constructor (positionDefinition, optionsList, options)].  The
    options are strings, so that [option || ""] is [option]; the display
    is not attached to a scene yet, so that [getAlignOffset] has no text
    direction to read. *)
Definition new `{Platform} (positionDefinition : PositionDefinition)
    (optionsList : list string) (options : object) : M t :=
  if bool_decide (length optionsList = 0%nat)
  then λ _, Throw (RangeError message)
  else
    let this_options := Component_resolve defaultOptions options in
    let textOptions := textOptions this_options in
    measures ← Text.measure (Text.Single "M") textOptions;
    let margin := (Measures.height measures * MARGIN)%Qc in
    let place := DArray [DNumber (margin * 2)%Qc; DNumber margin] in
    let display := Text.new place (Some (Text.Single "")) textOptions in
    let texts :=
      map (λ option, Text.new place (Some (Text.Single option)) textOptions)
          optionsList in
    widths ← mapM Text.width texts;
    maxWidth ← maximum widths;
    (* [textOptions.origin] is one [Position] shared by the display and
       by every option: [set] moves the origin of them all. *)
    let origin :=
      Position.value
        {| Position.x := (maxWidth * Text.getAlignOffset display None)%Qc;
           Position.y := 0%Qc |} in
    let moved (text : Text.t) :=
      Text.with_options text (<[ "origin" := origin ]> (Text.options text)) in
    mret {| position := Position_from positionDefinition;
            options := this_options;
            selected := 0%Qc;
            display := moved display;
            optionsList := map moved texts;
            optionsContainer_shown := false;
            optionsContainer_position := Position.zero |}.

(** [get value ()]. *)
Definition value (this : t) : number := selected this.

Definition with_selected (this : t) (selected : number) : t :=
  {| position := position this; options := options this;
     selected := selected; display := display this;
     optionsList := optionsList this;
     optionsContainer_shown := optionsContainer_shown this;
     optionsContainer_position := optionsContainer_position this |}.

Definition with_display (this : t) (display : Text.t) : t :=
  {| position := position this; options := options this;
     selected := selected this; display := display;
     optionsList := optionsList this;
     optionsContainer_shown := optionsContainer_shown this;
     optionsContainer_position := optionsContainer_position this |}.

Definition with_container (this : t) (shown : bool) (place : Position.t) : t :=
  {| position := position this; options := options this;
     selected := selected this; display := display this;
     optionsList := optionsList this;
     optionsContainer_shown := shown;
     optionsContainer_position := place |}.

(** [set value (value)].  The assignments made before an exception stay:
    the result is the state reached together with the outcome.  An index
    that is no rational finds no option: [this.optionsList[NaN]] is
    [undefined], whose [text] cannot be read. *)
Definition set_value `{Platform} (this : t) (value : number) (cache : Cache)
    : t * outcome Cache :=
  let last := (Num.int (Z.of_nat (length (optionsList this))) - 1)%Qc in
  let this := with_selected this (Math.constrain_number value 0 last) in
  match selected this with
  | Finite index =>
      match Js.index (optionsList this) index with
      | None => (this, Throw TypeError)
      | Some chosen =>
          let shown :=
            Text.set_text (display this) (Text.Single (Text.text chosen)) in
          let shown :=
            Text.with_options shown
              (<[ "origin" := Js.get "origin" (Text.options chosen) ]>
                 (Text.options shown)) in
          let this := with_display this shown in
          let this :=
            with_container this false (optionsContainer_position this) in
          match optionsList this !! 0%nat with
          | None => (this, Throw TypeError)
          | Some first =>
              let place : M Position.t :=
                height ← Text.height first;
                let margin := (height * MARGIN)%Qc in
                height ← Text.height first;
                mret {| Position.x := 0%Qc;
                        Position.y :=
                          (- index * (height + 2 * margin))%Qc |} in
              match place cache with
              | Ok (place, cache) =>
                  (with_container this (optionsContainer_shown this) place,
                   Ok cache)
              | Throw e => (this, Throw e)
              | NotANumber => (this, NotANumber)
              end
          end
      end
  | _ => (this, Throw TypeError)
  end.

(** [click ()]. *)
Definition click (this : t) : t :=
  with_container this true (optionsContainer_position this).

(** What a user or a program does to a select once it is built: assign
    [value], click the select, or click the option at [index], whose
    listener assigns [this.value = index]; there is nothing to click at
    an index without an option. *)
Inductive operation : Type :=
| Assign (value : number)
| Click
| ClickOption (index : nat).

Definition run `{Platform} (this : t) (op : operation) (cache : Cache)
    : t * outcome Cache :=
  match op with
  | Assign value => set_value this value cache
  | Click => (click this, Ok cache)
  | ClickOption index =>
      if bool_decide (index < length (optionsList this))%nat
      then set_value this (Num.int (Z.of_nat index)) cache
      else (this, Ok cache)
  end.

(** The selects that the constructor and the operations produce, as
    long as no [NaN] is assigned. *)
Inductive reachable `{Platform} : t → Prop :=
| reachable_new positionDefinition optionsList options cache this cache' :
    new positionDefinition optionsList options cache = Ok (this, cache') →
    reachable this
| reachable_run this op cache :
    reachable this → op ≠ Assign NaN → reachable (run this op cache).1.

End Select.

(** ** Serialization *)

(** The plain record that [toJSON] returns and [from] reads.  A property
    that a definition does not have is [None]. *)
Module Json.
Record t : Type := {
  type : string;
  position : PositionDefinition;
  options : object;
  width : option Qc;
  height : option Qc;
  points : option (list PositionDefinition);
  horizontalRadius : option Qc;
  verticalRadius : option Qc;
  startAngle : option Qc;
  endAngle : option Qc;
  text : option Text.TextDefinition;
  url : option string;
  frames : option (list FrameData.t);
  frame : option Qc;
  isPaused : option bool;
  values : option (list string);
}.
End Json.

(** Modelled from the spec: [toJSON] of [Component], which is not among
    the sources.  Sections 4.1 and 6: "a structural snapshot (type tag +
    position + rotation + scale + options + serialized children +
    shape-specific fields)", the position written [[x, y]]; the rotation
    is one of the options, the children are serialized by [toJSON] of the
    tree below. *)
Definition Component_toJSON (type : string) (position : Position.t)
    (options : object) : Json.t :=
  {| Json.type := type;
     Json.position :=
       DArray [DNumber (Position.x position); DNumber (Position.y position)];
     Json.options := options;
     Json.width := None; Json.height := None; Json.points := None;
     Json.horizontalRadius := None; Json.verticalRadius := None;
     Json.startAngle := None; Json.endAngle := None; Json.text := None;
     Json.url := None; Json.frames := None; Json.frame := None;
     Json.isPaused := None; Json.values := None |}.

(** [Rectangle.toJSON] and [Rectangle.from]. *)
Definition Rectangle_toJSON (this : Rectangle.t) : Json.t :=
  let json :=
    Component_toJSON "Rectangle" (Rectangle.position this)
      (Rectangle.options this) in
  {| Json.type := Json.type json; Json.position := Json.position json;
     Json.options := Json.options json;
     Json.width := Some (Rectangle.width this);
     Json.height := Some (Rectangle.height this);
     Json.points := None;
     Json.horizontalRadius := None; Json.verticalRadius := None;
     Json.startAngle := None; Json.endAngle := None; Json.text := None;
     Json.url := None; Json.frames := None; Json.frame := None;
     Json.isPaused := None; Json.values := None |}.

Definition Rectangle_from `{Platform} (definition : Json.t) : Rectangle.t :=
  Rectangle.new (Json.position definition) (Json.width definition)
    (Json.height definition) (Json.options definition).

(** [Line.toJSON] and [Line.from]; without [points] the constructor
    calls [slice] on [undefined]. *)
Definition Line_toJSON (this : Line.t) : Json.t :=
  let json :=
    Component_toJSON "Line" (Line.position this) (Line.options this) in
  {| Json.type := Json.type json; Json.position := Json.position json;
     Json.options := Json.options json;
     Json.width := None; Json.height := None;
     Json.points := Some (map DPosition (Line.points this));
     Json.horizontalRadius := None; Json.verticalRadius := None;
     Json.startAngle := None; Json.endAngle := None; Json.text := None;
     Json.url := None; Json.frames := None; Json.frame := None;
     Json.isPaused := None; Json.values := None |}.

Definition Line_from `{Platform} (definition : Json.t) : outcome Line.t :=
  match Json.points definition with
  | Some points =>
      Ok (Line.new (Json.position definition) points
            (Json.options definition))
  | None => Throw TypeError
  end.

(** [Arc.toJSON] and [Arc.from]. *)
Definition Arc_toJSON (this : Arc.t) : Json.t :=
  let json :=
    Component_toJSON "Arc" (Arc.position this) (Arc.options this) in
  {| Json.type := Json.type json; Json.position := Json.position json;
     Json.options := Json.options json;
     Json.width := None; Json.height := None; Json.points := None;
     Json.horizontalRadius := Some (Arc.horizontalRadius this);
     Json.verticalRadius := Some (Arc.verticalRadius this);
     Json.startAngle := Some (Arc.startAngle this);
     Json.endAngle := Some (Arc.endAngle this);
     Json.text := None;
     Json.url := None; Json.frames := None; Json.frame := None;
     Json.isPaused := None; Json.values := None |}.

Definition Arc_from `{Platform} (definition : Json.t) : Arc.t :=
  Arc.new (Json.position definition)
    (Json.horizontalRadius definition) (Json.verticalRadius definition)
    (Json.startAngle definition) (Json.endAngle definition)
    (Json.options definition).

(** [Text.toJSON] and [Text.from]. *)
Definition Text_toJSON (this : Text.t) : Json.t :=
  let json :=
    Component_toJSON "Text" (Text.position this) (Text.options this) in
  {| Json.type := Json.type json; Json.position := Json.position json;
     Json.options := Json.options json;
     Json.width := None; Json.height := None; Json.points := None;
     Json.horizontalRadius := None; Json.verticalRadius := None;
     Json.startAngle := None; Json.endAngle := None;
     Json.text := Some (Text.Single (Text.text this));
     Json.url := None; Json.frames := None; Json.frame := None;
     Json.isPaused := None; Json.values := None |}.

Definition Text_from `{Platform} (definition : Json.t) : Text.t :=
  Text.new (Json.position definition) (Json.text definition)
    (Json.options definition).

(** Modelled from the spec: [toJSON] of [Image], which is not among the
    sources: the snapshot of a component with the [url] that
    [Sprite.from] reads back. *)
Definition Image_toJSON (type : string) (position : Position.t)
    (options : object) (url : option string) : Json.t :=
  let json := Component_toJSON type position options in
  {| Json.type := Json.type json; Json.position := Json.position json;
     Json.options := Json.options json;
     Json.width := None; Json.height := None; Json.points := None;
     Json.horizontalRadius := None; Json.verticalRadius := None;
     Json.startAngle := None; Json.endAngle := None; Json.text := None;
     Json.url := url; Json.frames := None; Json.frame := None;
     Json.isPaused := None; Json.values := None |}.

(** [Sprite.toJSON] and [Sprite.from]; without [frames], [setFrame]
    reads the length of [undefined], and without [frame] it has no number
    to reduce. *)
Definition Sprite_toJSON (this : Sprite.t) : Json.t :=
  let json :=
    Image_toJSON "Sprite" (Sprite.position this) (Sprite.options this)
      (Sprite.url this) in
  {| Json.type := Json.type json; Json.position := Json.position json;
     Json.options := Json.options json;
     Json.width := None; Json.height := None; Json.points := None;
     Json.horizontalRadius := None; Json.verticalRadius := None;
     Json.startAngle := None; Json.endAngle := None; Json.text := None;
     Json.url := Json.url json;
     Json.frames := Some (Sprite.frames this);
     Json.frame := Some (Sprite.frame this);
     Json.isPaused := Some (Sprite.isPaused this);
     Json.values := None |}.

Definition Sprite_from `{Platform} (definition : Json.t) : outcome Sprite.t :=
  match Json.frames definition with
  | None => Throw TypeError
  | Some frames =>
      let sprite :=
        Sprite.new (Json.position definition) (Json.url definition) frames
          (Json.options definition) in
      frame ← match Json.frame definition with
              | Some frame => Ok frame
              | None => NotANumber
              end;
      sprite ← Sprite.setFrame sprite frame;
      Ok (if default false (Json.isPaused definition)
          then Sprite.pause sprite else sprite)
  end.

(** A number as a snapshot holds it: JSON has no [NaN] and no infinity,
    and writes [null] for them. *)
Definition number_toJSON (n : number) : value :=
  match n with
  | Finite q => VNum q
  | _ => VNull
  end.

(** Modelled from the spec: [toJSON] of [Input], which is not among the
    sources.  Section 4.1 makes [from] the inverse of [toJSON], and the
    sources document the option [value] of a select as its selected
    index: the snapshot of an input is the snapshot of a component in
    whose options [value] is the value of the input. *)
Definition Input_toJSON (type : string) (position : Position.t)
    (options : object) (value : value) : Json.t :=
  Component_toJSON type position (<[ "value" := value ]> options).

(** Modelled from the spec: what [Input], which is not among the sources,
    does when it is attached to a parent.  The value that the snapshot
    holds in the options is assigned to the input then,
    [this.value = this.options.value], through the setter of the
    class. *)
Definition Input_attach `{Platform} (this : Select.t) : M Select.t :=
  λ cache,
    match Js.to_number (Js.get "value" (Select.options this)) with
    | Some value =>
        let result := Select.set_value this (Finite value) cache in
        match result.2 with
        | Ok cache => Ok (result.1, cache)
        | Throw e => Throw e
        | NotANumber => NotANumber
        end
    | None => NotANumber
    end.

(** [Select.toJSON] and [Select.from]; without [values] the constructor
    reads the length of [undefined]. *)
Definition Select_toJSON (this : Select.t) : Json.t :=
  let json :=
    Input_toJSON "Select" (Select.position this) (Select.options this)
      (number_toJSON (Select.value this)) in
  {| Json.type := Json.type json; Json.position := Json.position json;
     Json.options := Json.options json;
     Json.width := None; Json.height := None; Json.points := None;
     Json.horizontalRadius := None; Json.verticalRadius := None;
     Json.startAngle := None; Json.endAngle := None; Json.text := None;
     Json.url := None; Json.frames := None; Json.frame := None;
     Json.isPaused := None;
     Json.values := Some (map Text.text (Select.optionsList this)) |}.

Definition Select_from `{Platform} (definition : Json.t) : M Select.t :=
  match Json.values definition with
  | Some values =>
      Select.new (Json.position definition) values (Json.options definition)
  | None => λ _, Throw TypeError
  end.

(** A tree of components, and the tree of the definitions of its
    nodes. *)
Inductive Shape : Type :=
| ARectangle (rectangle : Rectangle.t)
| ALine (line : Line.t)
| AnArc (arc : Arc.t)
| AText (text : Text.t)
| ASprite (sprite : Sprite.t)
| ASelect (select : Select.t).

Inductive Tree : Type :=
| Node (shape : Shape) (children : list Tree).

Inductive JsonTree : Type :=
| JsonNode (definition : Json.t) (children : list JsonTree).

Definition Shape_toJSON (shape : Shape) : Json.t :=
  match shape with
  | ARectangle rectangle => Rectangle_toJSON rectangle
  | ALine line => Line_toJSON line
  | AnArc arc => Arc_toJSON arc
  | AText text => Text_toJSON text
  | ASprite sprite => Sprite_toJSON sprite
  | ASelect select => Select_toJSON select
  end.

(** Modelled from the spec: the serialization of a whole tree, which the
    sources leave to [Component].  Section 4.1: [toJSON] snapshots a node
    with its "serialized children"; [from] "is the inverse, polymorphic
    per registered type tag — fails with UnknownTypeError if the tag has
    no registered constructor".  The registry maps each tag to the [from]
    of its class. *)
Fixpoint toJSON (tree : Tree) : JsonTree :=
  match tree with
  | Node shape children => JsonNode (Shape_toJSON shape) (map toJSON children)
  end.

Definition registry `{Platform} : gmap string (Json.t → M Shape) :=
  {[ "Rectangle" := λ definition, mret (ARectangle (Rectangle_from definition));
     "Line" := λ definition,
       lift (line ← Line_from definition; Ok (ALine line));
     "Arc" := λ definition, mret (AnArc (Arc_from definition));
     "Text" := λ definition, mret (AText (Text_from definition));
     "Sprite" := λ definition,
       lift (sprite ← Sprite_from definition; Ok (ASprite sprite));
     "Select" := λ definition,
       select ← Select_from definition; mret (ASelect select) ]}.

(** The attachment of a tree to a parent, as far as it changes the tree:
    an input at its root takes the value of its options. *)
Definition attach `{Platform} (tree : Tree) : M Tree :=
  match tree with
  | Node (ASelect select) children =>
      select ← Input_attach select;
      mret (Node (ASelect select) children)
  | _ => mret tree
  end.

(** The node is built by the [from] of its class, then its children are
    built, then they are attached to it, in their order.  The root of
    the tree is attached to nothing. *)
Fixpoint from `{Platform} (json : JsonTree) : M Tree :=
  match json with
  | JsonNode definition children =>
      match registry !! Json.type definition with
      | None => λ _, Throw (UnknownTypeError (Json.type definition))
      | Some from_definition =>
          shape ← from_definition definition;
          children ← mapM from children;
          children ← mapM attach children;
          mret (Node shape children)
      end
  end.

(** The options are resolved, as the options of every constructed
    instance are: resolving them again leaves them as they are. *)
Definition resolved `{Platform} (defaults options : object) : Prop :=
  Component_resolve defaults options = options.

(** The shapes that the constructors and the methods of the sources
    produce: a line has a point; the frame number of a sprite is within
    its frames; a select has an option, and a font size and a line height
    that are numbers. *)
Definition valid_shape `{Platform} (shape : Shape) : Prop :=
  match shape with
  | ARectangle rectangle =>
      resolved Component_defaultOptions (Rectangle.options rectangle)
  | ALine line =>
      resolved Line.defaultOptions (Line.options line)
      ∧ Line.points line ≠ []
  | AnArc arc => resolved Arc.defaultOptions (Arc.options arc)
  | AText text => resolved Text.defaultOptions (Text.options text)
  | ASprite sprite =>
      resolved Sprite.defaultOptions (Sprite.options sprite)
      ∧ (0 ≤ Sprite.frame sprite
         < Num.int (Z.of_nat (length (Sprite.frames sprite))))%Qc
  | ASelect select =>
      resolved Select.defaultOptions (Select.options select)
      ∧ Select.optionsList select ≠ []
      ∧ is_Some (Js.to_number (Js.get "fontSize" (Select.options select)))
      ∧ is_Some (Js.to_number (Js.get "lineHeight" (Select.options select)))
  end.

(** A select that shows the option it has selected, as every select
    does once a value has been assigned to it without an exception: the
    value is the index of an option, whose text is on display. *)
Definition showing (select : Select.t) : Prop :=
  ∃ (index : nat) (chosen : Text.t),
    Select.value select = Num.int (Z.of_nat index)
    ∧ Select.optionsList select !! index = Some chosen
    ∧ Text.text (Select.display select) = Text.text chosen.

(** A tree as it is below a parent: a select at its root has been
    attached, and shows the option it has selected. *)
Definition attached (tree : Tree) : Prop :=
  match tree with
  | Node (ASelect select) _ => showing select
  | _ => True
  end.

(** A tree whose root, if it is a select, can measure each of its
    options. *)
Definition measurable `{Platform} (tree : Tree) : Prop :=
  match tree with
  | Node (ASelect select) _ =>
      Forall (λ text, completes (Text.height text)) (Select.optionsList select)
  | _ => True
  end.

Inductive valid `{Platform} : Tree → Prop :=
| valid_node shape children :
    valid_shape shape → Forall valid children →
    Forall attached children →
    valid (Node shape children).

(** What a round trip keeps of a shape: the type, the position, the
    options and the fields of the class.  Of the options of a select the
    round trip keeps all but [value], which becomes the value that the
    select had. *)
Definition kept (a b : Shape) : Prop :=
  match a, b with
  | ARectangle a, ARectangle b => a = b
  | ALine a, ALine b => a = b
  | AnArc a, AnArc b => a = b
  | AText a, AText b =>
      Text.position a = Text.position b
      ∧ Text.options a = Text.options b
      ∧ Text.text a = Text.text b
  | ASprite a, ASprite b =>
      Sprite.position a = Sprite.position b
      ∧ Sprite.options a = Sprite.options b
      ∧ Sprite.url a = Sprite.url b
      ∧ Sprite.frames a = Sprite.frames b
      ∧ Sprite.frame a = Sprite.frame b
      ∧ Sprite.isPaused a = Sprite.isPaused b
  | ASelect a, ASelect b =>
      Select.position a = Select.position b
      ∧ delete "value" (Select.options a) = delete "value" (Select.options b)
      ∧ Select.options b !! "value"
        = Some (number_toJSON (Select.value a))
      ∧ map Text.text (Select.optionsList a)
        = map Text.text (Select.optionsList b)
  | _, _ => False
  end.

(** What a snapshot does not hold starts afresh: a restored text has
    traced no path, a restored sprite is not loaded and has the size of
    no frame, a restored select is closed. *)
Definition afresh (b : Shape) : Prop :=
  match b with
  | AText b => Text.path b = None
  | ASprite b =>
      Sprite.isLoaded b = false
      ∧ Sprite.width b = 0%Qc ∧ Sprite.height b = 0%Qc
  | ASelect b => Select.optionsContainer_shown b = false
  | _ => True
  end.

(** The value of a restored select.  Below a parent it is the value that
    the select had, with the same text on display; at the root of the
    tree, where nothing attaches the select, it is the index [0] of the
    constructor, with nothing on display. *)
Definition reselected (below : bool) (a b : Shape) : Prop :=
  match a, b with
  | ASelect a, ASelect b =>
      if below
      then Select.value b = Select.value a
           ∧ Text.text (Select.display b) = Text.text (Select.display a)
      else Select.value b = 0%Qc
           ∧ Text.text (Select.display b) = ""
  | _, _ => True
  end.

(** A tree and the tree that the round trip makes of it, at the root
    ([below] is [false]) or below a parent. *)
Inductive restored : bool → Tree → Tree → Prop :=
| restored_node below a b children children' :
    kept a b → afresh b → reselected below a b →
    Forall2 (restored true) children children' →
    restored below (Node a children) (Node b children').

(** ** Computing the path of a component *)

(** The shapes whose tracing the sources define. *)
Inductive Drawable : Type :=
| DrawRectangle (rectangle : Rectangle.t)
| DrawLine (line : Line.t)
| DrawArc (arc : Arc.t)
| DrawText (text : Text.t)
| DrawSprite (sprite : Sprite.t).

(** What a computation of the path leaves: a path for the shapes that
    trace one, the canvas for a sprite, which draws on it. *)
Inductive Geometry : Type :=
| Traced (path : Path2D)
| Drawn (ctx : Context2D).

(** The [makePath]/[trace] pipeline of a shape: [trace] on a new
    [Path2D] for the shapes that define it, [makePath] on the canvas for
    a sprite.  The result is the shape after the call, the geometry, the
    measure cache and the events fired. *)
Definition tracePath `{Platform} (shape : Drawable) (ctx : Context2D)
    (cache : Cache) : outcome (Drawable * Geometry * Cache * list value) :=
  match shape with
  | DrawRectangle rectangle =>
      Ok (shape, Traced (Rectangle.trace rectangle []), cache, [])
  | DrawLine line =>
      Ok (shape, Traced (Line.trace line []), cache, [])
  | DrawArc arc =>
      path ← Arc.trace arc [];
      Ok (shape, Traced path, cache, [])
  | DrawText text =>
      r ← Text.trace text [] cache;
      Ok (DrawText r.1.1, Traced r.1.2, r.2, [])
  | DrawSprite sprite =>
      r ← Sprite.makePath sprite ctx;
      Ok (DrawSprite r.1.1, Drawn r.1.2, cache, r.2)
  end.

(** Modelled from the spec: the dirty flag that [Component], which is not
    among the sources, keeps next to the path.  Section 3: [isPathDirty]
    is "set true on any geometric mutation ... cleared after
    recomputation"; section 4.1 names the recomputation [computePath]. *)
Record Component : Type := {
  shape : Drawable;
  isPathDirty : bool;
}.

Definition computePath `{Platform} (this : Component) (ctx : Context2D)
    (cache : Cache) : outcome (Component * Geometry * Cache * list value) :=
  r ← tracePath (shape this) ctx cache;
  Ok ({| shape := r.1.1.1; isPathDirty := false |}, r.1.1.2, r.1.2, r.2).

(** What computing the path leaves of a shape that does not step.  A
    rectangle, a line and an arc are as they were.  A text is as it was
    but for [this.path], which holds the path just traced.  A sprite is
    as it was but for its width and height, which [makePath] sets to
    the size of the frame it is on. *)
Definition computed (a : Drawable) (geometry : Geometry) (b : Drawable)
    : Prop :=
  match a with
  | DrawText text =>
      ∃ path,
        geometry = Traced path
        ∧ b = DrawText {| Text.position := Text.position text;
                          Text.options := Text.options text;
                          Text.lines := Text.lines text;
                          Text.path := Some path |}
  | DrawSprite sprite =>
      ∃ data,
        Sprite.frames sprite !! Z.to_nat (Num.floor (Sprite.frame sprite))
        = Some data
        ∧ b = DrawSprite
                (Sprite.with_size sprite
                   (Frame.w (FrameData.spriteSourceSize data))
                   (Frame.h (FrameData.spriteSourceSize data)))
  | _ => b = a
  end.

(** A sprite that the next [makePath] does not step: not loaded, paused,
    or at its last frame with the loop option off.  Every other shape is
    steady. *)
Definition steady (shape : Drawable) : Prop :=
  match shape with
  | DrawSprite sprite =>
      Sprite.isLoaded sprite = false
      ∨ Sprite.isPaused sprite = true
      ∨ (Js.truthy (Js.get "loop" (Sprite.options sprite)) = false
         ∧ (Num.int (Z.of_nat (length (Sprite.frames sprite))) - 1
            ≤ Sprite.frame sprite)%Qc)
  | _ => True
  end.

(** ** The default options of every class *)

Inductive ShapeType : Type :=
| TRectangle | TLine | TArc | TText | TSprite | TButton | TSelect.

(** [this.constructor.defaultOptions]; [Rectangle] declares none and
    inherits those of [Component]. *)
Definition defaultOptionsOf `{Platform} (type : ShapeType) : object :=
  match type with
  | TRectangle => Component_defaultOptions
  | TLine => Line.defaultOptions
  | TArc => Arc.defaultOptions
  | TText => Text.defaultOptions
  | TSprite => Sprite.defaultOptions
  | TButton => Button.defaultOptions
  | TSelect => Select.defaultOptions
  end.

(** ** Sample instances *)

Module Samples.

(** A platform with the option tables of a plain component and a canvas
    that gives every character a width of ten. *)
Definition browser : Platform :=
  {| Component_defaultOptions :=
       {[ "fill" := VStr "#000"; "stroke" := VNull;
          "strokeWidth" := VNum (Num.int 2); "cursor" := VStr "default";
          "join" := VStr "miter"; "shown" := VBool true;
          "rotation" := VNum 0%Qc ]};
     Component_joins :=
       {[ "miter" := VStr "miter"; "round" := VStr "round";
          "bevel" := VStr "bevel" ]};
     Component_cursors :=
       {[ "default" := VStr "default"; "pointer" := VStr "pointer" ]};
     Input_defaultOptions :=
       {[ "fill" := VStr "#444"; "stroke" := VNull;
          "strokeWidth" := VNum (Num.int 2); "cursor" := VStr "default";
          "join" := VStr "miter"; "shown" := VBool true;
          "rotation" := VNum 0%Qc; "value" := VNull;
          "background" := VStr "#f6f6f6"; "border" := VStr "#aaa";
          "hover" := VStr "#dcdcdc" ]};
     Image_defaultOptions :=
       {[ "fill" := VNull; "stroke" := VNull;
          "strokeWidth" := VNum (Num.int 2); "cursor" := VStr "default";
          "join" := VStr "miter"; "shown" := VBool true;
          "rotation" := VNum 0%Qc ]};
     canvas_measureText :=
       λ _ line, Num.int (10 * Z.of_nat (String.length line));
     hash := λ text _, N.of_nat (String.length text) |}.

(** The same platform with a shadow among the options of every class: an
    object, which the defaults of [Input] and of [Image] inherit from
    those of [Component]. *)
Definition shaded : Platform :=
  {| Component_defaultOptions :=
       <[ "shadow" := VObj {[ "blur" := VNum 0%Qc;
                              "color" := VStr "#000" ]} ]>
         (@Component_defaultOptions browser);
     Component_joins := @Component_joins browser;
     Component_cursors := @Component_cursors browser;
     Input_defaultOptions :=
       <[ "shadow" := VObj {[ "blur" := VNum 0%Qc;
                              "color" := VStr "#000" ]} ]>
         (@Input_defaultOptions browser);
     Image_defaultOptions :=
       <[ "shadow" := VObj {[ "blur" := VNum 0%Qc;
                              "color" := VStr "#000" ]} ]>
         (@Image_defaultOptions browser);
     canvas_measureText := @canvas_measureText browser;
     hash := @hash browser |}.



Definition frame0 : FrameData.t :=
  {| FrameData.frame :=
       {| Frame.x := 0%Qc; Frame.y := 0%Qc;
          Frame.w := Num.int 16; Frame.h := Num.int 16 |};
     FrameData.spriteSourceSize :=
       {| Frame.x := 0%Qc; Frame.y := 0%Qc;
          Frame.w := Num.int 16; Frame.h := Num.int 16 |} |}.

Definition frame1 : FrameData.t :=
  {| FrameData.frame :=
       {| Frame.x := Num.int 16; Frame.y := 0%Qc;
          Frame.w := Num.int 16; Frame.h := Num.int 16 |};
     FrameData.spriteSourceSize :=
       {| Frame.x := 1%Qc; Frame.y := 0%Qc;
          Frame.w := Num.int 14; Frame.h := Num.int 16 |} |}.

(** A loaded sprite of two frames, playing at the default speed. *)
Definition walker : Sprite.t :=
  Sprite.loaded
    (@Sprite.new browser DUndefined (Some "walk.png") [frame0; frame1] ∅).

(** A text of two lines. *)
Definition caption : Text.t :=
  @Text.new browser DUndefined (Some (Text.Multi ["Hello"; "world"])) ∅.

(** A select of three options, built with an empty cache, and the
    cache it leaves. *)
Definition blank : Select.t :=
  {| Select.position := Position.zero; Select.options := ∅;
     Select.selected := 0%Qc;
     Select.display :=
       {| Text.position := Position.zero; Text.options := ∅;
          Text.lines := []; Text.path := None |};
     Select.optionsList := [];
     Select.optionsContainer_shown := false;
     Select.optionsContainer_position := Position.zero |}.

Definition menuOptions : list string := ["one"; "two"; "three"].

Definition menuBuilt : outcome (Select.t * Cache) :=
  @Select.new browser DUndefined menuOptions ∅ ∅.

Definition menu : Select.t :=
  match menuBuilt with Ok (this, _) => this | _ => blank end.

Definition menuCache : Cache :=
  match menuBuilt with Ok (_, cache) => cache | _ => ∅ end.

(** The same select once its third option is chosen. *)
Definition chosen : Select.t :=
  (@Select.set_value browser menu (Num.int 2) menuCache).1.

(** A rectangle in front of which stand the select and a line. *)
Definition scene : Tree :=
  Node (ARectangle (@Rectangle.new browser DUndefined
                      (Some (Num.int 50)) (Some (Num.int 30)) ∅))
    [Node (ASelect chosen) [];
     Node (ALine (@Line.new browser DUndefined
                    [DArray [DNumber 1%Qc; DNumber 1%Qc]] ∅)) []].

End Samples.

(** ** The packages behind [Color] and [Spritesheet] *)

(** What [Color] and [Spritesheet] call in the JavaScript library and in
    the packages [color-convert], [math] and [picomatch]: [parseInt str]
    is [Number.parseInt(str, 16)], [None] standing for [NaN];
    [toLocaleLowerCase] is the method of strings; [keyword_rgb name] is
    [convert.keyword.rgb(name)], [None] standing for [undefined];
    [average] is the helper of [math], applied to its arguments;
    [picomatch glob] is the matcher that the package builds for a glob,
    or the exception that it throws instead of building one, as it does
    for the empty string. *)
Class Packages : Type := {
  parseInt : string → option Z;
  toLocaleLowerCase : string → string;
  keyword_rgb : string → option (Qc * Qc * Qc);
  average : list Qc → Qc;
  picomatch : string → outcome (string → bool);
}.

(** ** Colors *)

Module Bits.

(** The integer part of a number, towards zero. *)
Definition truncate (q : Qc) : Z :=
  if Num.ltb q 0 then Qceiling q else Qfloor q.

(** [ToInt32]: the operand of a bitwise operator, [NaN] being [0]. *)
Definition to_int32 (number : option Qc) : Z :=
  match number with
  | Some q => (truncate q + 2 ^ 31) `mod` 2 ^ 32 - 2 ^ 31
  | None => 0
  end.

(** [a >> count]: the shift keeps the sign and uses the five low bits of
    the count. *)
Definition shiftr (a : Z) (count : Z) : Z := Z.shiftr a (count `mod` 32).

End Bits.

Module Color.

Record t : Type := {
  red : Qc;
  green : Qc;
  blue : Qc;
  alpha : Qc;
}.

(** An argument of [set], of the constructor or of [from]: an instance
    of [Color], or any other value. *)
Inductive Argument : Type :=
| Instance (color : t)
| Plain (v : value).

(** [hexToRatio (hex, n)]; [hex] is a number or [NaN]. *)
Definition hexToRatio (hex : option Qc) (n : nat) : Qc :=
  (Num.int (Z.land (Bits.shiftr (Bits.to_int32 hex) (8 * Z.of_nat n)) 255)
   / Num.int 255)%Qc.

(** [get array ()]. *)
Definition array (this : t) : list Qc := [red this; green this; blue this].

(** [constrain(argument, 0, 1)] on an argument of [set]. *)
Definition ratio (argument : Argument) : outcome Qc :=
  match argument with
  | Plain v => n ← number_of v; Ok (Math.constrain n 0 1)
  | Instance _ => NotANumber
  end.

(** [if (alpha !== undefined) this.alpha = constrain(alpha, 0, 1)], for
    the argument found, or not, in the place of the alpha. *)
Definition set_alpha (this : t) (argument : option Argument) : outcome t :=
  match argument with
  | None | Some (Plain VUndefined) => Ok this
  | Some argument =>
      alpha ← ratio argument;
      Ok {| red := red this; green := green this; blue := blue this;
            alpha := alpha |}
  end.

(** [string.substr(start)]. *)
Fixpoint substr (start : nat) (s : string) : string :=
  match start, s with
  | S start, String _ rest => substr start rest
  | _, _ => s
  end.

(** [hexString.split("").map(char => char.repeat(2)).join("")]. *)
Fixpoint doubled (hexString : string) : string :=
  match hexString with
  | EmptyString => EmptyString
  | String char rest => String char (String char (doubled rest))
  end.

Definition with_channels (this : t) (red green blue : Qc) : t :=
  {| red := red; green := green; blue := blue; alpha := alpha this |}.

(** The channels read off a hexadecimal number. *)
Definition with_hex (this : t) (hex : option Qc) : t :=
  with_channels this (hexToRatio hex 2) (hexToRatio hex 1) (hexToRatio hex 0).

(** [set (...colorDefinition)]. *)
Definition set `{Packages} (this : t) (colorDefinition : list Argument)
    : outcome t :=
  if bool_decide (0 < length colorDefinition)%nat
     && bool_decide (length colorDefinition < 3)%nat
  then
    match colorDefinition !! 0%nat with
    | Some (Instance param) => Ok param
    | Some (Plain param) =>
        let this :=
          match param with
          | VStr param =>
              if String.prefix "#" param then
                let hexString := substr 1 param in
                let str :=
                  if bool_decide (String.length hexString < 4)%nat
                  then doubled hexString else hexString in
                with_hex this (Qc_of_Z <$> parseInt str)
              else
                let rgb :=
                  default (0%Qc, 0%Qc, 0%Qc)
                    (keyword_rgb (toLocaleLowerCase param)) in
                with_channels this
                  (rgb.1.1 / Num.int 255)%Qc (rgb.1.2 / Num.int 255)%Qc
                  (rgb.2 / Num.int 255)%Qc
          | VNum hex => with_hex this (Some hex)
          | _ => this
          end in
        set_alpha this (colorDefinition !! 1%nat)
    | None => Ok this
    end
  else if bool_decide (2 < length colorDefinition)%nat then
    match colorDefinition with
    | r :: g :: b :: rest =>
        red ← ratio r;
        green ← ratio g;
        blue ← ratio b;
        set_alpha (with_channels this red green blue) (rest !! 0%nat)
    | _ => Ok this
    end
  else Ok this.

(** [constructor (...colorDefinition)]. *)
Definition new `{Packages} (colorDefinition : list Argument) : outcome t :=
  set {| red := 0%Qc; green := 0%Qc; blue := 0%Qc; alpha := 1%Qc |}
    colorDefinition.

(** [clone ()]. *)
Definition clone `{Packages} (this : t) : outcome t := new [Instance this].

Definition numbers (channels : list Qc) : list Argument :=
  map (λ channel, Plain (VNum channel)) channels.

(** [grey ()]. *)
Definition grey `{Packages} (this : t) : outcome t :=
  let weights := [Num.frac 299 1000; Num.frac 587 1000; Num.frac 114 1000] in
  let target :=
    average (zip_with (λ channel weight, channel * weight)%Qc
               (array this) weights) in
  set this (numbers [target; target; target]).

(** [saturation (value)]. *)
Definition saturation `{Packages} (this : t) (value : Qc) : outcome t :=
  let lowest :=
    Num.min (Num.min (red this) (green this)) (blue this) in
  let highest :=
    Num.max (Num.max (red this) (green this)) (blue this) in
  let target := average [lowest; highest] in
  set this
    (numbers (map (λ channel, target + value * (channel - target))%Qc
                (array this))).

(** [lightness (value)]. *)
Definition lightness `{Packages} (this : t) (value : Qc) : outcome t :=
  let fn :=
    if Num.ltb value (Num.frac 1 2)
    then λ channel, (channel * value)%Qc
    else λ channel,
           (channel + (1 - channel) * (value - Num.frac 1 2) * 2)%Qc in
  set this (numbers (map fn (array this))).

(** [reverse ()]. *)
Definition reverse `{Packages} (this : t) : outcome t :=
  set this (numbers (map (λ channel, 1 - channel)%Qc (array this))).

(** [toJSON ()]. *)
Definition toJSON (this : t) : list Qc := array this ++ [alpha this].

(** [static from (...colorDefinition)]; the result [None] is [null]. *)
Definition from `{Packages} (colorDefinition : list Argument)
    : outcome (option t) :=
  match colorDefinition !! 0%nat with
  | Some (Instance param) => Ok (Some param)
  | Some (Plain VNull) => Ok None
  | _ => color ← new colorDefinition; Ok (Some color)
  end.

(** Every channel and the alpha are ratios, between [0] and [1]. *)
Definition bounded (this : t) : Prop :=
  (0 ≤ red this ≤ 1)%Qc ∧ (0 ≤ green this ≤ 1)%Qc
  ∧ (0 ≤ blue this ≤ 1)%Qc ∧ (0 ≤ alpha this ≤ 1)%Qc.

(** The instances among the arguments are valid colors. *)
Definition bounded_argument (argument : Argument) : Prop :=
  match argument with
  | Instance color => bounded color
  | Plain _ => True
  end.

End Color.

(** ** The alignment of a text *)

(** [this.options.align = align]. *)
Definition aligned (this : Text.t) (align : string) : Text.t :=
  Text.with_options this (<[ "align" := VStr align ]> (Text.options this)).

(** ** The origin of a rectangle *)

(** [static get origins ()] of [Rectangle]. *)
Definition Rectangle_origins : object :=
  {[ "topLeft" := VStr "topLeft"; "topRight" := VStr "topRight";
     "center" := VStr "center"; "bottomLeft" := VStr "bottomLeft";
     "bottomRight" := VStr "bottomRight" ]}.

(** [array.includes(origin)] for an array of strings and a string. *)
Definition includes (array : list value) (origin : value) : bool :=
  existsb (Js.strict_eq origin) array.

(** [(test && number) || 0]. *)
Definition and_or_zero (test : bool) (number : Qc) : Qc :=
  let left := if test then VNum number else VBool false in
  if Js.truthy left then number else 0%Qc.

(** Modelled from the spec: [set] of the class [Position], which is not
    among the sources.  Section 3: a position is the value [{x, y}] and
    its operations mutate it explicitly; [set] called with two numbers
    makes them its coordinates. *)
Definition Position_set (this : Position.t) (x y : Qc) : Position.t :=
  {| Position.x := x; Position.y := y |}.

(** [getOrigin ()] of [Rectangle]; [super_getOrigin] is what
    [super.getOrigin()] returns. *)
Definition Rectangle_getOrigin (this : Rectangle.t)
    (super_getOrigin : Position.t) : Position.t :=
  let origin := Js.get "origin" (Rectangle.options this) in
  match origin with
  | VStr _ =>
      let origins := Rectangle_origins in
      let position := Position.zero in
      if Js.strict_eq origin (Js.get "center" origins)
      then Position_set position
             (- Rectangle.width this / Num.int 2)%Qc
             (- Rectangle.height this / Num.int 2)%Qc
      else Position_set position
             (and_or_zero
                (includes [Js.get "topRight" origins;
                           Js.get "bottomRight" origins] origin)
                (- Rectangle.width this)%Qc)
             (and_or_zero
                (includes [Js.get "bottomLeft" origins;
                           Js.get "bottomRight" origins] origin)
                (- Rectangle.height this)%Qc)
  | _ => super_getOrigin
  end.

(** ** Sprite sheets *)

Module Spritesheet.

(** The part of [this.json] that [extract] reads: [meta.file], and the
    entries of [frames] in the order of [Object.keys], every name
    once. *)
Record t : Type := {
  file : option string;
  frames : list (string * FrameData.t);
}.

(** The selector of [extract]: a function, called by [filter] with a
    name, its index and the names; a string; a regular expression without
    the flags [g] and [y], so that [test] keeps no state; or any other
    value. *)
Inductive Selector : Type :=
| Function (matcher : string → nat → list string → bool)
| Glob (matcher : string)
| RegExp (test : string → bool)
| Other.

(** The [filter] that [extract] builds for its selector; for a string
    the glob matcher is built first, before any name is looked at. *)
Definition filter `{Packages} (matcher : Selector)
    : outcome (string → nat → list string → bool) :=
  match matcher with
  | Function matcher => Ok matcher
  | Glob matcher =>
      glob ← picomatch matcher;
      Ok (λ string _ _, bool_decide (matcher = string) || glob string)
  | RegExp test => Ok (λ string _ _, test string)
  | Other => Ok (λ _ _ _, false)
  end.

(** [Object.keys(frames).filter(filter).map(key => frames[key])], from
    the entry at [index] on. *)
Fixpoint select (filter : string → nat → list string → bool)
    (keys : list string) (index : nat)
    (entries : list (string * FrameData.t)) : list FrameData.t :=
  match entries with
  | [] => []
  | (key, data) :: entries =>
      if filter key index keys
      then data :: select filter keys (S index) entries
      else select filter keys (S index) entries
  end.

(** [extract (position, selector = "*", options)]. *)
Definition extract `{Platform} `{Packages} (this : t)
    (position : PositionDefinition) (selector : option Selector)
    (options : object) : outcome Sprite.t :=
  filter ← filter (default (Glob "*") selector);
  let selected := select filter (map fst (frames this)) 0 (frames this) in
  Ok (Sprite.new position (file this) selected options).

End Spritesheet.

(** ** The life of a sprite *)

Module Animation.

(** What happens to a sprite once it is built: its image completes its
    load, a frame of the scene paints it, or a program calls [draw],
    [play], [pause] or [setFrame]. *)
Inductive operation : Type :=
| Loaded
| MakePath (ctx : Context2D)
| Draw (ctx : Context2D)
| Play (speed : option Qc)
| Pause
| SetFrame (frame : Qc).

(** The frame number of the sprite points at one of its frames. *)
Definition in_range (this : Sprite.t) : Prop :=
  (0 ≤ Sprite.frame this
   < Num.int (Z.of_nat (length (Sprite.frames this))))%Qc.

(** The operations that take a sprite forwards: the speed, or the frame
    number, that they give is not negative. *)
Definition forward (op : operation) : Prop :=
  match op with
  | Play (Some speed) => (0 ≤ speed)%Qc
  | SetFrame frame => (0 ≤ frame)%Qc
  | _ => True
  end.

(** Options whose speed is a number that is not negative. *)
Definition forwards (options : object) : Prop :=
  ∃ speed : Qc,
    Js.to_number (Js.get "speed" options) = Some speed ∧ (0 ≤ speed)%Qc.

Definition run (this : Sprite.t) (op : operation) : outcome Sprite.t :=
  match op with
  | Loaded => Ok (Sprite.loaded this)
  | MakePath ctx => result ← Sprite.makePath this ctx; Ok result.1.1
  | Draw ctx => _ ← Sprite.draw this ctx; Ok this
  | Play speed => Ok (Sprite.play this speed)
  | Pause => Ok (Sprite.pause this)
  | SetFrame frame => Sprite.setFrame this frame
  end.

Fixpoint runs (this : Sprite.t) (ops : list operation) : outcome Sprite.t :=
  match ops with
  | [] => Ok this
  | op :: ops => this ← run this op; runs this ops
  end.

End Animation.

(** ** More sample instances *)

Module Examples.

(** A digit of a hexadecimal number. *)
Definition hexDigit (char : Ascii.ascii) : option Z :=
  let code := Z.of_nat (Ascii.nat_of_ascii char) in
  if bool_decide (48 ≤ code ≤ 57)%Z then Some (code - 48)%Z
  else if bool_decide (97 ≤ code ≤ 102)%Z then Some (code - 87)%Z
  else if bool_decide (65 ≤ code ≤ 70)%Z then Some (code - 55)%Z
  else None.

(** The number that the leading hexadecimal digits of a string write,
    if it has any. *)
Fixpoint hexNumber (digits : option Z) (str : string) : option Z :=
  match str with
  | EmptyString => digits
  | String char rest =>
      match hexDigit char with
      | Some digit =>
          hexNumber (Some (default 0%Z digits * 16 + digit)%Z) rest
      | None => digits
      end
  end.

(** Packages that read hexadecimal digits, know three color names, take
    the arithmetic mean and match every name with the glob of a lone
    star, no name with another glob, and refuse the empty glob. *)
Definition packages : Packages :=
  {| parseInt := hexNumber None;
     toLocaleLowerCase := λ name, name;
     keyword_rgb :=
       λ name,
         if bool_decide (name = "red")
         then Some (Num.int 255, 0%Qc, 0%Qc)
         else if bool_decide (name = "indigo")
         then Some (Num.int 75, 0%Qc, Num.int 130)
         else if bool_decide (name = "white")
         then Some (Num.int 255, Num.int 255, Num.int 255)
         else None;
     average :=
       λ numbers,
         (fold_right Qcplus 0 numbers
          / Num.int (Z.of_nat (length numbers)))%Qc;
     picomatch :=
       λ glob,
         if bool_decide (glob = "") then Throw TypeError
         else Ok (λ _, bool_decide (glob = "*")) |}.

(** A sheet of the two frames of the walker. *)
Definition sheet : Spritesheet.t :=
  {| Spritesheet.file := Some "walk.png";
     Spritesheet.frames :=
       [("walk-0", Samples.frame0); ("walk-1", Samples.frame1)] |}.

(** A translucent orange. *)
Definition orange : Color.t :=
  {| Color.red := 1%Qc; Color.green := Num.frac 1 2; Color.blue := 0%Qc;
     Color.alpha := Num.frac 3 4 |}.

End Examples.

(** ** Tactics *)

(** Linear arithmetic on canonical rationals, through the rationals they
    stand for. *)
Ltac qc_lra :=
  unfold Qcle, Qclt in *; cbn in *;
  repeat match goal with
         | |- context [Qred ?x] => rewrite (Qred_correct x)
         | H : context [Qred ?x] |- _ => rewrite (Qred_correct x) in H
         end;
  Lqa.lra.

(** * Properties *)

Section TextLines.

Lemma split_not_nil sep s : Js.split sep s ≠ [].
Proof.
  destruct s as [|c s]; simpl; [done|].
  case_bool_decide; [done|]. by destruct (Js.split sep s).
Qed.

Lemma join_cons_cons sep a b l :
  Js.join sep (a :: b :: l) = a +:+ sep +:+ Js.join sep (b :: l).
Proof. done. Qed.

Lemma join_split s : Js.join Text.separator (Js.split Js.newline s) = s.
Proof.
  induction s as [|c s IH]; simpl; [done|].
  case_bool_decide as Hc.
  - subst c. pose proof (split_not_nil Js.newline s) as Hne.
    destruct (Js.split Js.newline s) as [|l ls]; [done|].
    rewrite join_cons_cons, IH. done.
  - pose proof (split_not_nil Js.newline s) as Hne.
    destruct (Js.split Js.newline s) as [|l ls]; [done|].
    destruct ls as [|l' ls]; simpl in *; by rewrite <- IH.
Qed.

Lemma string_app_assoc (a b c : string) : (a +:+ b) +:+ c = a +:+ (b +:+ c).
Proof.
  induction a as [|ch a IH]; [done|].
  change (String ch ((a +:+ b) +:+ c) = String ch (a +:+ b +:+ c)).
  by rewrite IH.
Qed.

Lemma join_app sep l1 l2 :
  l1 ≠ [] → l2 ≠ [] →
  Js.join sep (l1 ++ l2) = Js.join sep l1 +:+ sep +:+ Js.join sep l2.
Proof.
  intros H1 H2. induction l1 as [|a l1 IH]; [done|].
  destruct l1 as [|b l1].
  - simpl. by destruct l2.
  - rewrite <- app_comm_cons, <- app_comm_cons, join_cons_cons.
    rewrite app_comm_cons, IH by done.
    rewrite join_cons_cons. by rewrite !string_app_assoc.
Qed.

Lemma fold_split_acc (a : list string) (acc : list string) :
  fold_left (λ acc line, acc ++ Js.split Js.newline line) a acc
  = acc ++ fold_left (λ acc line, acc ++ Js.split Js.newline line) a [].
Proof.
  revert acc. induction a as [|s a IH]; intros acc; simpl.
  - by rewrite app_nil_r.
  - rewrite IH, (IH (Js.split _ _)). by rewrite app_assoc.
Qed.

Lemma join_format_multi (a : list string) :
  Js.join Text.separator (Text.formatString (Text.Multi a))
  = Js.join Text.separator a.
Proof.
  unfold Text.formatString.
  induction a as [|s a IH]; [done|].
  simpl. rewrite fold_split_acc.
  destruct a as [|s' a].
  - simpl. rewrite app_nil_r. apply join_split.
  - rewrite join_app.
    + rewrite IH, join_split. done.
    + apply split_not_nil.
    + simpl. rewrite fold_split_acc.
      intros Heq. apply app_eq_nil in Heq as [Heq _].
      by apply split_not_nil in Heq.
Qed.

End TextLines.

(** C10. After [t.text = s] for a string [s] the getter returns [s]
    unchanged; after [t.text = a] for an array of strings [a] the getter
    returns the elements of [a] joined with a newline, embedded newlines
    included. *)
Theorem text_setter_getter :
  (∀ (t : Text.t) (s : string),
      Text.text (Text.set_text t (Text.Single s)) = s) ∧
  (∀ (t : Text.t) (a : list string),
      Text.text (Text.set_text t (Text.Multi a))
      = Js.join Text.separator a).
Proof.
  split; intros t v; unfold Text.text, Text.set_text; simpl.
  - apply join_split.
  - apply join_format_multi.
Qed.

Section ArcAngles.

Lemma Q2R_Qc_plus (a b : Qc) : Q2R (a + b)%Qc = (Q2R a + Q2R b)%R.
Proof.
  rewrite <- Qreals.Q2R_plus. apply Qreals.Qeq_eqR.
  unfold Qcplus. simpl. apply Qred_correct.
Qed.

Lemma Q2R_correction : Q2R Arc.correction = (- (1 / 4))%R.
Proof.
  unfold Arc.correction, Num.frac.
  replace (Q2R (Q2Qc (-1 # 4))) with (Q2R (-1 # 4)).
  - unfold Q2R. simpl. lra.
  - apply Qreals.Qeq_eqR. simpl. symmetry. apply Qred_correct.
Qed.

Lemma radians_turns (a : Qc) :
  Arc.radians a = ((Q2R a - 1 / 4) * (2 * PI))%R.
Proof.
  unfold Arc.radians, Math.radianCircle.
  rewrite Q2R_Qc_plus, Q2R_correction. lra.
Qed.

Lemma Q2R_Qc_0 : Q2R 0%Qc = 0%R.
Proof. unfold Q2R. simpl. lra. Qed.

Lemma Q2R_Qc_1 : Q2R 1%Qc = 1%R.
Proof. unfold Q2R. simpl. lra. Qed.

Lemma Q2R_Qc_half : Q2R (Num.frac 1 2) = (1 / 2)%R.
Proof. unfold Q2R. simpl. lra. Qed.

End ArcAngles.

(** C6. The angles of an arc are in turns: [trace] hands to the path the
    radian angle [(a - 0.25) * 2 * PI] for the turn angle [a]; a start
    angle of [0] is the top of the ellipse, [0.5] the bottom, and [1] a
    full circle further, back at the top. *)
Theorem arc_angles_are_turns :
  (∀ a : Qc, Arc.radians a = ((Q2R a - 1 / 4) * (2 * PI))%R) ∧
  (∀ (arc : Arc.t) (path : Path2D),
      Arc.trace arc path
      = Path.ellipse path 0 0
          (Arc.horizontalRadius arc) (Arc.verticalRadius arc) 0
          ((Q2R (Arc.startAngle arc) - 1 / 4) * (2 * PI))%R
          ((Q2R (Arc.endAngle arc) - 1 / 4) * (2 * PI))%R) ∧
  (∀ rx ry : Qc,
      Path.ellipsePoint rx ry (Arc.radians 0) = (0, - Q2R ry)%R ∧
      Path.ellipsePoint rx ry (Arc.radians (Num.frac 1 2)) = (0, Q2R ry)%R ∧
      Path.ellipsePoint rx ry (Arc.radians 1) = (0, - Q2R ry)%R) ∧
  (Arc.radians 1 - Arc.radians 0 = 2 * PI)%R.
Proof.
  split; [exact radians_turns|].
  split; [intros arc path; unfold Arc.trace; by rewrite !radians_turns|].
  split.
  - intros rx ry. unfold Path.ellipsePoint.
    rewrite !radians_turns, Q2R_Qc_0, Q2R_Qc_1, Q2R_Qc_half.
    replace ((0 - 1 / 4) * (2 * PI))%R with (- (PI / 2))%R by lra.
    replace ((1 / 2 - 1 / 4) * (2 * PI))%R with (PI / 2)%R by lra.
    replace ((1 - 1 / 4) * (2 * PI))%R with (3 * (PI / 2))%R by lra.
    rewrite cos_neg, sin_neg, cos_PI2, sin_PI2, cos_3PI2, sin_3PI2.
    repeat split; f_equal; lra.
  - rewrite !radians_turns, Q2R_Qc_0, Q2R_Qc_1. lra.
Qed.

Section ArcRadii.

Lemma ltb_true (a b : Qc) : Num.ltb a b = true ↔ (a < b)%Qc.
Proof. unfold Num.ltb. apply bool_decide_eq_true. Qed.

Lemma ltb_false (a b : Qc) : Num.ltb a b = false ↔ (b ≤ a)%Qc.
Proof.
  unfold Num.ltb. rewrite bool_decide_eq_false. symmetry. apply Qcle_ngt.
Qed.


End ArcRadii.




Section SpriteStep.

Lemma index_Some_length {A : Type} (l : list A) (i : Qc) (a : A) :
  Js.index l i = Some a → l ≠ [].
Proof.
  unfold Js.index. destruct (_ && _); [|done].
  intros H ->. by rewrite lookup_nil in H.
Qed.

Lemma index_int {A : Type} (l : list A) (z : Z) :
  Js.index l (Num.int z)
  = if bool_decide (0 ≤ z)%Z then l !! Z.to_nat z else None.
Proof.
  unfold Js.index.
  assert (Num.floor (Num.int z) = z) as -> by apply Qfloor_Z.
  by rewrite bool_decide_eq_true_2.
Qed.

Lemma int_length_nonzero {A : Type} (l : list A) :
  l ≠ [] → Num.int (Z.of_nat (length l)) ≠ 0%Qc.
Proof.
  intros Hl H. unfold Num.int in H. rewrite <- Z2Qc_inj_0 in H.
  apply Z2Qc_inj in H. destruct l; [done|].
  rewrite length_cons, Nat2Z.inj_succ in H. lia.
Qed.

Lemma modulo_Ok (value divider : Qc) :
  divider ≠ 0%Qc → ∃ r, Math.modulo value divider = Ok r.
Proof.
  intros H. unfold Math.modulo. rewrite bool_decide_eq_false_2 by done.
  eauto.
Qed.

Lemma floor_bounds (q : Qc) :
  (Num.int (Num.floor q) ≤ q)%Qc ∧ (q < Num.int (Num.floor q) + 1)%Qc.
Proof.
  unfold Num.int, Num.floor. split.
  - apply Qfloor_le.
  - rewrite <- Z2Qc_inj_1, <- Z2Qc_inj_add. apply Qlt_floor.
Qed.

Lemma floor_int (z : Z) : Num.floor (Num.int z) = z.
Proof. unfold Num.floor, Num.int. apply Qfloor_Z. Qed.

Lemma floor_nonneg (q : Qc) : (0 ≤ q)%Qc → (0 ≤ Num.floor q)%Z.
Proof.
  intros Hq. destruct (floor_bounds q) as [_ Hlt].
  assert (Qc_of_Z 0 < Qc_of_Z (Num.floor q + 1))%Qc as Hz.
  { rewrite Z2Qc_inj_add, Z2Qc_inj_1, Z2Qc_inj_0. by eapply Qcle_lt_trans. }
  apply Z2Qc_inj_lt in Hz. lia.
Qed.

Lemma quotient_nonneg (v d : Qc) :
  (0 ≤ v)%Qc → (0 < d)%Qc → (0 ≤ v / d)%Qc.
Proof.
  intros Hv Hd. unfold Qcdiv.
  apply Qcmult_nonneg_nonneg; [done|]. by apply Qclt_le_weak, Qcinv_pos.
Qed.

(** On a value that is not negative and a divider that is positive,
    [modulo] is the remainder of the floored division. *)
Lemma modulo_nonneg (v d : Qc) :
  (0 ≤ v)%Qc → (0 < d)%Qc →
  Math.modulo v d = Ok (v - d * Num.int (Num.floor (v / d)))%Qc.
Proof.
  intros Hv Hd. unfold Math.modulo, Math.remainder.
  rewrite bool_decide_eq_false_2
    by (intros ->; by apply Qclt_not_eq in Hd).
  rewrite (proj2 (ltb_false d 0)) by (by apply Qclt_le_weak).
  rewrite (proj2 (ltb_false v 0)) by done.
  by rewrite (proj2 (ltb_false (v / d) 0)) by (by apply quotient_nonneg).
Qed.

Lemma Qfloor_unit (q : Q) : (0 <= q)%Q → (q < 1)%Q → Qfloor q = 0%Z.
Proof.
  intros H0 H1.
  pose proof (Qfloor_le q) as Hle. pose proof (Qlt_floor q) as Hlt.
  assert (inject_Z (Qfloor q) < inject_Z 1)%Q as Ha
    by (eapply Qle_lt_trans; eauto).
  assert (inject_Z 0 < inject_Z (Qfloor q + 1))%Q as Hb
    by (eapply Qle_lt_trans; eauto).
  rewrite <- Zlt_Qlt in Ha, Hb. lia.
Qed.

Lemma floor_small (v d : Qc) :
  (0 ≤ v)%Qc → (v < d)%Qc → Num.floor (v / d)%Qc = 0%Z.
Proof.
  intros H0 H1. unfold Num.floor.
  assert (0 < d)%Qc as Hd by (eapply Qcle_lt_trans; eauto).
  pose proof (Qcinv_pos d Hd) as Hinv.
  apply Qfloor_unit.
  - change (0 ≤ v / d)%Qc. unfold Qcdiv.
    apply Qcmult_nonneg_nonneg; [done|]. by apply Qclt_le_weak.
  - change (v / d < 1)%Qc. unfold Qcdiv.
    rewrite <- (Qcmult_inv_r d) by (intros ->; by apply Qclt_not_eq in Hd).
    by apply Qcmult_lt_mono_pos_r.
Qed.

Lemma modulo_small (v d : Qc) :
  (0 ≤ v < d)%Qc → Math.modulo v d = Ok v.
Proof.
  intros [H0 H1].
  assert (0 < d)%Qc as Hd by (eapply Qcle_lt_trans; eauto).
  rewrite modulo_nonneg by done.
  rewrite floor_small by done. f_equal.
  unfold Num.int. rewrite Z2Qc_inj_0. ring.
Qed.

Lemma length_pos {A : Type} (l : list A) :
  l ≠ [] → (0 < Num.int (Z.of_nat (length l)))%Qc.
Proof.
  intros Hl. unfold Num.int. rewrite <- Z2Qc_inj_0.
  apply (proj1 (Z2Qc_inj_lt _ _)). destruct l; [done|].
  rewrite length_cons, Nat2Z.inj_succ. lia.
Qed.

(** The frame that a frame number which is not negative points at. *)
Lemma currentFrame_lookup (s : Sprite.t) (data : FrameData.t) :
  (0 ≤ Sprite.frame s)%Qc →
  Sprite.frames s !! Z.to_nat (Num.floor (Sprite.frame s)) = Some data →
  Sprite.currentFrame s = Ok data.
Proof.
  intros Hframe Hdata. unfold Sprite.currentFrame.
  rewrite index_int, bool_decide_eq_true_2 by (by apply floor_nonneg).
  by rewrite Hdata.
Qed.

Lemma currentFrame_frames (s : Sprite.t) (data : FrameData.t) :
  Sprite.currentFrame s = Ok data → Sprite.frames s ≠ [].
Proof.
  unfold Sprite.currentFrame.
  destruct (Js.index _ _) eqn:E; [|done]. intros _.
  by eapply index_Some_length.
Qed.

End SpriteStep.

(** C7. Within one call of [makePath], a loaded sprite first draws the
    image region of the frame it is on, [frames[Math.floor(frame)]], and
    only then steps: the frame number moves by the speed option, once,
    when the sprite is not paused and the loop option is on or the frame
    number is below [frames.length - 1], and stays where it is when the
    sprite is paused, or when the loop option is off and the frame
    number has reached [frames.length - 1]; the event [sprite-frame] is
    fired exactly when the integer frame number has changed.  The step
    is [modulo (frame + speed, frames.length)]: the sum itself while it
    is below the number of frames, and, as long as it is not negative,
    what is left of it once the number of frames is taken off as often
    as it fits. *)
Theorem sprite_draws_then_steps
    (s : Sprite.t) (ctx : Context2D) (data : FrameData.t) (speed : Qc) :
  Sprite.isLoaded s = true →
  (0 ≤ Sprite.frame s)%Qc →
  Sprite.frames s !! Z.to_nat (Num.floor (Sprite.frame s)) = Some data →
  Js.to_number (Js.get "speed" (Sprite.options s)) = Some speed →
  let count := Num.int (Z.of_nat (length (Sprite.frames s))) in
  ∃ (s' : Sprite.t) (fired : list value),
    let region := FrameData.frame data in
    let size := FrameData.spriteSourceSize data in
    Sprite.makePath s ctx
    = Ok (s',
          ctx ++ [DrawImage (Sprite.url s)
                    (Frame.x region) (Frame.y region)
                    (Frame.w region) (Frame.h region)
                    (Frame.x size) (Frame.y size)
                    (Frame.w size) (Frame.h size)],
          fired) ∧
    (Sprite.isPaused s = false →
     Js.truthy (Js.get "loop" (Sprite.options s)) = true
     ∨ (Sprite.frame s < count - 1)%Qc →
     Math.modulo (Sprite.frame s + speed) count = Ok (Sprite.frame s')
     ∧ ((0 ≤ Sprite.frame s + speed)%Qc →
        Sprite.frame s'
        = (Sprite.frame s + speed
           - count * Num.int (Num.floor ((Sprite.frame s + speed) / count)))%Qc)
     ∧ ((0 ≤ Sprite.frame s + speed < count)%Qc →
        Sprite.frame s' = (Sprite.frame s + speed)%Qc)) ∧
    (Sprite.isPaused s = true → Sprite.frame s' = Sprite.frame s) ∧
    (Js.truthy (Js.get "loop" (Sprite.options s)) = false →
     (count - 1 ≤ Sprite.frame s)%Qc →
     Sprite.frame s' = Sprite.frame s) ∧
    (VStr "sprite-frame" ∈ fired
     ↔ Num.floor (Sprite.frame s') ≠ Num.floor (Sprite.frame s)).
Proof.
  intros Hloaded Hframe Hdata Hnumber count.
  pose proof (currentFrame_lookup s data Hframe Hdata) as Hcur.
  assert (number_of (Js.get "speed" (Sprite.options s)) = Ok speed) as Hspeed
    by (unfold number_of; by rewrite Hnumber).
  pose proof (currentFrame_frames _ _ Hcur) as Hframes.
  pose proof (length_pos _ Hframes) as Hcount. fold count in Hcount.
  destruct (modulo_Ok (Sprite.frame s + speed) count
              (int_length_nonzero _ Hframes)) as [next Hnext].
  assert ((0 ≤ Sprite.frame s + speed)%Qc →
          next = (Sprite.frame s + speed
                  - count * Num.int (Num.floor ((Sprite.frame s + speed)
                                                / count)))%Qc) as Hwrap.
  { intros Hsum. rewrite modulo_nonneg in Hnext by done. congruence. }
  assert ((0 ≤ Sprite.frame s + speed < count)%Qc →
          next = (Sprite.frame s + speed)%Qc) as Hsmall.
  { intros [Hsum Hbelow]. rewrite Hwrap by done.
    rewrite floor_small by done. unfold Num.int. rewrite Z2Qc_inj_0. ring. }
  unfold Sprite.makePath. rewrite Hcur. simpl.
  unfold Image_makePath. simpl. rewrite Hloaded.
  unfold Sprite.draw, Sprite.currentFrame in *. simpl.
  destruct (Js.index _ _) as [d|] eqn:Hidx; [|done].
  injection Hcur as ->. simpl.
  assert (∀ (f : Qc) (l : list value),
            VStr "sprite-frame" ∈
              (if bool_decide (Num.floor f ≠ Num.floor (Sprite.frame s))
               then Js.get "frame" Sprite.events :: l else [])
            ↔ Num.floor f ≠ Num.floor (Sprite.frame s))
    as Hfired.
  { intros f l. case_bool_decide as Hd.
    - split; [done|]. intros _. apply list_elem_of_here.
    - split; [|done]. intros Hin. by apply elem_of_nil in Hin. }
  change (Sprite.lastFrame (Sprite.with_size s _ _)) with (count - 1)%Qc.
  destruct (Sprite.isPaused s) eqn:Hpaused; simpl.
  - eexists _, _. split; [reflexivity|]. simpl.
    split; [done|]. split; [done|]. split; [done|]. apply Hfired.
  - destruct (Js.truthy (Js.get "loop" (Sprite.options s))
              || Num.ltb (Sprite.frame s) (count - 1)) eqn:Hstep.
    + rewrite Hspeed. simpl. unfold Sprite.setFrame. simpl.
      fold count. rewrite Hnext. simpl.
      eexists _, _. split; [reflexivity|]. simpl.
      split; [done|]. split; [done|]. split; [|apply (Hfired next)].
      intros Hloop Hlast. rewrite Hloop in Hstep. simpl in Hstep.
      apply ltb_true in Hstep. by apply Qclt_not_le in Hstep.
    + eexists _, _. split; [reflexivity|]. simpl.
      split.
      * intros _ [Hl|Hl].
        -- rewrite Hl in Hstep. done.
        -- apply ltb_true in Hl.
           rewrite Hl in Hstep. by rewrite orb_true_r in Hstep.
      * split; [done|]. split; [done|]. apply Hfired.
Qed.

Lemma sprite_draws_then_steps_witness :
  ∃ (s' : Sprite.t) (fired : list value),
    Sprite.makePath Samples.walker []
    = Ok (s',
          [] ++ [DrawImage (Some "walk.png") 0 0 (Num.int 16) (Num.int 16)
                   0 0 (Num.int 16) (Num.int 16)],
          fired)
    ∧ Sprite.frame s' = 1%Qc
    ∧ (VStr "sprite-frame" ∈ fired
       ↔ Num.floor (Sprite.frame s') ≠ Num.floor (Sprite.frame Samples.walker)).
Proof.
  destruct (sprite_draws_then_steps Samples.walker [] Samples.frame0 1%Qc)
    as (s' & fired & Hdraw & Hstep & _ & _ & Hfired);
    [vm_compute; first [reflexivity | discriminate]..|].
  exists s', fired. split; [exact Hdraw|]. split; [|exact Hfired].
  destruct Hstep as (_ & _ & Hsum);
    [vm_compute; reflexivity|left; vm_compute; reflexivity|].
  etransitivity; [apply Hsum; split; vm_compute; first [reflexivity | discriminate]|].
  apply Qc_is_canon. reflexivity.
Defined.

Section SelectValue.

Context `{Platform}.

Lemma constrain_range (v lo hi : Qc) :
  (lo ≤ hi)%Qc → (lo ≤ Math.constrain v lo hi ≤ hi)%Qc.
Proof.
  intros Hle. unfold Math.constrain, Num.min, Num.max.
  destruct (Num.ltb v lo) eqn:E1.
  - apply ltb_true in E1.
    destruct (Num.ltb hi lo) eqn:E2.
    + apply ltb_true in E2. by apply Qclt_not_le in E2.
    + done.
  - apply ltb_false in E1.
    destruct (Num.ltb hi v) eqn:E2.
    + done.
    + apply ltb_false in E2. done.
Qed.

Lemma constrain_id (v lo hi : Qc) :
  (lo ≤ v ≤ hi)%Qc → Math.constrain v lo hi = v.
Proof.
  intros [Hlo Hhi]. unfold Math.constrain, Num.min, Num.max.
  apply ltb_false in Hlo. rewrite Hlo.
  apply ltb_false in Hhi. by rewrite Hhi.
Qed.

Lemma last_nonneg {A : Type} (l : list A) :
  l ≠ [] → (0 ≤ Num.int (Z.of_nat (length l)) - 1)%Qc.
Proof.
  intros Hl. unfold Num.int.
  rewrite <- Z2Qc_inj_1, <- Z2Qc_inj_sub, <- Z2Qc_inj_0.
  apply (proj1 (Z2Qc_inj_le _ _)). destruct l; [done|].
  rewrite length_cons, Nat2Z.inj_succ. lia.
Qed.

Lemma constrain_number_range (v : number) (lo hi : Qc) :
  v ≠ NaN → (lo ≤ hi)%Qc →
  ∃ index : Qc,
    Math.constrain_number v lo hi = index ∧ (lo ≤ index ≤ hi)%Qc.
Proof.
  intros Hv Hle. destruct v as [q| | |]; [| | |done]; simpl.
  - eexists. split; [done|]. by apply constrain_range.
  - eexists. split; [done|]. split; [done|apply Qcle_refl].
  - eexists. split; [done|]. unfold Num.min.
    pose proof Hle as Hmin. apply ltb_false in Hmin as ->.
    split; [apply Qcle_refl|done].
Qed.

Lemma set_value_state (s : Select.t) (v : number) (cache : Cache) :
  Select.selected (Select.set_value s v cache).1
  = Math.constrain_number v 0
      (Num.int (Z.of_nat (length (Select.optionsList s))) - 1)%Qc
  ∧ Select.optionsList (Select.set_value s v cache).1
    = Select.optionsList s.
Proof.
  unfold Select.set_value. by repeat case_match.
Qed.

Lemma run_state (s : Select.t) (op : Select.operation) (cache : Cache) :
  Select.optionsList (Select.run s op cache).1 = Select.optionsList s
  ∧ (Select.selected (Select.run s op cache).1 = Select.selected s
     ∨ ∃ v, (op = Select.Assign NaN → v = NaN)
            ∧ (v = NaN → op = Select.Assign NaN)
            ∧ Select.selected (Select.run s op cache).1
              = Math.constrain_number v 0
                  (Num.int (Z.of_nat (length (Select.optionsList s))) - 1)%Qc).
Proof.
  destruct op as [v| |i]; unfold Select.run.
  - destruct (set_value_state s v cache) as [Hs Hl].
    split; [done|]. right. exists v. split; [by intros [= ->]|].
    split; [by intros ->|done].
  - split; [done|]. by left.
  - case_bool_decide; [|split; [done|by left]].
    destruct (set_value_state s (Num.int (Z.of_nat i)) cache) as [Hs Hl].
    split; [done|]. right. exists (Finite (Num.int (Z.of_nat i))).
    split; [done|]. split; [done|]. exact Hs.
Qed.

End SelectValue.

Section MeasureMonad.

Context `{Platform}.

Lemma M_bind_unfold {A B : Type} (m : M A) (f : A → M B) (cache : Cache) :
  (m ≫= f) cache
  = match m cache with
    | Ok (a, cache) => f a cache
    | Throw e => Throw e
    | NotANumber => NotANumber
    end.
Proof.
  unfold mbind, M_bind, bind. by destruct (m cache) as [[a c]| |].
Qed.

Lemma nothrow_bind {A B : Type} (m : M A) (f : A → M B) :
  nothrow m → (∀ a, nothrow (f a)) → nothrow (m ≫= f).
Proof.
  intros Hm Hf cache e. rewrite M_bind_unfold.
  destruct (m cache) as [[a c]|e'|] eqn:E; [apply Hf| |done].
  by apply Hm in E.
Qed.

Lemma completes_bind {A B : Type} (m : M A) (f : A → M B) :
  completes m → (∀ a, completes (f a)) → completes (m ≫= f).
Proof.
  intros Hm Hf cache. rewrite M_bind_unfold.
  destruct (Hm cache) as (a & c & ->). apply Hf.
Qed.

Lemma nothrow_ret {A : Type} (a : A) : nothrow (mret a : M A).
Proof. done. Qed.

Lemma completes_ret {A : Type} (a : A) : completes (mret a : M A).
Proof. intros cache. by exists a, cache. Qed.

Lemma nothrow_mapM {A B : Type} (f : A → M B) (l : list A) :
  (∀ a, nothrow (f a)) → nothrow (mapM f l).
Proof.
  intros Hf. induction l as [|a l IH]; [apply nothrow_ret|].
  simpl. apply nothrow_bind; [apply Hf|]. intros b.
  apply nothrow_bind; [apply IH|]. intros bs. apply nothrow_ret.
Qed.

Lemma mapM_Ok_length {A B : Type} (f : A → M B) (l : list A)
    (cache cache' : Cache) (bs : list B) :
  mapM f l cache = Ok (bs, cache') → length bs = length l.
Proof.
  revert cache cache' bs. induction l as [|a l IH]; intros cache cache' bs.
  - intros [= <- _]. done.
  - simpl. rewrite M_bind_unfold.
    destruct (f a cache) as [[b c]| |]; [|done..].
    rewrite M_bind_unfold.
    destruct (mapM f l c) as [[bs' c']| |] eqn:E; [|done..].
    intros [= <- _]. simpl. f_equal. by eapply IH.
Qed.

Lemma completes_mapM {A B : Type} (f : A → M B) (l : list A) :
  (∀ a, a ∈ l → completes (f a)) → completes (mapM f l).
Proof.
  induction l as [|a l IH]; intros Hf; [apply completes_ret|].
  simpl. apply completes_bind; [apply Hf, list_elem_of_here|]. intros b.
  apply completes_bind.
  - apply IH. intros a' Ha'. apply Hf. by apply list_elem_of_further.
  - intros bs. apply completes_ret.
Qed.

Lemma measureText_nothrow (text : string) (options : object) :
  nothrow (Text.measureText text options).
Proof.
  intros cache e. unfold Text.measureText.
  destruct (cache !! _); [done|].
  unfold number_of.
  destruct (Js.to_number (Js.get "fontSize" options)); [|done]. simpl.
  by destruct (Js.to_number (Js.get "lineHeight" options)).
Qed.

Lemma measureText_completes (text : string) (options : object) (fs lh : Qc) :
  Js.to_number (Js.get "fontSize" options) = Some fs →
  Js.to_number (Js.get "lineHeight" options) = Some lh →
  completes (Text.measureText text options).
Proof.
  intros Hfs Hlh cache. unfold Text.measureText.
  destruct (cache !! _); [eauto|].
  unfold number_of. rewrite Hfs, Hlh. simpl. eauto.
Qed.

Lemma width_nothrow (text : Text.t) : nothrow (Text.width text).
Proof.
  unfold Text.width, Text.getMeasures, Text.measure.
  apply nothrow_bind; [apply measureText_nothrow|].
  intros m. apply nothrow_ret.
Qed.

End MeasureMonad.

Section SelectConstructor.

Context `{Platform}.

Lemma get_spread (a b : object) (k : string) :
  Js.get k (Js.spread a b)
  = match b !! k with Some v => v | None => Js.get k a end.
Proof.
  unfold Js.get, Js.spread. rewrite lookup_union.
  destruct (b !! k), (a !! k); done.
Qed.

Lemma textOptions_fontSize (o : object) :
  Select.textOptions o !! "fontSize" = Some (Js.get "fontSize" o).
Proof. unfold Select.textOptions. by simplify_map_eq. Qed.

Lemma textOptions_lineHeight (o : object) :
  Select.textOptions o !! "lineHeight" = Some (Js.get "lineHeight" o).
Proof. unfold Select.textOptions. by simplify_map_eq. Qed.

Lemma lookup_deepMerge (parent child : object) (k : string) :
  Spec.deepMerge parent child !! k
  = match parent !! k, child !! k with
    | Some p, Some c => Some (Spec.deepMergeValue p c)
    | Some p, None => Some p
    | None, c => c
    end.
Proof.
  unfold Spec.deepMerge. rewrite lookup_merge.
  by destruct (parent !! k), (child !! k).
Qed.

Lemma text_default_fontSize :
  Text.defaultOptions !! "fontSize" = Some (VNum (Num.int 20)).
Proof.
  unfold Text.defaultOptions, Js.spread. apply lookup_union_Some_l.
  by simplify_map_eq.
Qed.

Lemma text_default_lineHeight :
  Text.defaultOptions !! "lineHeight" = Some (VNum 1%Qc).
Proof.
  unfold Text.defaultOptions, Js.spread. apply lookup_union_Some_l.
  by simplify_map_eq.
Qed.

Lemma new_text_text (place : PositionDefinition) (line : string) (o : object) :
  Text.text (Text.new place (Some (Text.Single line)) o) = line.
Proof. unfold Text.new, Text.text. simpl. apply join_split. Qed.

Lemma maximum_nothrow (widths : list Qc) : nothrow (Select.maximum widths).
Proof. by destruct widths. Qed.

Lemma new_nothrow (positionDefinition : PositionDefinition)
    (optionsList : list string) (options : object) :
  optionsList ≠ [] →
  nothrow (Select.new positionDefinition optionsList options).
Proof.
  intros Hne. unfold Select.new.
  rewrite bool_decide_eq_false_2 by (by destruct optionsList).
  apply nothrow_bind; [apply measureText_nothrow|]. intros measures.
  apply nothrow_bind; [apply nothrow_mapM, width_nothrow|]. intros widths.
  apply nothrow_bind; [apply maximum_nothrow|]. intros maxWidth.
  apply nothrow_ret.
Qed.

Lemma new_Ok_inv (positionDefinition : PositionDefinition)
    (optionsList : list string) (options : object)
    (cache cache' : Cache) (this : Select.t) :
  Select.new positionDefinition optionsList options cache
  = Ok (this, cache') →
  optionsList ≠ []
  ∧ Select.selected this = 0%Qc
  ∧ map Text.text (Select.optionsList this) = optionsList.
Proof.
  unfold Select.new. case_bool_decide as Hlen; [done|].
  rewrite M_bind_unfold.
  destruct (Text.measure _ _ cache) as [[measures c1]| |]; [|done..].
  rewrite M_bind_unfold.
  destruct (mapM (M:=M) Text.width _ c1) as [[widths c2]| |]; [|done..].
  rewrite M_bind_unfold.
  destruct (Select.maximum widths c2) as [[maxWidth c3]| |]; [|done..].
  intros [= <- _]. simpl.
  split; [by intros ->|]. split; [done|].
  rewrite !map_map. rewrite <- (map_id optionsList) at 2.
  apply map_ext. intros line. apply new_text_text.
Qed.

Lemma new_completes (positionDefinition : PositionDefinition)
    (optionsList : list string) (options : object) (fs lh : Qc) :
  optionsList ≠ [] →
  Js.to_number
    (Js.get "fontSize" (Component_resolve Select.defaultOptions options))
  = Some fs →
  Js.to_number
    (Js.get "lineHeight" (Component_resolve Select.defaultOptions options))
  = Some lh →
  completes (Select.new positionDefinition optionsList options).
Proof.
  intros Hne Hfs Hlh cache. unfold Select.new.
  rewrite bool_decide_eq_false_2 by (by destruct optionsList).
  set (o := Component_resolve Select.defaultOptions options) in *.
  assert (∀ text (inner : object),
             inner !! "fontSize" = Some (Js.get "fontSize" o) →
             inner !! "lineHeight" = Some (Js.get "lineHeight" o) →
             completes
               (Text.measureText text (Js.spread Text.defaultOptions inner)))
    as Hmeasure.
  { intros text inner H1 H2.
    apply (measureText_completes _ _ fs lh);
      rewrite get_spread; [by rewrite H1|by rewrite H2]. }
  rewrite M_bind_unfold.
  destruct (Hmeasure "M" (Select.textOptions o)
              (textOptions_fontSize o) (textOptions_lineHeight o) cache)
    as (measures & c1 & E1).
  unfold Text.measure at 1. rewrite E1.
  rewrite M_bind_unfold.
  match goal with |- context [mapM Text.width ?l] => set (texts := l) end.
  destruct (completes_mapM Text.width texts) with (cache := c1)
    as (widths & c2 & E2).
  { intros text Hin. subst texts. apply list_elem_of_fmap in Hin as (line & -> & _).
    unfold Text.width, Text.getMeasures, Text.measure.
    apply completes_bind; [|intros; apply completes_ret].
    apply Hmeasure; unfold Text.new, Component_resolve; simpl;
      rewrite lookup_deepMerge.
    - by rewrite textOptions_fontSize, text_default_fontSize.
    - by rewrite textOptions_lineHeight, text_default_lineHeight. }
  rewrite E2. rewrite M_bind_unfold.
  pose proof (mapM_Ok_length _ _ _ _ _ E2) as Hlen.
  destruct widths as [|w ws].
  { subst texts. rewrite length_map in Hlen. by destruct optionsList. }
  simpl. eauto.
Qed.

End SelectConstructor.

(** C8. The constructor of [Select] throws the [RangeError] "Options list
    should have at least one item." for an empty list of options, before
    any state exists; for a list that is not empty it never throws, and
    it completes, with the index [0] selected and one text per option,
    whenever the font size and the line height it measures with are
    numbers. *)
Theorem select_constructor_guard `{Platform}
    (positionDefinition : PositionDefinition) (optionsList : list string)
    (options : object) (cache : Cache) :
  (optionsList = [] →
   Select.new positionDefinition optionsList options cache
   = Throw (RangeError "Options list should have at least one item.")) ∧
  (optionsList ≠ [] →
   ¬ threw (Select.new positionDefinition optionsList options cache) ∧
   ∀ fs lh : Qc,
     Js.to_number
       (Js.get "fontSize" (Component_resolve Select.defaultOptions options))
     = Some fs →
     Js.to_number
       (Js.get "lineHeight" (Component_resolve Select.defaultOptions options))
     = Some lh →
     ∃ (this : Select.t) (cache' : Cache),
       Select.new positionDefinition optionsList options cache
       = Ok (this, cache')
       ∧ Select.value this = 0%Qc
       ∧ map Text.text (Select.optionsList this) = optionsList).
Proof.
  split.
  - intros ->. done.
  - intros Hne. split.
    + intros [e He]. by apply new_nothrow in He.
    + intros fs lh Hfs Hlh.
      destruct (new_completes positionDefinition optionsList options
                  fs lh Hne Hfs Hlh cache) as (this & cache' & E).
      exists this, cache'. split; [done|].
      by apply new_Ok_inv in E as (_ & ? & ?).
Qed.

Lemma select_constructor_guard_witness :
  @Select.new Samples.browser DUndefined [] ∅ ∅
  = Throw (RangeError "Options list should have at least one item.") ∧
  ¬ threw (@Select.new Samples.browser DUndefined Samples.menuOptions ∅ ∅) ∧
  ∃ (this : Select.t) (cache' : Cache),
    @Select.new Samples.browser DUndefined Samples.menuOptions ∅ ∅
    = Ok (this, cache')
    ∧ Select.value this = 0%Qc
    ∧ map Text.text (Select.optionsList this) = Samples.menuOptions.
Proof.
  split.
  - apply (@select_constructor_guard Samples.browser DUndefined [] ∅ ∅).
    reflexivity.
  - destruct (proj2 (@select_constructor_guard Samples.browser DUndefined
                       Samples.menuOptions ∅ ∅)) as [Hthrow Hok].
    + discriminate.
    + split; [exact Hthrow|].
      apply (Hok (Num.int 20) 1%Qc); vm_compute; reflexivity.
Defined.

Section SelectInvariant.

Context `{Platform}.

Lemma reachable_in_range (s : Select.t) :
  Select.reachable s →
  Select.optionsList s ≠ []
  ∧ ∃ index : Qc,
      Select.selected s = index
      ∧ (0 ≤ index
         ≤ Num.int (Z.of_nat (length (Select.optionsList s))) - 1)%Qc.
Proof.
  induction 1
    as [pos l o cache this cache' Hnew|this op cache Hr [IHl IHs] Hop].
  - apply new_Ok_inv in Hnew as (Hne & Hsel & Hmap).
    assert (Select.optionsList this ≠ []) as Hne'.
    { intros Hnil. rewrite Hnil in Hmap. by subst l. }
    split; [done|]. exists 0%Qc. split; [done|]. split; [done|].
    by apply last_nonneg.
  - destruct (run_state this op cache) as [Hl [Hs|(v & _ & Hv & Hs)]];
      rewrite Hl, Hs; split; try done.
    apply constrain_number_range; [|by apply last_nonneg].
    intros Hnan. by apply Hop, Hv.
Qed.

End SelectInvariant.

(** C9, as the code has it.  For a select over [n] options and a number
    [v] other than [NaN], after [s.value = v] the getter returns a
    number of the range [[0, n - 1]], and [v] itself whenever [v] is in
    that range; whatever is done to a select, short of assigning [NaN],
    its selected index is in that range.  The assignment of [NaN]
    stores [NaN], which the getter returns from then on, and throws a
    [TypeError]. *)
Theorem select_value_in_range `{Platform} (s : Select.t) :
  Select.reachable s →
  let last := (Num.int (Z.of_nat (length (Select.optionsList s))) - 1)%Qc in
  (∃ index : Qc, Select.value s = index ∧ (0 ≤ index ≤ last)%Qc) ∧
  (∀ (v : number) (cache : Cache),
     v ≠ NaN →
     let s' := (Select.set_value s v cache).1 in
     (∃ index : Qc, Select.value s' = index ∧ (0 ≤ index ≤ last)%Qc) ∧
     ∀ q : Qc, v = q → (0 ≤ q ≤ last)%Qc → Select.value s' = q) ∧
  ∀ cache : Cache,
    Select.value (Select.set_value s NaN cache).1 = NaN
    ∧ (Select.set_value s NaN cache).2 = Throw TypeError.
Proof.
  intros Hr last. destruct (reachable_in_range s Hr) as [Hne Hin].
  split; [exact Hin|]. split; [|done]. intros v cache Hv s'.
  destruct (set_value_state s v cache) as [Hs _].
  unfold Select.value. subst s'. rewrite Hs. split.
  - apply constrain_number_range; [done|]. by apply last_nonneg.
  - intros q -> Hq. simpl. f_equal. by apply constrain_id.
Qed.

Lemma select_value_in_range_witness :
  (∃ index : Qc,
      Select.value Samples.menu = index ∧ (0 ≤ index ≤ Num.int 3 - 1)%Qc) ∧
  (∀ (v : number) (cache : Cache),
     v ≠ NaN →
     let s' := (@Select.set_value Samples.browser Samples.menu v cache).1 in
     (∃ index : Qc,
         Select.value s' = index ∧ (0 ≤ index ≤ Num.int 3 - 1)%Qc) ∧
     ∀ q : Qc, v = q → (0 ≤ q ≤ Num.int 3 - 1)%Qc → Select.value s' = q) ∧
  ∀ cache : Cache,
    Select.value
      (@Select.set_value Samples.browser Samples.menu NaN cache).1 = NaN
    ∧ (@Select.set_value Samples.browser Samples.menu NaN cache).2
      = Throw TypeError.
Proof.
  apply (@select_value_in_range Samples.browser Samples.menu).
  apply (@Select.reachable_new Samples.browser DUndefined Samples.menuOptions
           ∅ ∅ Samples.menu Samples.menuCache).
  vm_compute. reflexivity.
Defined.

(** C9, as stated, fails for the number [NaN]: the setter stores it as it
    is, [constrain] leaving it alone, before it throws for want of an
    option at such an index; the getter returns it afterwards, and [NaN]
    is no number of the range. *)
Lemma select_value_nan :
  let result :=
    @Select.set_value Samples.browser Samples.menu NaN Samples.menuCache in
  result.2 = Throw TypeError
  ∧ Select.value result.1 = NaN
  ∧ ¬ ∃ index : Qc,
        Select.value result.1 = index ∧ (0 ≤ index ≤ Num.int 3 - 1)%Qc.
Proof.
  cbv zeta. unfold Select.set_value. cbn [Math.constrain_number].
  cbn [Select.with_selected Select.selected Select.value fst snd].
  split; [done|]. split; [done|]. by intros (index & ? & _).
Qed.

Section ComputePath.

Context `{Platform}.

Lemma measureText_cached (text : string) (options : object)
    (cache cache' : Cache) (measures : Measures.t) :
  Text.measureText text options cache = Ok (measures, cache') →
  cache' !! hash text options = Some measures.
Proof.
  unfold Text.measureText.
  destruct (cache !! hash text options) as [m|] eqn:E.
  - intros [= <- <-]. done.
  - destruct (number_of (Js.get "fontSize" options)); [|done..]. simpl.
    destruct (number_of (Js.get "lineHeight" options)); [|done..]. simpl.
    intros [= <- <-]. apply lookup_insert_eq.
Qed.

Lemma measureText_hit (text : string) (options : object) (cache : Cache)
    (measures : Measures.t) :
  cache !! hash text options = Some measures →
  Text.measureText text options cache = Ok (measures, cache).
Proof. intros E. unfold Text.measureText. by rewrite E. Qed.

Lemma text_trace_Ok (t t' : Text.t) (path : Path2D) (cache cache' : Cache) :
  Text.trace t [] cache = Ok (t', path, cache') →
  ∃ measures,
    cache' !! hash (Text.text t)
                (Js.spread Text.defaultOptions (Text.options t))
    = Some measures
    ∧ path = [Rect 0 0 (Measures.width measures) (Measures.height measures)]
    ∧ t' = {| Text.position := Text.position t;
              Text.options := Text.options t;
              Text.lines := Text.lines t; Text.path := Some path |}.
Proof.
  unfold Text.trace, Text.width, Text.height, Text.getMeasures, Text.measure.
  rewrite !M_bind_unfold.
  destruct (Text.measureText _ _ cache) as [[m1 c1]| |] eqn:E1; [|done..].
  simpl. rewrite !M_bind_unfold.
  apply measureText_cached in E1.
  rewrite (measureText_hit _ _ _ _ E1). simpl.
  intros [= <- <- <-]. by exists m1.
Qed.

Lemma text_trace_again (t t' : Text.t) (path : Path2D) (cache cache' : Cache) :
  Text.trace t [] cache = Ok (t', path, cache') →
  Text.trace t' [] cache' = Ok (t', path, cache').
Proof.
  intros Htrace.
  destruct (text_trace_Ok _ _ _ _ _ Htrace) as (m & Hm & -> & ->).
  unfold Text.trace, Text.width, Text.height, Text.getMeasures, Text.measure.
  rewrite !M_bind_unfold.
  change (Text.text {| Text.position := Text.position t;
                       Text.options := Text.options t;
                       Text.lines := Text.lines t;
                       Text.path := _ |})
    with (Text.text t).
  simpl Text.options.
  rewrite (measureText_hit _ _ _ _ Hm). simpl. rewrite !M_bind_unfold.
  rewrite (measureText_hit _ _ _ _ Hm). done.
Qed.

Lemma sprite_makePath_steady (s s' : Sprite.t) (ctx ctx' : Context2D)
    (fired : list value) :
  steady (DrawSprite s) →
  Sprite.makePath s ctx = Ok (s', ctx', fired) →
  fired = []
  ∧ (∃ data,
       Sprite.frames s !! Z.to_nat (Num.floor (Sprite.frame s)) = Some data
       ∧ s' = Sprite.with_size s
                (Frame.w (FrameData.spriteSourceSize data))
                (Frame.h (FrameData.spriteSourceSize data)))
  ∧ steady (DrawSprite s')
  ∧ Sprite.makePath s' ctx = Ok (s', ctx', []).
Proof.
  intros Hsteady. unfold Sprite.makePath, Sprite.currentFrame.
  destruct (Js.index _ _) as [data|] eqn:Hidx; [|done]. simpl.
  unfold Image_makePath, Sprite.draw, Sprite.currentFrame. simpl.
  rewrite Hidx.
  assert (Sprite.frames s !! Z.to_nat (Num.floor (Sprite.frame s))
          = Some data) as Hdata.
  { rewrite index_int in Hidx. by case_bool_decide. }
  unfold Sprite.lastFrame. simpl.
  assert (negb (Sprite.isPaused s)
          && (Js.truthy (Js.get "loop" (Sprite.options s))
              || Num.ltb (Sprite.frame s)
                   (Num.int (Z.of_nat (length (Sprite.frames s))) - 1))
          = false
          ∨ Sprite.isLoaded s = false) as Hstop.
  { destruct Hsteady as [Hl|[Hp|[Hloop Hlast]]]; [by right|left..].
    - by rewrite Hp.
    - rewrite Hloop. apply ltb_false in Hlast. rewrite Hlast.
      apply andb_false_r. }
  destruct (Sprite.isLoaded s) eqn:Hloaded; simpl.
  - destruct Hstop as [Hstop|]; [|done].
    rewrite Hstop. simpl.
    rewrite bool_decide_eq_false_2 by (intros Hne; by apply Hne).
    intros [= <- <- <-]. simpl. rewrite Hidx. simpl.
    rewrite Hloaded. simpl.
    rewrite Hstop. simpl.
    rewrite bool_decide_eq_false_2 by (intros Hne; by apply Hne).
    split; [done|]. split; [by exists data|]. split; [|done].
    destruct Hsteady as [Hl|[Hp|Hq]];
      [congruence|by right; left|by right; right].
  - intros [= <- <- <-]. simpl. rewrite Hidx. simpl. rewrite Hloaded.
    split; [done|]. split; [by exists data|]. split; [by left|done].
Qed.

End ComputePath.

(** C2, as the code has it.  Computing the path of a rectangle, a line,
    an arc or a text twice in a row gives the same geometry both times.
    The first computation clears the dirty flag and leaves the component
    as it was, but for the path that a text keeps of its trace; the
    second leaves the component as it finds it.  The same holds for a
    sprite that does not step, one that is not loaded, is paused, or has
    reached its last frame with the loop option off, but for its width
    and height, which the first computation sets to the size of the
    frame that the sprite is on; such a sprite fires no event. *)
Theorem computePath_twice `{Platform}
    (this this' : Component) (ctx : Context2D) (cache cache' : Cache)
    (geometry : Geometry) (fired : list value) :
  steady (shape this) →
  computePath this ctx cache = Ok (this', geometry, cache', fired) →
  computed (shape this) geometry (shape this')
  ∧ fired = []
  ∧ isPathDirty this' = false
  ∧ computePath this' ctx cache' = Ok (this', geometry, cache', []).
Proof.
  intros Hsteady. unfold computePath.
  destruct this as [shape dirty]. simpl in *.
  destruct shape as [r|l|a|t|s]; simpl.
  - intros [= <- <- <- <-]. done.
  - intros [= <- <- <- <-]. done.
  - destruct (Arc.trace a []) as [path| |] eqn:E; [|done..]. simpl.
    intros [= <- <- <- <-]. simpl. by rewrite E.
  - destruct (Text.trace t [] cache) as [[[t' path] c1]| |] eqn:E; [|done..].
    simpl. intros [= <- <- <- <-]. simpl.
    rewrite (text_trace_again _ _ _ _ _ E).
    destruct (text_trace_Ok _ _ _ _ _ E) as (m & _ & _ & ->).
    split; [by exists path|done].
  - destruct (Sprite.makePath s ctx) as [[[s' ctx'] ev]| |] eqn:E; [|done..].
    simpl. intros [= <- <- <- <-]. simpl.
    destruct (sprite_makePath_steady _ _ _ _ _ Hsteady E)
      as (-> & (data & Hdata & ->) & _ & E').
    rewrite E'. split; [by exists data|done].
Qed.

Lemma computePath_twice_witness :
  ∃ (this' : Component) (geometry : Geometry),
    let this := {| shape := DrawSprite (Sprite.pause Samples.walker);
                   isPathDirty := true |} in
    (@computePath Samples.browser this [] ∅ = Ok (this', geometry, ∅, [])
     ∧ shape this'
       = DrawSprite
           (Sprite.with_size (Sprite.pause Samples.walker)
              (Num.int 16) (Num.int 16)))
    ∧ computed (shape this) geometry (shape this')
    ∧ @nil value = []
    ∧ isPathDirty this' = false
    ∧ @computePath Samples.browser this' [] ∅ = Ok (this', geometry, ∅, []).
Proof.
  eexists _, _. cbv zeta.
  split; [split; vm_compute; reflexivity|].
  apply (@computePath_twice Samples.browser
           {| shape := DrawSprite (Sprite.pause Samples.walker);
              isPathDirty := true |} _ [] ∅ ∅ _ []).
  - right. left. reflexivity.
  - vm_compute. reflexivity.
Defined.

(** C2, as stated, fails for a sprite: of two computations in a row on a
    loaded, playing sprite, the first draws the first frame and the
    second the second frame, and each moves the frame number.  Nor does
    a computation leave all the rest of the state alone: a paused sprite
    takes the width of its frame, and a text keeps the path traced. *)
Lemma sprite_computePath_steps :
  (∃ (first second : Component) (drawn drawn' : Geometry)
     (fired fired' : list value),
     let this := {| shape := DrawSprite Samples.walker;
                    isPathDirty := true |} in
     @computePath Samples.browser this [] ∅ = Ok (first, drawn, ∅, fired)
     ∧ @computePath Samples.browser first [] ∅
       = Ok (second, drawn', ∅, fired')
     ∧ drawn' ≠ drawn
     ∧ shape first ≠ shape this
     ∧ shape second ≠ shape first)
  ∧ (∃ (paused : Sprite.t) (drawn : Geometry),
       @computePath Samples.browser
         {| shape := DrawSprite (Sprite.pause Samples.walker);
            isPathDirty := true |} [] ∅
       = Ok ({| shape := DrawSprite paused; isPathDirty := false |},
             drawn, ∅, [])
       ∧ Sprite.width (Sprite.pause Samples.walker) = 0%Qc
       ∧ Sprite.width paused = Num.int 16)
  ∧ (∃ (traced : Text.t) (path : Path2D) (cache' : Cache),
       @computePath Samples.browser
         {| shape := DrawText Samples.caption; isPathDirty := true |} [] ∅
       = Ok ({| shape := DrawText traced; isPathDirty := false |},
             Traced path, cache', [])
       ∧ Text.path Samples.caption = None
       ∧ Text.path traced = Some path).
Proof.
  split; [|split].
  - eexists _, _, _, _, _, _. simpl.
    split; [vm_compute; reflexivity|].
    split; [vm_compute; reflexivity|].
    repeat split; discriminate.
  - eexists _, _. split; [vm_compute; reflexivity|].
    split; vm_compute; reflexivity.
  - eexists _, _, _. split; [vm_compute; reflexivity|].
    split; vm_compute; reflexivity.
Qed.

Section Options.

Context `{Platform}.

Lemma lookup_spread (parent child : object) (k : string) :
  Js.spread parent child !! k
  = match child !! k with Some v => Some v | None => parent !! k end.
Proof.
  unfold Js.spread. rewrite lookup_union.
  by destruct (child !! k), (parent !! k).
Qed.

Lemma deepMergeValue_undefined (p c : value) :
  Spec.deepMergeValue p c = VUndefined → c = VUndefined.
Proof. by destruct p, c. Qed.

Lemma resolve_defined (defaults options : object) (k : string) (d : value) :
  defaults !! k = Some d → d ≠ VUndefined →
  options !! k ≠ Some VUndefined →
  Js.get k (Component_resolve defaults options) ≠ VUndefined.
Proof.
  intros Hd Hdefined Hoption.
  unfold Js.get, Component_resolve. rewrite lookup_deepMerge, Hd.
  destruct (options !! k) as [v|]; simpl; [|done].
  intros Hv%deepMergeValue_undefined. by subst v.
Qed.

Lemma resolve_inherited (defaults options : object) (k : string) :
  options !! k = None →
  Component_resolve defaults options !! k = defaults !! k.
Proof.
  intros Hk. unfold Component_resolve. rewrite lookup_deepMerge, Hk.
  by destruct (defaults !! k).
Qed.

End Options.

(** C4, as the code has it.  The options resolved for an instance of a
    shape hold no [undefined] for a key to which the defaults of its
    class give a value other than [undefined], unless the options given
    to the instance set that very key to [undefined]; whatever the
    other keys of these options hold.  The defaults may give [null], as
    those of [Line] do for [fill] and [cursor] and those of [Arc] for
    [join], and an instance that leaves such a key alone has [null] for
    it.  The options of an instance are those that the constructor of
    its class resolves. *)
Theorem resolved_options_defined `{Platform} (type : ShapeType)
    (options : object) (k : string) (d : value) :
  defaultOptionsOf type !! k = Some d →
  d ≠ VUndefined →
  options !! k ≠ Some VUndefined →
  Js.get k (Component_resolve (defaultOptionsOf type) options) ≠ VUndefined
  ∧ (Line.defaultOptions !! "fill" = Some VNull
     ∧ Line.defaultOptions !! "cursor" = Some VNull
     ∧ Arc.defaultOptions !! "join" = Some VNull)
  ∧ (Js.get "fill" (Component_resolve Line.defaultOptions ∅) = VNull
     ∧ Js.get "cursor" (Component_resolve Line.defaultOptions ∅) = VNull
     ∧ Js.get "join" (Component_resolve Arc.defaultOptions ∅) = VNull)
  ∧ (∀ positionDefinition width height,
        Rectangle.options
          (Rectangle.new positionDefinition width height options)
        = Component_resolve (defaultOptionsOf TRectangle) options)
  ∧ (∀ positionDefinition points,
        Line.options (Line.new positionDefinition points options)
        = Component_resolve (defaultOptionsOf TLine) options)
  ∧ (∀ positionDefinition horizontalRadius verticalRadius startAngle
       endAngle,
        Arc.options
          (Arc.new positionDefinition horizontalRadius verticalRadius
             startAngle endAngle options)
        = Component_resolve (defaultOptionsOf TArc) options)
  ∧ (∀ positionDefinition text,
        Text.options (Text.new positionDefinition text options)
        = Component_resolve (defaultOptionsOf TText) options)
  ∧ (∀ positionDefinition url frames,
        Sprite.options (Sprite.new positionDefinition url frames options)
        = Component_resolve (defaultOptionsOf TSprite) options)
  ∧ (∀ positionDefinition optionsList cache this cache',
        Select.new positionDefinition optionsList options cache
        = Ok (this, cache') →
        Select.options this
        = Component_resolve (defaultOptionsOf TSelect) options).
Proof.
  intros Hd Hdefined Hoption.
  split; [by eapply resolve_defined|].
  assert (Line.defaultOptions !! "fill" = Some VNull
          ∧ Line.defaultOptions !! "cursor" = Some VNull
          ∧ Arc.defaultOptions !! "join" = Some VNull)
    as (Hfill & Hcursor & Hjoin).
  { unfold Arc.defaultOptions, Line.defaultOptions. repeat split.
    - rewrite lookup_insert_ne by done. rewrite lookup_spread.
      by simplify_map_eq.
    - rewrite lookup_insert_ne by done. rewrite lookup_spread.
      by simplify_map_eq.
    - rewrite lookup_spread. by simplify_map_eq. }
  split; [done|]. split.
  { unfold Js.get. rewrite !resolve_inherited by done.
    by rewrite Hfill, Hcursor, Hjoin. }
  do 5 (split; [done|]).
  intros positionDefinition optionsList cache this cache' Hnew.
  unfold Select.new in Hnew. case_bool_decide as Hlen; [done|].
  rewrite M_bind_unfold in Hnew.
  destruct (Text.measure _ _ cache) as [[measures c1]| |]; [|done..].
  rewrite M_bind_unfold in Hnew.
  destruct (mapM (M:=M) Text.width _ c1) as [[widths c2]| |]; [|done..].
  rewrite M_bind_unfold in Hnew.
  destruct (Select.maximum widths c2) as [[maxWidth c3]| |]; [|done..].
  by injection Hnew as <- _.
Qed.

Lemma resolved_options_defined_witness :
  Js.get "font"
    (Component_resolve (@defaultOptionsOf Samples.browser TText)
       {[ "fontSize" := VUndefined ]})
  ≠ VUndefined.
Proof.
  apply (@resolved_options_defined Samples.browser TText
           {[ "fontSize" := VUndefined ]} "font" (VStr "sans-serif")).
  - vm_compute. reflexivity.
  - discriminate.
  - vm_compute. discriminate.
Defined.

(** C4, as stated, fails: an instance whose options set [fontSize] to
    [undefined] has [undefined] for that key of its defaults once the
    options are resolved, and so has the record that [Text.measure]
    merges for the measurement. *)
Lemma undefined_override_survives :
  is_Some (@Text.defaultOptions Samples.browser !! "fontSize")
  ∧ Js.get "fontSize"
      (Component_resolve (@Text.defaultOptions Samples.browser)
         {[ "fontSize" := VUndefined ]})
    = VUndefined
  ∧ Js.get "fontSize"
      (Text.options
         (@Text.new Samples.browser DUndefined None
            {[ "fontSize" := VUndefined ]}))
    = VUndefined
  ∧ @Text.measure Samples.browser (Text.Single "M")
      {[ "fontSize" := VUndefined ]} ∅
    = NotANumber.
Proof.
  split; [by eexists|]. repeat split; vm_compute; reflexivity.
Qed.

Section Merge.

Context `{Platform}.

(** A map none of whose values is an object. *)
Lemma spread_deepMerge (parent child : object) :
  map_Forall (λ _ v, ∀ props, v ≠ VObj props) child →
  Js.spread parent child = Spec.deepMerge parent child.
Proof.
  intros Hflat. apply map_eq. intros k.
  rewrite lookup_spread, lookup_deepMerge.
  destruct (parent !! k) as [p|], (child !! k) as [c|] eqn:Ec; try done.
  f_equal. pose proof (Hflat k c Ec) as Hc.
  destruct p, c; try done. by destruct (Hc props0).
Qed.

Lemma text_own_flat :
  map_Forall (λ _ v, ∀ props, v ≠ VObj props)
    ({[ "font" := VStr "sans-serif";
        "fontSize" := VNum (Num.int 20);
        "align" := Js.get "start" Text.alignments;
        "bold" := VBool false;
        "italic" := VBool false;
        "underscore" := VBool false;
        "lineHeight" := VNum 1%Qc ]} : object).
Proof.
  repeat (apply map_Forall_insert_2; [done|]).
  apply map_Forall_empty.
Qed.

Lemma layered_deepMerge :
  Spec.deepMerge Component_defaultOptions Input_defaultOptions
  = Input_defaultOptions →
  Js.spread Text.defaultOptions Input_defaultOptions
  = Spec.deepMerge Text.defaultOptions Input_defaultOptions.
Proof.
  intros Hinput. apply map_eq. intros k.
  rewrite lookup_spread, lookup_deepMerge.
  destruct (Text.defaultOptions !! k) as [p|] eqn:Ep,
    (Input_defaultOptions !! k) as [c|] eqn:Ec; try done.
  f_equal. unfold Text.defaultOptions in Ep. rewrite lookup_spread in Ep.
  match type of Ep with
  | context [?own !! k] => destruct (own !! k) as [v|] eqn:Eown
  end.
  - injection Ep as ->. pose proof (text_own_flat k p Eown) as Hp.
    destruct p, c; try done. by destruct (Hp props).
  - apply (f_equal (λ m : object, m !! k)) in Hinput.
    rewrite lookup_deepMerge, Ep, Ec in Hinput. by injection Hinput as ->.
Qed.

End Merge.

(** C5.  The default options of each class are those of its supertype
    merged with the keys of its own, as the specification has the merge:
    a key of the child overrides the key of the parent, two objects
    under one key are merged in the same way, and an array replaces
    what it overrides.  [Line] overrides the inherited [fill] and
    [cursor] with [null] and takes its [stroke] from the [fill] of its
    supertype; [Button] and [Select] layer the defaults of [Input] over
    those of [Text], then their own [value].  The options given to the
    constructor of a class are merged over the defaults of the class in
    the same way, so that the instance takes precedence over the class,
    and the class over its base.  This holds as long as the tables that the sources
    do not hold are what they are used for: the join [round] is no
    object, and the defaults of [Input] are themselves merged over
    those of [Component]. *)
Theorem defaults_are_merged `{Platform} :
  (∀ props, Js.get "round" Component_joins ≠ VObj props) →
  Spec.deepMerge Component_defaultOptions Input_defaultOptions
  = Input_defaultOptions →
  (Text.defaultOptions
   = Spec.deepMerge Component_defaultOptions
       {[ "font" := VStr "sans-serif";
          "fontSize" := VNum (Num.int 20);
          "align" := Js.get "start" Text.alignments;
          "bold" := VBool false;
          "italic" := VBool false;
          "underscore" := VBool false;
          "lineHeight" := VNum 1%Qc ]})
  ∧ (Line.defaultOptions
     = <[ "stroke" := Js.get "fill" Component_defaultOptions ]>
         (Spec.deepMerge Component_defaultOptions
            {[ "cap" := Js.get "round" Line.caps;
               "join" := Js.get "round" Line.joins;
               "fill" := VNull;
               "cursor" := VNull ]})
     ∧ Line.defaultOptions !! "fill" = Some VNull
     ∧ Line.defaultOptions !! "cursor" = Some VNull
     ∧ Line.defaultOptions !! "stroke"
       = Some (Js.get "fill" Component_defaultOptions))
  ∧ (Arc.defaultOptions
     = Spec.deepMerge Line.defaultOptions {[ "join" := VNull ]})
  ∧ (Sprite.defaultOptions
     = Spec.deepMerge Image_defaultOptions
         {[ "speed" := VNum 1%Qc; "loop" := VBool true ]})
  ∧ (Button.defaultOptions
     = Spec.deepMerge
         (Spec.deepMerge Text.defaultOptions Input_defaultOptions)
         {[ "value" := VStr "" ]})
  ∧ (Select.defaultOptions
     = Spec.deepMerge
         (Spec.deepMerge Text.defaultOptions Input_defaultOptions)
         {[ "value" := VNum 0%Qc ]})
  ∧ (∀ options : object,
        (∀ positionDefinition width height,
            Rectangle.options
              (Rectangle.new positionDefinition width height options)
            = Spec.deepMerge Component_defaultOptions options)
        ∧ (∀ positionDefinition points,
              Line.options (Line.new positionDefinition points options)
              = Spec.deepMerge Line.defaultOptions options)
        ∧ (∀ positionDefinition horizontalRadius verticalRadius startAngle
             endAngle,
              Arc.options
                (Arc.new positionDefinition horizontalRadius verticalRadius
                   startAngle endAngle options)
              = Spec.deepMerge Arc.defaultOptions options)
        ∧ (∀ positionDefinition text,
              Text.options (Text.new positionDefinition text options)
              = Spec.deepMerge Text.defaultOptions options)
        ∧ (∀ positionDefinition url frames,
              Sprite.options
                (Sprite.new positionDefinition url frames options)
              = Spec.deepMerge Sprite.defaultOptions options))
  ∧ (∀ (parent child : object) (k : string),
        Spec.deepMerge parent child !! k
        = match parent !! k, child !! k with
          | Some (VObj p), Some (VObj c) => Some (VObj (Spec.deepMerge p c))
          | _, Some c => Some c
          | inherited, None => inherited
          end).
Proof.
  intros Hjoin Hinput.
  split.
  { unfold Text.defaultOptions. apply spread_deepMerge, text_own_flat. }
  split.
  { split.
    - unfold Line.defaultOptions. f_equal. apply spread_deepMerge.
      repeat (apply map_Forall_insert_2; [done|]).
      apply map_Forall_empty.
    - unfold Line.defaultOptions. repeat split.
      + rewrite lookup_insert_ne by done. rewrite lookup_spread.
        by simplify_map_eq.
      + rewrite lookup_insert_ne by done. rewrite lookup_spread.
        by simplify_map_eq.
      + apply lookup_insert_eq. }
  split.
  { unfold Arc.defaultOptions. apply spread_deepMerge.
    apply map_Forall_insert_2; [done|]. apply map_Forall_empty. }
  split.
  { unfold Sprite.defaultOptions. apply spread_deepMerge.
    repeat (apply map_Forall_insert_2; [done|]). apply map_Forall_empty. }
  split.
  { unfold Button.defaultOptions. rewrite layered_deepMerge by done.
    apply spread_deepMerge. apply map_Forall_insert_2; [done|]. apply map_Forall_empty. }
  split.
  { unfold Select.defaultOptions. rewrite layered_deepMerge by done.
    apply spread_deepMerge. apply map_Forall_insert_2; [done|]. apply map_Forall_empty. }
  split; [intros options; by repeat split|].
  intros parent child k. rewrite lookup_deepMerge.
  destruct (parent !! k) as [p|], (child !! k) as [c|]; try done.
  - by destruct p, c.
  - by destruct p.
Qed.

Lemma defaults_are_merged_witness :
  @Button.defaultOptions Samples.shaded
  = Spec.deepMerge
      (Spec.deepMerge (@Text.defaultOptions Samples.shaded)
         (@Input_defaultOptions Samples.shaded))
      {[ "value" := VStr "" ]}
  ∧ Js.get "shadow" (@Button.defaultOptions Samples.shaded)
    = VObj {[ "blur" := VNum 0%Qc; "color" := VStr "#000" ]}
  ∧ Js.get "shadow"
      (Component_resolve (@Button.defaultOptions Samples.shaded)
         {[ "shadow" := VObj {[ "blur" := VNum (Num.int 5) ]} ]})
    = VObj {[ "blur" := VNum (Num.int 5); "color" := VStr "#000" ]}.
Proof.
  split; [|split; vm_compute; reflexivity].
  refine (proj1 (proj2 (proj2 (proj2 (proj2
            (@defaults_are_merged Samples.shaded _ _)))))).
  - intros props. vm_compute. discriminate.
  - vm_compute. reflexivity.
Defined.

Section SelectAssign.

Context `{Platform}.

Lemma index_nat {A : Type} (l : list A) (i : nat) :
  Js.index l (Num.int (Z.of_nat i)) = l !! i.
Proof.
  unfold Js.index, Num.floor, Num.int.
  assert (Qfloor (Qc_of_Z (Z.of_nat i)) = Z.of_nat i) as ->.
  { apply Qfloor_Z. }
  rewrite bool_decide_eq_true_2 by done.
  rewrite bool_decide_eq_true_2 by lia. simpl. by rewrite Nat2Z.id.
Qed.

Lemma index_fraction {A : Type} (l : list A) (v : Qc) :
  Num.int (Num.floor v) ≠ v → Js.index l v = None.
Proof.
  intros Hv. unfold Js.index. by rewrite bool_decide_eq_false_2.
Qed.

Lemma nat_in_range {A : Type} (l : list A) (i : nat) :
  (i < length l)%nat →
  (0 ≤ Num.int (Z.of_nat i) ≤ Num.int (Z.of_nat (length l)) - 1)%Qc.
Proof.
  intros Hi. unfold Num.int.
  rewrite <- Z2Qc_inj_1, <- Z2Qc_inj_sub, <- Z2Qc_inj_0.
  split; apply (proj1 (Z2Qc_inj_le _ _)); lia.
Qed.

Lemma height_nothrow (text : Text.t) : nothrow (Text.height text).
Proof.
  unfold Text.height, Text.getMeasures, Text.measure.
  apply nothrow_bind; [apply measureText_nothrow|].
  intros measures. apply nothrow_ret.
Qed.

Lemma height_completes (text : Text.t) (fs lh : Qc) :
  Js.to_number (Js.get "fontSize" (Text.options text)) = Some fs →
  Js.to_number (Js.get "lineHeight" (Text.options text)) = Some lh →
  completes (Text.height text).
Proof.
  intros Hfs Hlh. unfold Text.height, Text.getMeasures, Text.measure.
  apply completes_bind; [|intros; apply completes_ret].
  apply (measureText_completes _ _ fs lh).
  - rewrite get_spread. unfold Js.get in Hfs.
    destruct (Text.options text !! "fontSize"); [done|by simpl in Hfs].
  - rewrite get_spread. unfold Js.get in Hlh.
    destruct (Text.options text !! "lineHeight"); [done|by simpl in Hlh].
Qed.

(** The assignment of the index of an option, statement by statement. *)
Lemma set_value_index (this : Select.t) (index : nat) (chosen : Text.t)
    (cache : Cache) :
  Select.optionsList this !! index = Some chosen →
  let result := Select.set_value this (Num.int (Z.of_nat index)) cache in
  Select.value result.1 = Num.int (Z.of_nat index)
  ∧ Text.text (Select.display result.1) = Text.text chosen
  ∧ Select.optionsContainer_shown result.1 = false
  ∧ Select.position result.1 = Select.position this
  ∧ Select.options result.1 = Select.options this
  ∧ Select.optionsList result.1 = Select.optionsList this
  ∧ ¬ threw result.2
  ∧ (Forall (λ text, completes (Text.height text)) (Select.optionsList this) →
     ∃ cache', result.2 = Ok cache').
Proof.
  intros Hchosen. cbv zeta.
  pose proof (lookup_lt_Some _ _ _ Hchosen) as Hlt.
  unfold Select.set_value. cbv zeta.
  cbn [Math.constrain_number Select.with_selected Select.selected
       Select.optionsList].
  rewrite (constrain_id _ _ _ (nat_in_range _ _ Hlt)).
  destruct this as [position options selected display list shown place].
  cbn [Select.with_selected Select.selected Select.optionsList
       Select.with_display Select.with_container Select.display
       Select.optionsContainer_shown Select.optionsContainer_position
       Select.options Select.position] in *.
  rewrite index_nat, Hchosen.
  destruct list as [|first rest]; [by rewrite lookup_nil in Hchosen|].
  cbn [lookup list_lookup].
  assert (∀ shown, Text.text
            (Text.with_options
               (Text.set_text display (Text.Single (Text.text chosen)))
               shown)
          = Text.text chosen) as Htext.
  { intros o. unfold Text.text at 1.
    cbn [Text.with_options Text.set_text Text.lines].
    unfold Text.formatString. apply join_split. }
  match goal with
  | |- context [match ?place with Ok _ => _ | Throw _ => _
                                  | NotANumber => _ end] =>
      assert (∀ e, place ≠ Throw e) as Hno;
      [|assert (completes (Text.height first) →
                ∃ r, place = Ok r) as Hok;
        [|destruct place as [[place' cache']|e|] eqn:Eplace]]
  end.
  - apply nothrow_bind; [apply height_nothrow|].
    intros height. apply nothrow_bind; [apply height_nothrow|].
    intros h. apply nothrow_ret.
  - intros Hfirst.
    assert (completes (height ← Text.height first;
                       let margin := (height * Select.MARGIN)%Qc in
                       height ← Text.height first;
                       mret {| Position.x := 0%Qc;
                               Position.y :=
                                 (- Num.int (Z.of_nat index)
                                  * (height + 2 * margin))%Qc |})) as Hc.
    { apply completes_bind; [done|]. intros h.
      apply completes_bind; [done|]. intros h'. apply completes_ret. }
    destruct (Hc cache) as (r & c & E). exists (r, c). exact E.
  - cbn [fst snd Select.value Select.selected Select.display
         Select.optionsContainer_shown Select.position Select.options
         Select.optionsList].
    repeat (split; [first [done | apply Htext]|]).
    split; [by intros [e ?]|]. intros _. by eexists.
  - by destruct (Hno e).
  - cbn [fst snd Select.value Select.selected Select.display
         Select.optionsContainer_shown Select.position Select.options
         Select.optionsList].
    repeat (split; [first [done | apply Htext]|]).
    split; [by intros [e ?]|]. intros Hall.
    apply Forall_cons in Hall as [Hfirst _].
    by destruct (Hok Hfirst).
Qed.

End SelectAssign.

Section RoundTrip.

Context `{Platform}.

Lemma resolved_fixed (defaults options : object) :
  resolved defaults options → Component_resolve defaults options = options.
Proof. done. Qed.

(** The value of an input, written among resolved options, leaves them
    resolved. *)
Lemma resolved_value (defaults options : object) (d v : value) :
  resolved defaults options →
  defaults !! "value" = Some d → (∀ props, d ≠ VObj props) →
  Component_resolve defaults (<[ "value" := v ]> options)
  = <[ "value" := v ]> options.
Proof.
  intros Hr Hd Hflat. apply map_eq. intros k.
  unfold Component_resolve. rewrite lookup_deepMerge.
  destruct (decide (k = "value")) as [->|Hk].
  - rewrite Hd, lookup_insert_eq. f_equal.
    destruct d; try done. by destruct (Hflat props).
  - rewrite lookup_insert_ne by done.
    apply (f_equal (λ m : object, m !! k)) in Hr.
    unfold Component_resolve in Hr. by rewrite lookup_deepMerge in Hr.
Qed.

Lemma select_default_value :
  Select.defaultOptions !! "value" = Some (VNum 0%Qc).
Proof.
  unfold Select.defaultOptions, Js.spread. apply lookup_union_Some_l.
  by simplify_map_eq.
Qed.

Lemma position_round (p : Position.t) :
  Position_from (DArray [DNumber (Position.x p); DNumber (Position.y p)]) = p.
Proof. by destruct p. Qed.

Lemma points_round (points : list Position.t) :
  map (λ point, Position_from point) (map DPosition points) = points.
Proof.
  rewrite map_map. rewrite <- (map_id points) at 2. by apply map_ext.
Qed.

Lemma rectangle_round (r : Rectangle.t) :
  resolved Component_defaultOptions (Rectangle.options r) →
  Rectangle_from (Rectangle_toJSON r) = r.
Proof.
  intros Hr.
  unfold Rectangle_from, Rectangle_toJSON, Rectangle.new, Component_toJSON.
  cbn [Json.position Json.options Json.width Json.height].
  rewrite position_round, resolved_fixed by done. by destruct r.
Qed.

Lemma line_round (l : Line.t) :
  resolved Line.defaultOptions (Line.options l) →
  Line.points l ≠ [] →
  Line_from (Line_toJSON l) = Ok l.
Proof.
  intros Hr Hp.
  unfold Line_from, Line_toJSON, Line.new, Component_toJSON.
  cbn [Json.position Json.options Json.points].
  rewrite position_round, resolved_fixed by done.
  destruct l as [p o points]. simpl in *.
  destruct points as [|point points]; [done|]. simpl.
  by rewrite points_round.
Qed.

Lemma arc_round (a : Arc.t) :
  resolved Arc.defaultOptions (Arc.options a) →
  Arc_from (Arc_toJSON a) = a.
Proof.
  intros Hr.
  unfold Arc_from, Arc_toJSON, Arc.new, Component_toJSON.
  cbn [Json.position Json.options Json.horizontalRadius Json.verticalRadius
       Json.startAngle Json.endAngle].
  rewrite position_round, resolved_fixed by done. by destruct a.
Qed.

Lemma text_round (t : Text.t) :
  resolved Text.defaultOptions (Text.options t) →
  kept (AText t) (AText (Text_from (Text_toJSON t)))
  ∧ afresh (AText (Text_from (Text_toJSON t))).
Proof.
  intros Hr. unfold Text_from, Text_toJSON, Text.new, Component_toJSON.
  cbn [Json.position Json.options Json.text].
  rewrite position_round, resolved_fixed by done.
  repeat split. symmetry. apply join_split.
Qed.

Lemma sprite_round (s : Sprite.t) :
  resolved Sprite.defaultOptions (Sprite.options s) →
  (0 ≤ Sprite.frame s
   < Num.int (Z.of_nat (length (Sprite.frames s))))%Qc →
  ∃ s', Sprite_from (Sprite_toJSON s) = Ok s'
        ∧ kept (ASprite s) (ASprite s')
        ∧ afresh (ASprite s').
Proof.
  intros Hr Hframe.
  unfold Sprite_from, Sprite_toJSON, Image_toJSON, Component_toJSON.
  cbn [Json.position Json.options Json.frames Json.frame Json.isPaused
       Json.url].
  unfold Sprite.setFrame, Sprite.new.
  rewrite position_round, resolved_fixed by done.
  simpl. rewrite modulo_small by done.
  destruct (Sprite.isPaused s) eqn:Hp; simpl; eexists; split; try done;
    simpl; by rewrite ?Hp.
Qed.

Lemma new_Ok_state (positionDefinition : PositionDefinition)
    (optionsList : list string) (options : object)
    (cache cache' : Cache) (this : Select.t) :
  Select.new positionDefinition optionsList options cache
  = Ok (this, cache') →
  Select.position this = Position_from positionDefinition
  ∧ Select.options this = Component_resolve Select.defaultOptions options
  ∧ Select.optionsContainer_shown this = false
  ∧ Text.text (Select.display this) = ""
  ∧ Forall (λ text,
              Js.get "fontSize" (Text.options text)
              = Js.get "fontSize"
                  (Component_resolve Select.defaultOptions options)
              ∧ Js.get "lineHeight" (Text.options text)
                = Js.get "lineHeight"
                    (Component_resolve Select.defaultOptions options))
      (Select.optionsList this).
Proof.
  unfold Select.new. case_bool_decide as Hlen; [done|].
  set (o := Component_resolve Select.defaultOptions options).
  rewrite M_bind_unfold.
  destruct (Text.measure _ _ cache) as [[measures c1]| |]; [|done..].
  rewrite M_bind_unfold.
  destruct (mapM (M:=M) Text.width _ c1) as [[widths c2]| |]; [|done..].
  rewrite M_bind_unfold.
  destruct (Select.maximum widths c2) as [[maxWidth c3]| |]; [|done..].
  intros [= <- _]. cbn [Select.position Select.options Select.display
                        Select.optionsContainer_shown Select.optionsList].
  split; [done|]. split; [done|]. split; [done|].
  split; [apply new_text_text|].
  apply Forall_forall. intros text Hin.
  apply list_elem_of_fmap in Hin as (inner & -> & Hin).
  apply list_elem_of_fmap in Hin as (line & -> & _).
  unfold Text.new, Component_resolve.
  cbn [Text.with_options Text.options]. unfold Js.get at 1 3.
  rewrite !lookup_insert_ne by done.
  unfold Text.set_text. cbn [Text.options]. rewrite !lookup_deepMerge.
  by rewrite textOptions_fontSize, text_default_fontSize,
       textOptions_lineHeight, text_default_lineHeight.
Qed.

Lemma select_round (s : Select.t) (cache : Cache) :
  valid_shape (ASelect s) →
  ∃ s' cache', Select_from (Select_toJSON s) cache = Ok (s', cache')
               ∧ kept (ASelect s) (ASelect s')
               ∧ afresh (ASelect s')
               ∧ reselected false (ASelect s) (ASelect s')
               ∧ measurable (Node (ASelect s') []).
Proof.
  intros (Hr & Hne & [fs Hfs] & [lh Hlh]).
  unfold Select_from, Select_toJSON, Input_toJSON, Component_toJSON.
  cbn [Json.position Json.options Json.values].
  assert (map Text.text (Select.optionsList s) ≠ []) as Hne'
    by (by destruct (Select.optionsList s)).
  set (value := number_toJSON (Select.value s)).
  pose proof (resolved_value _ _ _ value Hr select_default_value
                ltac:(done)) as Hvalue.
  destruct (new_completes
              (DArray [DNumber (Position.x (Select.position s));
                       DNumber (Position.y (Select.position s))])
              (map Text.text (Select.optionsList s))
              (<[ "value" := value ]> (Select.options s))
              fs lh Hne') with (cache := cache) as (s' & cache' & E).
  - rewrite Hvalue. unfold Js.get. by rewrite lookup_insert_ne.
  - rewrite Hvalue. unfold Js.get. by rewrite lookup_insert_ne.
  - exists s', cache'. split; [done|].
    destruct (new_Ok_inv _ _ _ _ _ _ E) as (_ & Hsel & Hmap).
    destruct (new_Ok_state _ _ _ _ _ _ E)
      as (Hpos & Hopt & Hshown & Hdisplay & Htexts).
    rewrite position_round in Hpos. rewrite Hvalue in Hopt, Htexts.
    split; [|split; [done|split]].
    + cbn [kept]. rewrite Hopt.
      split; [done|]. split; [by rewrite delete_insert_eq|].
      split; [apply lookup_insert_eq|done].
    + cbn [reselected]. unfold Select.value. by rewrite Hsel.
    + cbn [measurable]. eapply Forall_impl; [exact Htexts|].
      intros text [Hf Hl]. apply (height_completes text fs lh).
      * rewrite Hf. unfold Js.get. by rewrite lookup_insert_ne.
      * rewrite Hl. unfold Js.get. by rewrite lookup_insert_ne.
Qed.

Lemma Tree_induction (P : Tree → Prop) :
  (∀ shape children, Forall P children → P (Node shape children)) →
  ∀ tree, P tree.
Proof.
  intros Hnode. fix IH 1. intros [shape children]. apply Hnode.
  induction children as [|child children IHc]; constructor; [apply IH|done].
Qed.

Lemma shape_round (shape : Shape) (cache : Cache) :
  valid_shape shape →
  ∃ (f : Json.t → M Shape) shape' cache',
    registry !! Json.type (Shape_toJSON shape) = Some f
    ∧ f (Shape_toJSON shape) cache = Ok (shape', cache')
    ∧ kept shape shape'
    ∧ afresh shape'
    ∧ reselected false shape shape'
    ∧ measurable (Node shape' []).
Proof.
  intros Hv. destruct shape as [r|l|a|t|s|s]; simpl in Hv.
  - eexists _, _, _. split; [by unfold registry; simplify_map_eq|].
    cbn beta. cbn [Shape_toJSON]. rewrite rectangle_round by done.
    by repeat split.
  - destruct Hv as [Hr Hp].
    eexists _, _, _. split; [by unfold registry; simplify_map_eq|].
    cbn beta. cbn [Shape_toJSON]. unfold lift.
    rewrite line_round by done.
    by repeat split.
  - eexists _, _, _. split; [by unfold registry; simplify_map_eq|].
    cbn beta. cbn [Shape_toJSON]. rewrite arc_round by done.
    by repeat split.
  - destruct (text_round t Hv) as [Hk Hf].
    eexists _, _, _. split; [by unfold registry; simplify_map_eq|].
    cbn beta. cbn [Shape_toJSON].
    split; [done|]. split; [exact Hk|]. split; [exact Hf|]. by split.
  - destruct Hv as [Hr Hf].
    destruct (sprite_round s Hr Hf) as (s' & E & Hk & Ha).
    eexists _, _, _. split; [by unfold registry; simplify_map_eq|].
    cbn beta. cbn [Shape_toJSON]. unfold lift. rewrite E.
    split; [done|]. split; [exact Hk|]. split; [exact Ha|]. by split.
  - destruct (select_round s cache Hv)
      as (s' & cache' & E & Hk & Ha & Hs & Hm).
    eexists _, _, _. split; [by unfold registry; simplify_map_eq|].
    cbn beta. cbn [Shape_toJSON]. rewrite M_bind_unfold, E.
    split; [done|]. split; [exact Hk|]. split; [exact Ha|]. by split.
Qed.

Lemma from_node (definition : Json.t) (children : list JsonTree) :
  from (JsonNode definition children)
  = match registry !! Json.type definition with
    | None => λ _, Throw (UnknownTypeError (Json.type definition))
    | Some from_definition =>
        shape ← from_definition definition;
        children ← mapM from children;
        children ← mapM attach children;
        mret (Node shape children)
    end.
Proof. done. Qed.

(** A restored select, attached to its parent, takes the value that the
    snapshot holds. *)
Lemma attach_round (a b : Tree) (cache : Cache) :
  attached a → restored false a b → measurable b →
  ∃ b' cache', attach b cache = Ok (b', cache') ∧ restored true a b'.
Proof.
  intros Ha Hr Hm.
  inversion Hr as [below sa sb cs cs' Hk Hf Hs Hcs]; subst.
  destruct sa as [r|l|arc|t|s|s], sb as [r'|l'|arc'|t'|s'|s']; try done;
    try (eexists _, _; split; [reflexivity|]; by constructor).
  destruct Hk as (Hpos & Hopt & Hvalue & Htexts).
  destruct Ha as (index & chosen & Hindex & Hchosen & Hshown).
  assert (∃ chosen', Select.optionsList s' !! index = Some chosen'
                     ∧ Text.text chosen' = Text.text chosen)
    as (chosen' & Hchosen' & Htext).
  { apply (f_equal (λ l : list string, l !! index)) in Htexts.
    change (map Text.text ?l) with (Text.text <$> l) in Htexts.
    rewrite !list_lookup_fmap, Hchosen in Htexts.
    destruct (Select.optionsList s' !! index) as [chosen'|]; [|done].
    exists chosen'. split; [done|]. simpl in Htexts. congruence. }
  destruct (set_value_index s' index chosen' cache Hchosen')
    as (H1 & H2 & H3 & H4 & H5 & H6 & _ & H8).
  destruct (H8 Hm) as [cache' Hcache].
  exists (Node (ASelect (Select.set_value s' (Num.int (Z.of_nat index))
                           cache).1) cs'), cache'.
  split.
  - cbn [attach]. rewrite M_bind_unfold. unfold Input_attach.
    unfold Js.get. rewrite Hvalue, Hindex.
    change (Js.to_number (default VUndefined (Some (number_toJSON ?n))))
      with (Js.to_number (number_toJSON n)).
    cbn [number_toJSON Js.to_number]. by rewrite Hcache.
  - constructor; [|done| |done].
    + cbn [kept]. by rewrite H4, H5, H6.
    + cbn [reselected]. rewrite H1, H2, Hindex. split; [done|]. congruence.
Qed.

Lemma children_round (children : list Tree) :
  Forall (λ tree, valid tree →
                  ∀ cache, ∃ tree' cache',
                    from (toJSON tree) cache = Ok (tree', cache')
                    ∧ restored false tree tree'
                    ∧ measurable tree') children →
  Forall valid children →
  ∀ cache, ∃ children' cache',
    mapM from (map toJSON children) cache = Ok (children', cache')
    ∧ Forall2 (λ a b, restored false a b ∧ measurable b) children children'.
Proof.
  induction 1 as [|child children Hchild _ IH]; intros Hvalid cache.
  - exists [], cache. by split; [|constructor].
  - apply Forall_cons in Hvalid as [Hv Hvs].
    destruct (Hchild Hv cache) as (child' & c1 & E1 & R1 & M1).
    destruct (IH Hvs c1) as (children' & c2 & E2 & R2).
    exists (child' :: children'), c2. split; [|by constructor].
    simpl. rewrite M_bind_unfold, E1, M_bind_unfold, E2. done.
Qed.

Lemma children_attach (children children' : list Tree) :
  Forall2 (λ a b, restored false a b ∧ measurable b) children children' →
  Forall attached children →
  ∀ cache, ∃ children'' cache',
    mapM attach children' cache = Ok (children'', cache')
    ∧ Forall2 (restored true) children children''.
Proof.
  induction 1 as [|a b children children' [Hr Hm] _ IH];
    intros Hattached cache.
  - exists [], cache. by split; [|constructor].
  - apply Forall_cons in Hattached as [Ha Has].
    destruct (attach_round a b cache Ha Hr Hm) as (b' & c1 & E1 & R1).
    destruct (IH Has c1) as (children'' & c2 & E2 & R2).
    exists (b' :: children''), c2. split; [|by constructor].
    simpl. rewrite M_bind_unfold, E1, M_bind_unfold, E2. done.
Qed.

Lemma from_round (tree : Tree) :
  valid tree →
  ∀ cache, ∃ tree' cache',
    from (toJSON tree) cache = Ok (tree', cache')
    ∧ restored false tree tree'
    ∧ measurable tree'.
Proof.
  induction tree as [shape children IH] using Tree_induction.
  intros Hvalid cache. inversion Hvalid as [? ? Hs Hcs Has]; subst.
  destruct (shape_round shape cache Hs)
    as (f & shape' & c1 & Hf & E1 & Hk & Ha & Hsel & Hm).
  destruct (children_round children IH Hcs c1)
    as (children' & c2 & E2 & R2).
  destruct (children_attach children children' R2 Has c2)
    as (children'' & c3 & E3 & R3).
  exists (Node shape' children''), c3. split; [|split; [by constructor|]].
  - change (toJSON (Node shape children))
      with (JsonNode (Shape_toJSON shape) (map toJSON children)).
    rewrite from_node, Hf, M_bind_unfold, E1, M_bind_unfold, E2.
    by rewrite M_bind_unfold, E3.
  - by destruct shape'.
Qed.

End RoundTrip.

(** C1, as the code has it.  For every valid tree of rectangles, lines,
    arcs, texts, sprites and selects, [from(toJSON(T))] completes with a
    tree of the same shapes in the same order, each with the type,
    position, options and fields of its original: width and height,
    points, radii and angles, text, frames with frame number and pause,
    option values.  A select below a parent comes back with the value it
    had, which the snapshot holds as the option [value], and with the
    text of that option on display.  The select at the root of the tree
    is attached to nothing: it comes back with its first option selected
    and nothing on display.  What no snapshot holds starts afresh: the
    path of a text, the load and the size of a sprite, the open list of
    a select. *)
Theorem round_trip_restores `{Platform} (tree : Tree) (cache : Cache) :
  valid tree →
  ∃ (tree' : Tree) (cache' : Cache),
    from (toJSON tree) cache = Ok (tree', cache')
    ∧ restored false tree tree'.
Proof.
  intros Hvalid.
  destruct (from_round tree Hvalid cache) as (tree' & cache' & E & R & _).
  by exists tree', cache'.
Qed.

Lemma chosen_valid : @valid Samples.browser (Node (ASelect Samples.chosen) []).
Proof.
  constructor; [|constructor..]. cbn [valid_shape]. split; [|split; [|split]].
  - vm_compute. reflexivity.
  - vm_compute. discriminate.
  - vm_compute. by eexists.
  - vm_compute. by eexists.
Qed.

Lemma scene_valid : @valid Samples.browser Samples.scene.
Proof.
  constructor.
  - vm_compute. reflexivity.
  - constructor; [exact chosen_valid|]. constructor; [|constructor].
    constructor; [|constructor..]. split.
    + vm_compute. reflexivity.
    + vm_compute. discriminate.
  - constructor; [|by repeat constructor].
    exists 2%nat. eexists. split; [vm_compute; reflexivity|].
    split; vm_compute; reflexivity.
Qed.

Lemma round_trip_restores_witness :
  ∃ (tree' : Tree) (cache' : Cache),
    @from Samples.browser (toJSON Samples.scene) ∅ = Ok (tree', cache')
    ∧ restored false Samples.scene tree'.
Proof.
  apply (@round_trip_restores Samples.browser Samples.scene ∅).
  exact scene_valid.
Defined.

(** C1, as stated, fails for the selected value of a select that is the
    root of the tree: its third option selected, it comes back from
    [from(toJSON(T))] with its first option selected and nothing on
    display, although the snapshot holds the value.  Nor are the options
    identical: the option [value], which the select had left at its
    default, comes back as the value that was selected. *)
Lemma selected_value_lost :
  let tree := Node (ASelect Samples.chosen) [] in
  @valid Samples.browser tree
  ∧ Select.value Samples.chosen = Num.int 2
  ∧ Text.text (Select.display Samples.chosen) = "three"
  ∧ Js.get "value" (Select.options Samples.chosen) = VNum 0%Qc
  ∧ ∃ (select : Select.t) (cache' : Cache),
      @from Samples.browser (toJSON tree) ∅
      = Ok (Node (ASelect select) [], cache')
      ∧ Js.get "value" (Select.options select) = VNum (Num.int 2)
      ∧ Select.value select = 0%Qc
      ∧ Text.text (Select.display select) = ""
      ∧ Select.value select ≠ Select.value Samples.chosen.
Proof.
  intros tree. subst tree. split; [exact chosen_valid|].
  split; [vm_compute; reflexivity|].
  split; [vm_compute; reflexivity|].
  split; [vm_compute; reflexivity|].
  eexists _, _. split; [vm_compute; reflexivity|].
  split; [vm_compute; reflexivity|].
  split; [vm_compute; reflexivity|].
  split; [vm_compute; reflexivity|].
  vm_compute. discriminate.
Qed.

(** * Further properties *)

Section TextFormat.

Lemma split_cons (c : Ascii.ascii) (s : string) :
  Js.split Js.newline (String c s)
  = if bool_decide (c = Js.newline) then "" :: Js.split Js.newline s
    else match Js.split Js.newline s with
         | line :: lines => String c line :: lines
         | [] => [String c ""]
         end.
Proof. done. Qed.

Lemma split_lines_free (s line : string) :
  line ∈ Js.split Js.newline s → Js.split Js.newline line = [line].
Proof.
  revert line. induction s as [|c s IH]; intros line.
  - simpl. intros ->%list_elem_of_singleton. done.
  - rewrite split_cons. case_bool_decide as Hc.
    + intros [->|Hin]%elem_of_cons; [done|]. by apply IH.
    + pose proof (split_not_nil Js.newline s) as Hne.
      destruct (Js.split Js.newline s) as [|l ls] eqn:E; [done|].
      intros [->|Hin]%elem_of_cons.
      * rewrite split_cons, bool_decide_eq_false_2 by done.
        rewrite (IH l) by left. done.
      * apply IH. by right.
Qed.

Lemma format_multi_concat (array : list string) :
  Text.formatString (Text.Multi array)
  = concat (map (Js.split Js.newline) array).
Proof.
  unfold Text.formatString.
  induction array as [|s array IH]; [done|].
  simpl. by rewrite fold_split_acc, IH.
Qed.

Lemma format_lines_free (text : Text.TextDefinition) (line : string) :
  line ∈ Text.formatString text → Js.split Js.newline line = [line].
Proof.
  destruct text as [s|array].
  - apply split_lines_free.
  - rewrite format_multi_concat.
    induction array as [|s array IH]; simpl.
    + by intros ?%elem_of_nil.
    + intros [Hin|Hin]%elem_of_app; [|by apply IH].
      by eapply split_lines_free.
Qed.

Lemma concat_singletons (lines : list string) :
  Forall (λ line, Js.split Js.newline line = [line]) lines →
  concat (map (Js.split Js.newline) lines) = lines.
Proof.
  induction 1 as [|line lines Hline _ IH]; [done|].
  simpl. by rewrite Hline, IH.
Qed.

(** X1. The lines that [formatString] returns hold no newline: formatting
    them again, one by one or as an array, gives them back unchanged. *)
Theorem formatString_idempotent (text : Text.TextDefinition) :
  (∀ line, line ∈ Text.formatString text →
           Text.formatString (Text.Single line) = [line])
  ∧ Text.formatString (Text.Multi (Text.formatString text))
    = Text.formatString text.
Proof.
  split.
  - intros line Hin. by eapply format_lines_free.
  - rewrite format_multi_concat. apply concat_singletons.
    apply Forall_forall. intros line Hin. by eapply format_lines_free.
Qed.

(** The number of newlines of a string. *)
Lemma split_length (s : string) :
  length (Js.split Js.newline s)
  = S (count_occ Ascii.ascii_dec (String.list_ascii_of_string s) Js.newline).
Proof.
  induction s as [|c s IH]; [done|].
  rewrite split_cons.
  change (String.list_ascii_of_string (String c s))
    with (c :: String.list_ascii_of_string s).
  case_bool_decide as Hc.
  - subst c. rewrite count_occ_cons_eq by done. simpl. by rewrite IH.
  - rewrite count_occ_cons_neq by done. rewrite <- IH.
    pose proof (split_not_nil Js.newline s) as Hne.
    by destruct (Js.split Js.newline s).
Qed.

(** X2. A string is cut into one line more than it has newlines, so that
    the empty string is one empty line; the lines of an array are those
    of its items, in order, so that the empty array has no line at all. *)
Theorem formatString_lines :
  (∀ s : string,
      length (Text.formatString (Text.Single s))
      = S (count_occ Ascii.ascii_dec (String.list_ascii_of_string s) Js.newline))
  ∧ (∀ a b : list string,
      Text.formatString (Text.Multi (a ++ b))
      = Text.formatString (Text.Multi a) ++ Text.formatString (Text.Multi b))
  ∧ (∀ s : string,
      Text.formatString (Text.Multi [s]) = Text.formatString (Text.Single s))
  ∧ Text.formatString (Text.Multi []) = []
  ∧ Text.formatString (Text.Single "") = [""].
Proof.
  split; [|split; [|split; [|split]]]; [| | |done..].
  - intros s. apply split_length.
  - intros a b. rewrite !format_multi_concat.
    by rewrite map_app, concat_app.
  - intros s. rewrite format_multi_concat. simpl. apply app_nil_r.
Qed.

Lemma split_app_free (a rest : string) :
  Js.split Js.newline a = [a] →
  Js.split Js.newline (a +:+ String Js.newline rest)
  = a :: Js.split Js.newline rest.
Proof.
  induction a as [|c a IH].
  - intros _. change ("" +:+ String Js.newline rest)
      with (String Js.newline rest).
    rewrite split_cons. by rewrite bool_decide_eq_true_2.
  - rewrite split_cons.
    change (String c a +:+ String Js.newline rest)
      with (String c (a +:+ String Js.newline rest)).
    rewrite (split_cons c (a +:+ _)).
    case_bool_decide as Hc; [done|].
    pose proof (split_not_nil Js.newline a) as Hne.
    destruct (Js.split Js.newline a) as [|l ls] eqn:E; [done|].
    intros [= -> ->]. by rewrite IH.
Qed.

Lemma split_join (lines : list string) :
  lines ≠ [] →
  Forall (λ line, Js.split Js.newline line = [line]) lines →
  Js.split Js.newline (Js.join Text.separator lines) = lines.
Proof.
  intros Hne Hfree. induction Hfree as [|line lines Hline Hfree IH]; [done|].
  destruct lines as [|next lines]; [done|].
  rewrite join_cons_cons.
  change (Text.separator +:+ Js.join Text.separator (next :: lines))
    with (String Js.newline (Js.join Text.separator (next :: lines))).
  rewrite split_app_free by done. by rewrite IH.
Qed.

(** X3. Assigning to a text what its getter returns keeps its lines,
    whenever it has a line: the lines joined by the getter are cut at the
    same places by the setter. *)
Theorem text_getter_setter (t : Text.t) (text : Text.TextDefinition) :
  Text.formatString text ≠ [] →
  let t' := Text.set_text t text in
  Text.lines (Text.set_text t' (Text.Single (Text.text t'))) = Text.lines t'.
Proof.
  intros Hne t'. unfold Text.set_text, Text.text. simpl.
  apply split_join; [done|].
  apply Forall_forall. intros line Hin. by eapply format_lines_free.
Qed.

Lemma text_getter_setter_witness :
  Text.formatString (Text.Multi ["a"; "b"]) ≠ []
  ∧ Text.lines
      (Text.set_text
         (Text.set_text Samples.caption (Text.Multi ["a"; "b"]))
         (Text.Single
            (Text.text
               (Text.set_text Samples.caption (Text.Multi ["a"; "b"])))))
    = Text.lines (Text.set_text Samples.caption (Text.Multi ["a"; "b"])).
Proof.
  split; [done|].
  apply (text_getter_setter Samples.caption (Text.Multi ["a"; "b"])). done.
Defined.

End TextFormat.

Section TextMeasure.
Context `{Platform}.

Lemma measureText_grows (text : string) (options : object)
    (cache cache' : Cache) (measures : Measures.t) :
  Text.measureText text options cache = Ok (measures, cache') →
  cache ⊆ cache'.
Proof.
  unfold Text.measureText.
  destruct (cache !! hash text options) as [m|] eqn:E.
  - by intros [= <- <-].
  - destruct (number_of (Js.get "fontSize" options)); [|done..]. simpl.
    destruct (number_of (Js.get "lineHeight" options)); [|done..]. simpl.
    intros [= <- <-]. by apply insert_subseteq.
Qed.

(** X4. What [Text.measure] has returned for a text and its options
    once, it returns again after any other measurement, and then it
    leaves the cache as it is: an entry of the cache is never replaced. *)
Theorem measure_stable (text other : Text.TextDefinition)
    (options options' : object) (cache cache1 cache2 : Cache)
    (measures measures' : Measures.t) :
  Text.measure text options cache = Ok (measures, cache1) →
  Text.measure other options' cache1 = Ok (measures', cache2) →
  Text.measure text options cache2 = Ok (measures, cache2).
Proof.
  unfold Text.measure. intros H1 H2.
  apply measureText_cached in H1. apply measureText_grows in H2.
  apply measureText_hit. by eapply lookup_weaken.
Qed.

(** X5. The cache of [measureText] is keyed by the hash alone: a text
    whose key collides with the key of a text measured before is given
    the measures of that text, whatever its own lines and options. *)
Theorem measureText_collision (text text' : string) (options options' : object)
    (cache cache' : Cache) (measures : Measures.t) :
  hash text options = hash text' options' →
  Text.measureText text options cache = Ok (measures, cache') →
  Text.measureText text' options' cache' = Ok (measures, cache').
Proof.
  intros Hkey H1. apply measureText_cached in H1.
  apply measureText_hit. by rewrite <- Hkey.
Qed.

Lemma fold_max_ge (f : string → Qc) (lines : list string) (start : Qc) :
  (start ≤ fold_left (λ max line, Num.max max (f line)) lines start)%Qc
  ∧ ∀ line, line ∈ lines →
      (f line ≤ fold_left (λ max line, Num.max max (f line)) lines start)%Qc.
Proof.
  revert start. induction lines as [|l lines IH]; intros start; simpl.
  - split; [apply Qcle_refl|]. by intros line ?%elem_of_nil.
  - destruct (IH (Num.max start (f l))) as [IH1 IH2].
    assert (start ≤ Num.max start (f l) ∧ f l ≤ Num.max start (f l))%Qc
      as [Ha Hb].
    { unfold Num.max. destruct (Num.ltb start (f l)) eqn:E.
      - apply ltb_true in E. split; [by apply Qclt_le_weak|apply Qcle_refl].
      - apply ltb_false in E. split; [apply Qcle_refl|done]. }
    split; [by eapply Qcle_trans|].
    intros line [->|Hin]%elem_of_cons; [by eapply Qcle_trans|by apply IH2].
Qed.

Lemma fold_max_in (f : string → Qc) (lines : list string) (start : Qc) :
  fold_left (λ max line, Num.max max (f line)) lines start = start
  ∨ ∃ line, line ∈ lines
      ∧ fold_left (λ max line, Num.max max (f line)) lines start = f line.
Proof.
  revert start. induction lines as [|l lines IH]; intros start; simpl.
  - by left.
  - destruct (IH (Num.max start (f l))) as [IH1|(line & Hin & IH2)].
    + rewrite IH1. unfold Num.max. destruct (Num.ltb start (f l)).
      * right. exists l. split; [left|done].
      * by left.
    + right. exists line. split; [by right|done].
Qed.

(** X6. A fresh measurement, one that the cache does not answer, gives
    the width of the widest line, never less than zero, and a height of
    [fontSize * lineHeight] for every line. *)
Theorem measureText_fresh (text : string) (options : object)
    (cache cache' : Cache) (measures : Measures.t) :
  cache !! hash text options = None →
  Text.measureText text options cache = Ok (measures, cache') →
  let lines := Text.formatString (Text.Single text) in
  (0 ≤ Measures.width measures)%Qc
  ∧ (∀ line, line ∈ lines →
       (canvas_measureText options line ≤ Measures.width measures)%Qc)
  ∧ (Measures.width measures = 0%Qc
     ∨ ∃ line, line ∈ lines
         ∧ Measures.width measures = canvas_measureText options line)
  ∧ (∃ fontSize lineHeight,
       Js.to_number (Js.get "fontSize" options) = Some fontSize
       ∧ Js.to_number (Js.get "lineHeight" options) = Some lineHeight
       ∧ Measures.height measures
         = (fontSize * lineHeight * Num.int (Z.of_nat (length lines)))%Qc)
  ∧ cache' = <[ hash text options := measures ]> cache.
Proof.
  intros Hmiss. unfold Text.measureText. rewrite Hmiss.
  unfold number_of.
  destruct (Js.to_number (Js.get "fontSize" options)) as [fs|]; [|done].
  simpl.
  destruct (Js.to_number (Js.get "lineHeight" options)) as [lh|]; [|done].
  simpl. intros [= <- <-]. simpl.
  pose proof (fold_max_ge (canvas_measureText options)
                (Js.split Js.newline text) 0%Qc) as [Hge Hall].
  split; [done|]. split; [done|]. split; [apply fold_max_in|].
  split; [|done]. by exists fs, lh.
Qed.

End TextMeasure.

Lemma measure_stable_witness :
  ∃ (measures : Measures.t) (cache2 : Cache),
    @Text.measure Samples.browser (Text.Single "ab") ∅ cache2
    = Ok (measures, cache2)
    ∧ cache2 !! 3%N ≠ None.
Proof.
  eexists _, _. split.
  - eapply (@measure_stable Samples.browser (Text.Single "ab")
              (Text.Single "abc") ∅ ∅ ∅); vm_compute; reflexivity.
  - vm_compute. discriminate.
Defined.

Lemma measureText_collision_witness :
  ∃ (measures : Measures.t) (cache' : Cache),
    @Text.measureText Samples.browser "ab"
      (@Text.defaultOptions Samples.browser) ∅
    = Ok (measures, cache')
    ∧ @Text.measureText Samples.browser "w"
        (Js.spread (@Text.defaultOptions Samples.browser)
           {[ "fontSize" := VNum (Num.int 40) ]}) cache'
      ≠ Ok (measures, cache')
    ∧ @Text.measureText Samples.browser "cd"
        (Js.spread (@Text.defaultOptions Samples.browser)
           {[ "fontSize" := VNum (Num.int 40) ]}) cache'
      = Ok (measures, cache').
Proof.
  eexists _, _. split; [vm_compute; reflexivity|]. split.
  - vm_compute. discriminate.
  - apply (@measureText_collision Samples.browser "ab" "cd"
             (@Text.defaultOptions Samples.browser) _ ∅);
      vm_compute; reflexivity.
Defined.

Lemma measureText_fresh_witness :
  ∃ (measures : Measures.t) (cache' : Cache),
    @Text.measureText Samples.browser
      (String.append "Hello" (String Js.newline "you"))
      (@Text.defaultOptions Samples.browser) ∅
    = Ok (measures, cache')
    ∧ (0 ≤ Measures.width measures)%Qc
    ∧ (∀ line, line ∈ ["Hello"; "you"] →
         (@canvas_measureText Samples.browser
            (@Text.defaultOptions Samples.browser) line
          ≤ Measures.width measures)%Qc).
Proof.
  eexists _, _. split; [vm_compute; reflexivity|].
  edestruct (@measureText_fresh Samples.browser
               (String.append "Hello" (String Js.newline "you"))
               (@Text.defaultOptions Samples.browser) ∅)
    as (Hwidth & Hlines & _);
    [vm_compute; reflexivity..|].
  split; [exact Hwidth|exact Hlines].
Defined.

Section TextAlign.

Lemma strict_eq_str (a b : string) :
  Js.strict_eq (VStr a) (VStr b) = bool_decide (a = b).
Proof. done. Qed.

Lemma align_of (t : Text.t) (align : string) :
  Js.get "align" (Text.options (aligned t align)) = VStr align.
Proof. unfold aligned, Js.get. simpl. by rewrite lookup_insert_eq. Qed.

(** X7. The offset of the alignment is [0], [1/2] or [1].  Under a scene
    whose text runs left to right or right to left, [start] and [end] are
    mirror images, their offsets adding up to [1]; without a scene at the
    root both are [0], like [left]. *)
Theorem align_offset_mirror (t : Text.t) (rootDirection : option string) :
  (Text.getAlignOffset t rootDirection = 0%Qc
   ∨ Text.getAlignOffset t rootDirection = Num.frac 1 2
   ∨ Text.getAlignOffset t rootDirection = 1%Qc)
  ∧ (∀ dir, dir = "ltr" ∨ dir = "rtl" →
       (Text.getAlignOffset (aligned t "start") (Some dir)
        + Text.getAlignOffset (aligned t "end") (Some dir) = 1)%Qc)
  ∧ Text.getAlignOffset (aligned t "start") None = 0%Qc
  ∧ Text.getAlignOffset (aligned t "end") None = 0%Qc
  ∧ Text.getAlignOffset (aligned t "left") rootDirection = 0%Qc.
Proof.
  split; [|split; [|split; [|split]]].
  - unfold Text.getAlignOffset.
    repeat case_match; auto.
  - intros dir [-> | ->]; unfold Text.getAlignOffset;
      rewrite !align_of; by vm_compute.
  - unfold Text.getAlignOffset. rewrite !align_of. by vm_compute.
  - unfold Text.getAlignOffset. rewrite !align_of. by vm_compute.
  - unfold Text.getAlignOffset. rewrite !align_of.
    destruct rootDirection; by vm_compute.
Qed.

End TextAlign.

Section LineTrace.
Context `{Platform}.

Lemma fold_lineTo (points : list Position.t) (path : Path2D) :
  fold_left (λ path point,
               Path.lineTo path (Position.x point) (Position.y point))
            points path
  = path ++ map (λ point, LineTo (Position.x point) (Position.y point)) points.
Proof.
  revert path. induction points as [|p points IH]; intros path; simpl.
  - by rewrite app_nil_r.
  - rewrite IH. unfold Path.lineTo. by rewrite <- app_assoc.
Qed.

(** X8. [Line.trace] keeps what the path holds and adds one [moveTo] to
    the origin of the line, then one [lineTo] for each point, in the
    order of the points.  A line always has a point to go to: the
    constructor makes one position of an array whose first two items are
    numbers or missing, the empty array included, and one point of each
    item of any other array. *)
Theorem line_trace_commands :
  (∀ (line : Line.t) (path : Path2D),
      Line.trace line path
      = path ++ MoveTo 0 0
          :: map (λ point, LineTo (Position.x point) (Position.y point))
               (Line.points line))
  ∧ ∀ (positionDefinition : PositionDefinition)
      (points : list PositionDefinition) (options : object),
      let line := Line.new positionDefinition points options in
      length (Line.points line)
      = (if forallb Line.is_coordinate (take 2 points)
         then 1%nat else length points)
      ∧ (1 ≤ length (Line.points line))%nat
      ∧ length (Line.trace line []) = S (length (Line.points line)).
Proof.
  assert (∀ (line : Line.t) (path : Path2D),
            Line.trace line path
            = path ++ MoveTo 0 0
                :: map (λ point,
                          LineTo (Position.x point) (Position.y point))
                     (Line.points line)) as Htrace.
  { intros line path. unfold Line.trace, Path.moveTo. rewrite fold_lineTo.
    by rewrite <- app_assoc. }
  split; [done|].
  intros positionDefinition points options. cbv zeta.
  rewrite Htrace. unfold Line.new. cbn [Line.points].
  split; [|split].
  - destruct (forallb _ _); [done|]. by rewrite length_map.
  - destruct (forallb _ _) eqn:E; [done|].
    rewrite length_map. destruct points; [done|]. simpl. lia.
  - simpl. by rewrite length_map.
Qed.

End LineTrace.

Section RectangleOrigin.

Lemma and_or_zero_range (test : bool) (size : Qc) :
  (0 ≤ size)%Qc →
  (- size ≤ and_or_zero test (- size) ≤ 0)%Qc.
Proof.
  intros Hsize.
  assert (- size ≤ 0)%Qc as Hneg by qc_lra.
  unfold and_or_zero. destruct test; simpl.
  - case_bool_decide; simpl; [by split|]. split; [apply Qcle_refl|done].
  - by split.
Qed.

Lemma half_range (size : Qc) :
  (0 ≤ size)%Qc → (- size ≤ - size / Num.int 2 ≤ 0)%Qc.
Proof. intros Hsize. split; qc_lra. Qed.

(** X9. Whatever string the [origin] option of a rectangle holds, the
    origin lies within the rectangle, between the top-left corner and
    the bottom-right corner; a string that names no origin is the
    top-left corner, the inherited origin being left aside. *)
Theorem rectangle_origin_inside (this : Rectangle.t) (origin : string)
    (super_getOrigin : Position.t) :
  Js.get "origin" (Rectangle.options this) = VStr origin →
  (0 ≤ Rectangle.width this)%Qc →
  (0 ≤ Rectangle.height this)%Qc →
  let position := Rectangle_getOrigin this super_getOrigin in
  (- Rectangle.width this ≤ Position.x position ≤ 0)%Qc
  ∧ (- Rectangle.height this ≤ Position.y position ≤ 0)%Qc
  ∧ (origin ∉ ["center"; "topRight"; "bottomLeft"; "bottomRight"] →
     position = Position.zero).
Proof.
  intros Horigin Hw Hh. cbv zeta. unfold Rectangle_getOrigin.
  rewrite Horigin. unfold Position_set.
  destruct (Js.strict_eq _ _) eqn:Ecenter; cbn [Position.x Position.y].
  - split; [by apply half_range|]. split; [by apply half_range|].
    intros Hnot. exfalso. apply Hnot.
    change (bool_decide (origin = "center") = true) in Ecenter.
    apply bool_decide_eq_true in Ecenter as ->. left.
  - split; [by apply and_or_zero_range|].
    split; [by apply and_or_zero_range|].
    intros Hnot. unfold includes. cbn [existsb].
    change (Js.strict_eq (VStr origin) (Js.get "topRight" Rectangle_origins))
      with (bool_decide (origin = "topRight")).
    change (Js.strict_eq (VStr origin)
              (Js.get "bottomRight" Rectangle_origins))
      with (bool_decide (origin = "bottomRight")).
    change (Js.strict_eq (VStr origin)
              (Js.get "bottomLeft" Rectangle_origins))
      with (bool_decide (origin = "bottomLeft")).
    rewrite !bool_decide_eq_false_2;
      [done|intros ->; apply Hnot; set_solver..].
Qed.

Lemma rectangle_origin_inside_witness :
  let this :=
    @Rectangle.new Samples.browser DUndefined (Some (Num.int 50))
      (Some (Num.int 30)) {[ "origin" := VStr "bottomRight" ]} in
  let position := Rectangle_getOrigin this Position.zero in
  (- Rectangle.width this ≤ Position.x position ≤ 0)%Qc
  ∧ (- Rectangle.height this ≤ Position.y position ≤ 0)%Qc
  ∧ ("bottomRight" ∉ ["center"; "topRight"; "bottomLeft"; "bottomRight"] →
     position = Position.zero).
Proof.
  apply (rectangle_origin_inside
           (@Rectangle.new Samples.browser DUndefined (Some (Num.int 50))
              (Some (Num.int 30)) {[ "origin" := VStr "bottomRight" ]})
           "bottomRight" Position.zero);
    vm_compute; first [reflexivity | discriminate].
Defined.

End RectangleOrigin.

Section SelectSetter.
Context `{Platform}.

(** X10. Assigning the index of an option to [value] selects it: the
    getter returns the index, the select displays the text of that
    option and the list of options is hidden; the assignment does not
    throw. *)
Theorem select_value_chooses (this : Select.t) (index : nat)
    (chosen : Text.t) (cache : Cache) :
  Select.optionsList this !! index = Some chosen →
  let result := Select.set_value this (Num.int (Z.of_nat index)) cache in
  Select.value result.1 = Num.int (Z.of_nat index)
  ∧ Text.text (Select.display result.1) = Text.text chosen
  ∧ Select.optionsContainer_shown result.1 = false
  ∧ ¬ threw result.2.
Proof.
  intros Hchosen.
  destruct (set_value_index this index chosen cache Hchosen)
    as (Hvalue & Htext & Hshown & _ & _ & _ & Hthrew & _).
  done.
Qed.

(** X11. Assigning to [value] a number within the range that is no
    integer throws a [TypeError], there being no option at such an
    index; the number is kept as the value all the same, and what the
    select displays is left as it was. *)
Theorem select_value_fraction (this : Select.t) (value : Qc) (cache : Cache) :
  (0 ≤ value
   ≤ Num.int (Z.of_nat (length (Select.optionsList this))) - 1)%Qc →
  Num.int (Num.floor value) ≠ value →
  let result := Select.set_value this value cache in
  result.2 = Throw TypeError
  ∧ Select.value result.1 = value
  ∧ Select.display result.1 = Select.display this
  ∧ Select.optionsContainer_shown result.1
    = Select.optionsContainer_shown this.
Proof.
  intros Hrange Hfraction. cbv zeta. unfold Select.set_value. cbv zeta.
  cbn [Math.constrain_number Select.with_selected Select.selected
       Select.optionsList].
  rewrite (constrain_id _ _ _ Hrange).
  by rewrite (index_fraction _ _ Hfraction).
Qed.

End SelectSetter.

Lemma select_value_chooses_witness :
  ∃ chosen,
    Select.optionsList Samples.menu !! 2%nat = Some chosen
    ∧ Select.value Samples.chosen = Num.int 2
    ∧ Text.text (Select.display Samples.chosen) = "three"
    ∧ Select.optionsContainer_shown Samples.chosen = false.
Proof.
  exists (default Samples.caption (Select.optionsList Samples.menu !! 2%nat)).
  split; [vm_compute; reflexivity|].
  destruct (@select_value_chooses Samples.browser Samples.menu 2
              (default Samples.caption
                 (Select.optionsList Samples.menu !! 2%nat))
              Samples.menuCache) as (Hvalue & Htext & Hshown & _);
    [vm_compute; reflexivity|].
  split; [exact Hvalue|]. split; [|exact Hshown].
  etransitivity; [exact Htext|]. vm_compute. reflexivity.
Defined.

Lemma select_value_fraction_witness :
  let result :=
    @Select.set_value Samples.browser Samples.menu (Num.frac 1 2)
      Samples.menuCache in
  result.2 = Throw TypeError
  ∧ Select.value result.1 = Num.frac 1 2
  ∧ Select.display result.1 = Select.display Samples.menu
  ∧ Select.optionsContainer_shown result.1
    = Select.optionsContainer_shown Samples.menu.
Proof.
  apply (@select_value_fraction Samples.browser Samples.menu (Num.frac 1 2)
           Samples.menuCache).
  - split; vm_compute; discriminate.
  - vm_compute. discriminate.
Defined.

Section Modulo.

Lemma modulo_range (value divider result : Qc) :
  (0 ≤ value)%Qc → (0 < divider)%Qc →
  Math.modulo value divider = Ok result →
  (0 ≤ result < divider)%Qc.
Proof.
  intros Hvalue0 Hpos. rewrite modulo_nonneg by done. intros [= <-].
  assert (divider ≠ 0%Qc) as Hzero
    by (intros ->; by apply Qclt_not_eq in Hpos).
  destruct (floor_bounds (value / divider)) as [Hle Hlt].
  set (k := Num.int (Num.floor (value / divider))) in *.
  assert (value = value / divider * divider)%Qc as Hvalue.
  { unfold Qcdiv. rewrite <- Qcmult_assoc, (Qcmult_comm (/ divider)).
    rewrite Qcmult_inv_r by done. by rewrite Qcmult_1_r. }
  apply (Qcmult_le_compat_r _ _ divider) in Hle;
    [|by apply Qclt_le_weak].
  apply (Qcmult_lt_compat_r _ _ divider) in Hlt; [|done].
  rewrite <- Hvalue in Hle, Hlt. clearbody k. clear Hvalue.
  rewrite Qcmult_plus_distr_l, Qcmult_1_l in Hlt.
  rewrite (Qcmult_comm divider k).
  generalize dependent (k * divider)%Qc. intros p Hle Hlt.
  split; qc_lra.
Qed.

Lemma floor_range (q : Qc) (n : nat) :
  (0 ≤ q < Num.int (Z.of_nat n))%Qc →
  (0 ≤ Num.floor q < Z.of_nat n)%Z.
Proof.
  intros [H0 Hn]. destruct (floor_bounds q) as [Hle Hlt].
  unfold Num.int in *.
  split.
  - assert (Qc_of_Z 0 < Qc_of_Z (Num.floor q + 1))%Qc as Hz.
    { rewrite Z2Qc_inj_add, Z2Qc_inj_1, Z2Qc_inj_0.
      by eapply Qcle_lt_trans. }
    apply Z2Qc_inj_lt in Hz. lia.
  - apply Z2Qc_inj_lt. by eapply Qcle_lt_trans.
Qed.

Lemma index_floor {A : Type} (l : list A) (q : Qc) :
  (0 ≤ q < Num.int (Z.of_nat (length l)))%Qc →
  ∃ a, Js.index l (Num.int (Num.floor q)) = Some a.
Proof.
  intros Hq. apply floor_range in Hq as [H0 Hn].
  unfold Js.index. rewrite floor_int.
  rewrite bool_decide_eq_true_2 by done.
  rewrite bool_decide_eq_true_2 by done. simpl.
  apply lookup_lt_is_Some_2. lia.
Qed.

End Modulo.

Section SpriteLife.
Context `{Platform}.

Lemma in_range_frames (this : Sprite.t) :
  Animation.in_range this → Sprite.frames this ≠ [].
Proof.
  intros [H0 Hn] Hnil.
  replace (Num.int (Z.of_nat (length (Sprite.frames this)))) with 0%Qc in Hn
    by (symmetry; rewrite Hnil; apply Z2Qc_inj_0).
  by apply Qcle_not_lt in H0.
Qed.

Lemma currentFrame_in_range (this : Sprite.t) :
  Animation.in_range this → ∃ data, Sprite.currentFrame this = Ok data.
Proof.
  intros Hrange. unfold Sprite.currentFrame.
  destruct (index_floor (Sprite.frames this) (Sprite.frame this) Hrange)
    as [data ->].
  by exists data.
Qed.

Lemma setFrame_in_range (this : Sprite.t) (frame : Qc) :
  Sprite.frames this ≠ [] → (0 ≤ frame)%Qc →
  ∃ this', Sprite.setFrame this frame = Ok this'
           ∧ Animation.in_range this'
           ∧ Sprite.frames this' = Sprite.frames this
           ∧ Sprite.options this' = Sprite.options this.
Proof.
  intros Hframes Hframe. unfold Sprite.setFrame.
  pose proof (length_pos _ Hframes) as Hpos.
  destruct (Math.modulo frame _) as [r| |] eqn:E;
    [|by rewrite modulo_nonneg in E..].
  eexists. split; [reflexivity|]. split; [|done].
  unfold Animation.in_range. cbn [Sprite.with_frame Sprite.frame Sprite.frames].
  by eapply modulo_range.
Qed.

Lemma draw_in_range (this : Sprite.t) (ctx : Context2D) :
  Animation.in_range this → ∃ ctx', Sprite.draw this ctx = Ok ctx'.
Proof.
  intros Hrange. unfold Sprite.draw.
  destruct (currentFrame_in_range this Hrange) as [data ->].
  simpl. eauto.
Qed.

Lemma makePath_in_range (this : Sprite.t) (ctx : Context2D) :
  Animation.in_range this → Animation.forwards (Sprite.options this) →
  ∃ result, Sprite.makePath this ctx = Ok result
            ∧ Animation.in_range result.1.1
            ∧ Sprite.frames result.1.1 = Sprite.frames this
            ∧ Sprite.options result.1.1 = Sprite.options this.
Proof.
  intros Hrange (speed & Hspeed & Hforwards).
  pose proof (in_range_frames this Hrange) as Hframes.
  unfold Sprite.makePath.
  destruct (currentFrame_in_range this Hrange) as [data ->].
  cbn [mbind outcome_bind bind]. cbv zeta.
  set (sized := Sprite.with_size this _ _).
  assert (Animation.in_range sized) as Hsized by done.
  unfold Image_makePath.
  change (Sprite.isLoaded sized) with (Sprite.isLoaded this).
  destruct (Sprite.isLoaded this).
  - destruct (draw_in_range sized ctx Hsized) as [ctx' ->].
    cbn [mbind outcome_bind bind].
    destruct (negb (Sprite.isPaused sized) && _).
    + unfold number_of.
      change (Sprite.options sized) with (Sprite.options this).
      rewrite Hspeed. cbn [mbind outcome_bind bind].
      destruct (setFrame_in_range sized (Sprite.frame sized + speed))
        as (next & -> & Hnext & Hsame & Hoptions); [done| |].
      { destruct Hrange as [H0 _].
        change (Sprite.frame sized) with (Sprite.frame this).
        rewrite <- (Qcplus_0_l 0). by apply Qcplus_le_compat. }
      cbn [mbind outcome_bind bind]. eexists. split; [reflexivity|].
      by cbn [fst].
    + cbn [mbind outcome_bind bind]. eexists. by split; [reflexivity|].
  - cbn [mbind outcome_bind bind]. eexists. by split; [reflexivity|].
Qed.

Lemma run_in_range (this : Sprite.t) (op : Animation.operation) :
  Animation.in_range this → Animation.forwards (Sprite.options this) →
  Animation.forward op →
  ∃ this', Animation.run this op = Ok this'
           ∧ Animation.in_range this'
           ∧ Sprite.frames this' = Sprite.frames this
           ∧ Animation.forwards (Sprite.options this').
Proof.
  intros Hrange Hforwards Hop.
  pose proof (in_range_frames this Hrange) as Hframes.
  destruct op as [|ctx|ctx|speed| |frame]; simpl.
  - by eexists.
  - destruct (makePath_in_range this ctx Hrange Hforwards)
      as (result & -> & Hnext & Hsame & Hoptions).
    cbn [mbind outcome_bind bind]. eexists. split; [reflexivity|].
    by rewrite Hoptions.
  - destruct (draw_in_range this ctx Hrange) as [ctx' ->].
    cbn [mbind outcome_bind bind]. by eexists.
  - eexists. split; [reflexivity|]. destruct speed as [speed|]; [|done].
    split; [done|]. split; [done|]. exists speed.
    cbn [Sprite.play Sprite.with_options Sprite.options].
    unfold Js.get. by rewrite lookup_insert_eq.
  - by eexists.
  - destruct (setFrame_in_range this frame Hframes Hop)
      as (this' & -> & Hnext & Hsame & Hoptions).
    eexists. split; [reflexivity|]. by rewrite Hoptions.
Qed.

Lemma runs_in_range (this : Sprite.t) (ops : list Animation.operation) :
  Animation.in_range this → Animation.forwards (Sprite.options this) →
  Forall Animation.forward ops →
  ∃ this', Animation.runs this ops = Ok this'
           ∧ Animation.in_range this'
           ∧ Sprite.frames this' = Sprite.frames this.
Proof.
  revert this.
  induction ops as [|op ops IH]; intros this Hrange Hforwards Hops; simpl.
  - by eexists.
  - apply Forall_cons in Hops as [Hop Hops].
    destruct (run_in_range this op Hrange Hforwards Hop)
      as (next & -> & Hnext & Hsame & Hoptions).
    cbn [mbind outcome_bind bind].
    destruct (IH next Hnext Hoptions Hops) as (this' & -> & Hlast & Hframes).
    eexists. split; [reflexivity|]. split; [done|congruence].
Qed.

(** X12. Numbers being exact, a sprite built with at least one frame
    and a speed that is a number and not negative keeps its frames and
    a frame number that points at one of them, whatever is done to it
    that takes it forwards: load, paint, draw, play at a speed that is
    not negative, pause, jump to a frame number that is not negative.
    Each of these completes. *)
Theorem sprite_frame_in_range (positionDefinition : PositionDefinition)
    (url : option string) (frames : list FrameData.t) (options : object)
    (ops : list Animation.operation) :
  frames ≠ [] →
  Animation.forwards (Component_resolve Sprite.defaultOptions options) →
  Forall Animation.forward ops →
  let built := Sprite.new positionDefinition url frames options in
  ∃ this : Sprite.t,
    Animation.runs built ops = Ok this
    ∧ Sprite.frames this = frames
    ∧ (0 ≤ Sprite.frame this < Num.int (Z.of_nat (length frames)))%Qc
    ∧ ∃ data, frames !! Z.to_nat (Num.floor (Sprite.frame this)) = Some data.
Proof.
  intros Hframes Hforwards Hops. cbv zeta.
  assert (Animation.in_range
            (Sprite.new positionDefinition url frames options)) as Hnew.
  { split; [apply Qcle_refl|]. by apply length_pos. }
  destruct (runs_in_range _ ops Hnew Hforwards Hops)
    as (this & Hruns & Hrange & Hsame).
  exists this. split; [done|]. split; [done|].
  unfold Animation.in_range in Hrange. rewrite Hsame in Hrange.
  cbn [Sprite.new Sprite.frames] in Hrange. split; [done|].
  apply lookup_lt_is_Some_2.
  apply floor_range in Hrange. lia.
Qed.

End SpriteLife.

Lemma sprite_frame_in_range_witness :
  let built :=
    @Sprite.new Samples.browser DUndefined (Some "walk.png")
      [Samples.frame0; Samples.frame1] ∅ in
  let ops :=
    [Animation.Loaded; Animation.MakePath []; Animation.Play (Some (Num.frac 7 2));
     Animation.MakePath []; Animation.SetFrame (Num.int 3);
     Animation.Pause; Animation.Draw []] in
  ∃ this : Sprite.t,
    Animation.runs built ops = Ok this
    ∧ Sprite.frames this = [Samples.frame0; Samples.frame1]
    ∧ (0 ≤ Sprite.frame this < Num.int 2)%Qc
    ∧ ∃ data,
        [Samples.frame0; Samples.frame1]
          !! Z.to_nat (Num.floor (Sprite.frame this)) = Some data.
Proof.
  apply (@sprite_frame_in_range Samples.browser DUndefined
           (Some "walk.png") [Samples.frame0; Samples.frame1] ∅).
  - discriminate.
  - exists 1%Qc. split; [vm_compute; reflexivity|vm_compute; discriminate].
  - repeat constructor; vm_compute; discriminate.
Defined.

Section SpritesheetExtract.
Context `{Platform} `{Packages}.

Lemma select_elem (filter : string → nat → list string → bool)
    (keys : list string) (index : nat)
    (entries : list (string * FrameData.t)) (name : string)
    (data : FrameData.t) :
  (∀ index keys, filter name index keys = true) →
  (name, data) ∈ entries →
  data ∈ Spritesheet.select filter keys index entries.
Proof.
  intros Hfilter. revert index.
  induction entries as [|[key d] entries IH]; intros index Hin.
  - by apply elem_of_nil in Hin.
  - simpl. apply elem_of_cons in Hin as [[= <- <-]|Hin].
    + rewrite Hfilter. left.
    + destruct (filter key index keys); [right|]; by apply IH.
Qed.

Lemma select_sublist (filter : string → nat → list string → bool)
    (keys : list string) (index : nat)
    (entries : list (string * FrameData.t)) :
  sublist (Spritesheet.select filter keys index entries) (map snd entries).
Proof.
  revert index. induction entries as [|[key d] entries IH]; intros index.
  - constructor.
  - simpl. destruct (filter key index keys).
    + apply sublist_skip, IH.
    + apply sublist_cons, IH.
Qed.

(** X13. [extract] called with a string for which [picomatch] builds
    a matcher selects the frame of that very name, whatever the matcher
    makes of the string.  When [picomatch] throws instead of building a
    matcher, as it does for the empty string, [extract] throws the same
    exception, before any name is compared.  Whatever the selector, the
    frames of a sprite that [extract] returns are frames of the sheet,
    in the order of the sheet. *)
Theorem extract_named (sheet : Spritesheet.t) (position : PositionDefinition)
    (options : object) (name : string) (data : FrameData.t) :
  (name, data) ∈ Spritesheet.frames sheet →
  (∀ glob, picomatch name = Ok glob →
     ∃ sprite,
       Spritesheet.extract sheet position (Some (Spritesheet.Glob name))
         options = Ok sprite
       ∧ data ∈ Sprite.frames sprite)
  ∧ (∀ e, picomatch name = Throw e →
       Spritesheet.extract sheet position (Some (Spritesheet.Glob name))
         options = Throw e)
  ∧ ∀ selector sprite,
      Spritesheet.extract sheet position selector options = Ok sprite →
      sublist (Sprite.frames sprite) (map snd (Spritesheet.frames sheet)).
Proof.
  intros Hin. split; [|split].
  - intros glob Hglob. unfold Spritesheet.extract.
    change (default _ (Some ?selector)) with selector.
    cbn [Spritesheet.filter]. rewrite Hglob. cbn [mbind outcome_bind bind].
    eexists. split; [reflexivity|].
    unfold Sprite.new. cbn [Sprite.frames]. eapply select_elem; [|done].
    intros index keys. by rewrite bool_decide_eq_true_2.
  - intros e He. unfold Spritesheet.extract.
    change (default _ (Some ?selector)) with selector.
    cbn [Spritesheet.filter]. by rewrite He.
  - intros selector sprite. unfold Spritesheet.extract.
    destruct (Spritesheet.filter _) as [filter| |];
      cbn [mbind outcome_bind bind]; [|done..].
    intros [= <-]. unfold Sprite.new. cbn [Sprite.frames].
    apply select_sublist.
Qed.

Lemma select_none (keys : list string) (index : nat)
    (entries : list (string * FrameData.t)) :
  Spritesheet.select (λ _ _ _, false) keys index entries = [].
Proof.
  revert index. induction entries as [|[key d] entries IH]; intros index;
    [done|]. simpl. apply IH.
Qed.

Lemma index_nil {A : Type} (i : Qc) : Js.index (@nil A) i = None.
Proof. unfold Js.index. by destruct (_ && _). Qed.

(** X14. A selector that is no function, no string and no regular
    expression selects nothing: [extract] still returns a sprite, one
    without any frame, and painting or drawing that sprite throws a
    [TypeError], before and after its image is loaded. *)
Theorem extract_nothing (sheet : Spritesheet.t)
    (position : PositionDefinition) (options : object) (ctx : Context2D) :
  ∃ sprite : Sprite.t,
    Spritesheet.extract sheet position (Some Spritesheet.Other) options
    = Ok sprite
    ∧ Sprite.frames sprite = []
    ∧ Sprite.makePath sprite ctx = Throw TypeError
    ∧ Sprite.draw sprite ctx = Throw TypeError
    ∧ Sprite.makePath (Sprite.loaded sprite) ctx = Throw TypeError.
Proof.
  eexists. split; [reflexivity|].
  set (sprite := Sprite.new _ _ _ _).
  assert (Sprite.frames sprite = []) as Hnone.
  { subst sprite. unfold Sprite.new. cbn [Sprite.frames]. apply select_none. }
  split; [done|].
  unfold Sprite.makePath, Sprite.draw, Sprite.currentFrame.
  change (Sprite.frames (Sprite.loaded ?s)) with (Sprite.frames s).
  by rewrite Hnone, index_nil.
Qed.

End SpritesheetExtract.

Lemma extract_named_witness :
  (∃ sprite,
     @Spritesheet.extract Samples.browser Examples.packages Examples.sheet
       DUndefined (Some (Spritesheet.Glob "walk-1")) ∅ = Ok sprite
     ∧ Samples.frame1 ∈ Sprite.frames sprite)
  ∧ @Spritesheet.extract Samples.browser Examples.packages Examples.sheet
      DUndefined (Some (Spritesheet.Glob "")) ∅ = Throw TypeError.
Proof.
  split.
  - destruct (@extract_named Samples.browser Examples.packages Examples.sheet
                DUndefined ∅ "walk-1" Samples.frame1) as (Hnamed & _ & _);
      [right; left|].
    by eapply Hnamed.
  - vm_compute. reflexivity.
Defined.

Section SpriteEvents.

(** X15. What one call of [makePath] fires is nothing, [sprite-frame],
    or [sprite-frame] then [sprite-end].  [sprite-end] comes only with
    the loop option off and the sprite arrived on its last frame; a
    sprite that is paused or not loaded fires nothing and stays on its
    frame. *)
Theorem sprite_events (this this' : Sprite.t) (ctx ctx' : Context2D)
    (fired : list value) :
  Sprite.makePath this ctx = Ok (this', ctx', fired) →
  (fired = []
   ∨ fired = [VStr "sprite-frame"]
   ∨ (fired = [VStr "sprite-frame"; VStr "sprite-end"]
      ∧ Js.truthy (Js.get "loop" (Sprite.options this)) = false
      ∧ Num.int (Num.floor (Sprite.frame this')) = Sprite.lastFrame this))
  ∧ (fired ≠ [] →
     Num.floor (Sprite.frame this') ≠ Num.floor (Sprite.frame this))
  ∧ (Sprite.isPaused this = true ∨ Sprite.isLoaded this = false →
     fired = [] ∧ Sprite.frame this' = Sprite.frame this).
Proof.
  unfold Sprite.makePath.
  destruct (Sprite.currentFrame this) as [data| |];
    cbn [mbind outcome_bind bind]; [|done..]. cbv zeta.
  set (sized := Sprite.with_size this _ _).
  destruct (Image_makePath _ _ _) as [drawn| |];
    cbn [mbind outcome_bind bind]; [|done..].
  change (Sprite.isLoaded sized) with (Sprite.isLoaded this).
  change (Sprite.isPaused sized) with (Sprite.isPaused this).
  change (Sprite.options sized) with (Sprite.options this).
  change (Sprite.frame sized) with (Sprite.frame this).
  change (Sprite.lastFrame sized) with (Sprite.lastFrame this).
  destruct (Sprite.isLoaded this); [|intros [= <- <- <-]; by auto].
  assert (∀ next : Sprite.t,
            Sprite.options next = Sprite.options this →
            Sprite.lastFrame next = Sprite.lastFrame this →
            (Sprite.isPaused this = true →
             Sprite.frame next = Sprite.frame this) →
            Ok (next, drawn,
                if bool_decide (Num.floor (Sprite.frame next)
                                ≠ Num.floor (Sprite.frame this))
                then Js.get "frame" Sprite.events
                     :: (if negb (Js.truthy
                                    (Js.get "loop" (Sprite.options next)))
                            && bool_decide
                                 (Num.int (Num.floor (Sprite.frame next))
                                  = Sprite.lastFrame next)
                         then [Js.get "end" Sprite.events] else [])
                else [])
            = Ok (this', ctx', fired) →
            (fired = []
             ∨ fired = [VStr "sprite-frame"]
             ∨ (fired = [VStr "sprite-frame"; VStr "sprite-end"]
                ∧ Js.truthy (Js.get "loop" (Sprite.options this)) = false
                ∧ Num.int (Num.floor (Sprite.frame this'))
                  = Sprite.lastFrame this))
            ∧ (fired ≠ [] →
               Num.floor (Sprite.frame this')
               ≠ Num.floor (Sprite.frame this))
            ∧ (Sprite.isPaused this = true ∨ true = false →
               fired = [] ∧ Sprite.frame this' = Sprite.frame this))
    as Hfired.
  { intros next Hoptions Hlast Hpaused [= <- <- <-].
    rewrite Hoptions, Hlast.
    case_bool_decide as Hfloor.
    - split; [|split; [done|]].
      + destruct (Js.truthy _) eqn:Hloop; simpl; [by auto|].
        case_bool_decide as Hend; [|by auto]. right. right. done.
      + intros [Hp|?]; [|done]. exfalso. apply Hfloor.
        by rewrite (Hpaused Hp).
    - split; [by left|]. split; [done|].
      intros [Hp|?]; [|done]. split; [done|]. by apply Hpaused. }
  destruct (Sprite.isPaused this) eqn:Hp; cbn [negb andb].
  - cbn [mbind outcome_bind bind]. intros Hok.
    apply (Hfired sized) in Hok; [|done..].
    destruct Hok as (? & ? & Hq). split; [done|]. split; [done|].
    intros _. apply Hq. by left.
  - destruct (_ || _); cbn [mbind outcome_bind bind].
    + destruct (number_of _) as [speed| |];
        cbn [mbind outcome_bind bind]; [|done..].
      unfold Sprite.setFrame.
      destruct (Math.modulo _ _) as [frame| |];
        cbn [mbind outcome_bind bind]; [|done..].
      intros Hok. apply (Hfired (Sprite.with_frame sized frame)) in Hok;
        [|done..].
      destruct Hok as (? & ? & Hq). split; [done|]. split; [done|].
      by intros [?|?].
    + intros Hok. apply (Hfired sized) in Hok; [|done..].
      destruct Hok as (? & ? & Hq). split; [done|]. split; [done|].
      by intros [?|?].
Qed.

Lemma sprite_events_witness :
  ∃ (this' : Sprite.t) (ctx' : Context2D) (fired : list value),
    let this :=
      Sprite.with_options Samples.walker
        (<[ "loop" := VBool false ]> (Sprite.options Samples.walker)) in
    Sprite.makePath this [] = Ok (this', ctx', fired)
    ∧ fired = [VStr "sprite-frame"; VStr "sprite-end"]
    ∧ (fired ≠ [] →
       Num.floor (Sprite.frame this') ≠ Num.floor (Sprite.frame this)).
Proof.
  eexists _, _, _. cbv zeta. split; [vm_compute; reflexivity|].
  split; [reflexivity|].
  refine (proj1 (proj2 (sprite_events _ _ [] _ _ _))).
  vm_compute. reflexivity.
Defined.

Lemma floor_one (q : Qc) :
  (1 ≤ q < 2)%Qc → Num.floor q = 1%Z.
Proof.
  intros [H1 H2]. destruct (floor_bounds q) as [Hle Hlt].
  unfold Num.int in *.
  assert (Qc_of_Z (Num.floor q) < Qc_of_Z 2)%Qc as Ha.
  { rewrite Z2Qc_inj_2. by eapply Qcle_lt_trans. }
  assert (Qc_of_Z 1 < Qc_of_Z (Num.floor q + 1))%Qc as Hb.
  { rewrite Z2Qc_inj_add, Z2Qc_inj_1. by eapply Qcle_lt_trans. }
  apply Z2Qc_inj_lt in Ha, Hb. lia.
Qed.

Lemma modulo_once (value divider : Qc) :
  (0 < divider)%Qc →
  (divider ≤ value < divider + divider)%Qc →
  Math.modulo value divider = Ok (value - divider)%Qc.
Proof.
  intros Hpos [Hle Hlt].
  assert (0 ≤ value)%Qc as Hvalue
    by (apply Qclt_le_weak; by eapply Qclt_le_trans).
  rewrite modulo_nonneg by done.
  rewrite floor_one.
  - f_equal. unfold Num.int. rewrite Z2Qc_inj_1. ring.
  - assert (divider ≠ 0%Qc) as Hne
      by (intros ->; by apply Qclt_not_eq in Hpos).
    pose proof (Qcinv_pos divider Hpos) as Hinv. unfold Qcdiv. split.
    + rewrite <- (Qcmult_inv_r divider) by done.
      apply Qcmult_le_compat_r; [done|by apply Qclt_le_weak].
    + replace 2%Qc with ((divider + divider) * / divider)%Qc.
      * by apply Qcmult_lt_compat_r.
      * rewrite Qcmult_plus_distr_l, Qcmult_inv_r by done. done.
Qed.

(** X16. The loop option being off stops a sprite only once it is on
    its last frame: before it, a step that goes past the last frame is
    taken all the same and brings the sprite back to the first frames,
    as in a loop. *)
Theorem sprite_overshoot_wraps (this : Sprite.t) (ctx : Context2D)
    (data : FrameData.t) (speed : Qc) :
  Sprite.isLoaded this = true →
  Sprite.isPaused this = false →
  Js.truthy (Js.get "loop" (Sprite.options this)) = false →
  Sprite.currentFrame this = Ok data →
  number_of (Js.get "speed" (Sprite.options this)) = Ok speed →
  let count := Num.int (Z.of_nat (length (Sprite.frames this))) in
  (Sprite.frame this < count - 1)%Qc →
  (count ≤ Sprite.frame this + speed < count + count)%Qc →
  ∃ this' ctx' fired,
    Sprite.makePath this ctx = Ok (this', ctx', fired)
    ∧ Sprite.frame this' = (Sprite.frame this + speed - count)%Qc.
Proof.
  intros Hloaded Hpaused Hloop Hcurrent Hspeed count Hbefore Hpast.
  pose proof (currentFrame_frames _ _ Hcurrent) as Hframes.
  unfold Sprite.makePath. rewrite Hcurrent.
  cbn [mbind outcome_bind bind]. cbv zeta.
  set (sized := Sprite.with_size this _ _).
  unfold Image_makePath.
  change (Sprite.isLoaded sized) with (Sprite.isLoaded this).
  change (Sprite.isPaused sized) with (Sprite.isPaused this).
  change (Sprite.options sized) with (Sprite.options this).
  change (Sprite.frame sized) with (Sprite.frame this).
  change (Sprite.lastFrame sized) with (Sprite.lastFrame this).
  rewrite Hloaded, Hpaused, Hloop, Hspeed.
  unfold Sprite.draw.
  change (Sprite.currentFrame sized) with (Sprite.currentFrame this).
  rewrite Hcurrent. cbn [mbind outcome_bind bind negb andb orb].
  assert (Num.ltb (Sprite.frame this) (Sprite.lastFrame this) = true) as ->
    by (by apply ltb_true).
  cbn [mbind outcome_bind bind]. unfold Sprite.setFrame.
  change (Sprite.frames sized) with (Sprite.frames this).
  rewrite (modulo_once _ count); [| |done].
  - cbn [mbind outcome_bind bind]. eexists _, _, _. split; [reflexivity|].
    done.
  - unfold count, Num.int. rewrite <- Z2Qc_inj_0.
    apply (proj1 (Z2Qc_inj_lt _ _)). destruct (Sprite.frames this); [done|].
    rewrite length_cons, Nat2Z.inj_succ. lia.
Qed.

Lemma sprite_overshoot_wraps_witness :
  let this :=
    Sprite.with_options Samples.walker
      {[ "loop" := VBool false; "speed" := VNum (Num.frac 5 2) ]} in
  ∃ this' ctx' fired,
    Sprite.makePath this [] = Ok (this', ctx', fired)
    ∧ Sprite.frame this'
      = (Sprite.frame this + Num.frac 5 2
         - Num.int (Z.of_nat (length (Sprite.frames this))))%Qc.
Proof.
  apply (sprite_overshoot_wraps
           (Sprite.with_options Samples.walker
              {[ "loop" := VBool false; "speed" := VNum (Num.frac 5 2) ]})
           [] Samples.frame0 (Num.frac 5 2));
    try split; vm_compute; first [reflexivity | discriminate].
Defined.

End SpriteEvents.

Section ColorRange.
Context `{Packages}.

Lemma ratio_255 (q : Qc) :
  (0 ≤ q ≤ Num.int 255)%Qc → (0 ≤ q / Num.int 255 ≤ 1)%Qc.
Proof.
  intros [H0 H1].
  assert (0 < Num.int 255)%Qc as Hpos by (by vm_compute).
  pose proof (Qcinv_pos _ Hpos) as Hinv. unfold Qcdiv. split.
  - apply Qcmult_nonneg_nonneg; [done|by apply Qclt_le_weak].
  - rewrite <- (Qcmult_inv_r (Num.int 255))
      by (intros E; by rewrite E in Hpos).
    apply Qcmult_le_compat_r; [done|by apply Qclt_le_weak].
Qed.

Lemma hexToRatio_range (hex : option Qc) (n : nat) :
  (0 ≤ Color.hexToRatio hex n ≤ 1)%Qc.
Proof.
  unfold Color.hexToRatio. apply ratio_255.
  change 255%Z with (Z.ones 8). rewrite Z.land_ones by lia.
  change (2 ^ 8)%Z with 256%Z. change (Z.ones 8) with 255%Z.
  pose proof (Z.mod_pos_bound
                (Bits.shiftr (Bits.to_int32 hex) (8 * Z.of_nat n)) 256
                eq_refl)
    as Hmod.
  unfold Num.int. rewrite <- Z2Qc_inj_0.
  split; apply (proj1 (Z2Qc_inj_le _ _)); lia.
Qed.

Lemma ratio_range (argument : Color.Argument) (q : Qc) :
  Color.ratio argument = Ok q → (0 ≤ q ≤ 1)%Qc.
Proof.
  destruct argument as [color|v]; [done|]. simpl. unfold number_of.
  destruct (Js.to_number v) as [n|]; [|done]. simpl. intros [= <-].
  by apply constrain_range.
Qed.

Lemma set_alpha_valid (this color : Color.t)
    (argument : option Color.Argument) :
  Color.bounded this →
  Color.set_alpha this argument = Ok color → Color.bounded color.
Proof.
  intros Hvalid. unfold Color.set_alpha.
  assert (∀ a, (alpha ← Color.ratio a;
                Ok {| Color.red := Color.red this;
                      Color.green := Color.green this;
                      Color.blue := Color.blue this;
                      Color.alpha := alpha |}) = Ok color →
               Color.bounded color) as Hset.
  { intros a. destruct (Color.ratio a) as [q| |] eqn:E; [|done..].
    simpl. intros [= <-]. apply ratio_range in E.
    unfold Color.bounded in *. simpl. tauto. }
  destruct argument as [[c|v]|]; [apply Hset| |by intros [= <-]].
  destruct v; try apply (Hset (Color.Plain _)). by intros [= <-].
Qed.

Lemma with_channels_valid (this : Color.t) (red green blue : Qc) :
  Color.bounded this →
  (0 ≤ red ≤ 1)%Qc → (0 ≤ green ≤ 1)%Qc → (0 ≤ blue ≤ 1)%Qc →
  Color.bounded (Color.with_channels this red green blue).
Proof. unfold Color.bounded. simpl. tauto. Qed.

Lemma with_hex_valid (this : Color.t) (hex : option Qc) :
  Color.bounded this → Color.bounded (Color.with_hex this hex).
Proof.
  intros Hvalid. apply with_channels_valid; [done|apply hexToRatio_range..].
Qed.

Lemma set_valid (this color : Color.t) (colorDefinition : list Color.Argument) :
  (∀ name r g b,
      keyword_rgb name = Some (r, g, b) →
      (0 ≤ r ≤ Num.int 255)%Qc ∧ (0 ≤ g ≤ Num.int 255)%Qc
      ∧ (0 ≤ b ≤ Num.int 255)%Qc) →
  Color.bounded this →
  Forall Color.bounded_argument colorDefinition →
  Color.set this colorDefinition = Ok color → Color.bounded color.
Proof.
  intros Htable Hvalid Hargs. unfold Color.set.
  destruct (_ && _).
  - destruct colorDefinition as [|[param|param] rest]; cbn [lookup list_lookup].
    + by intros [= <-].
    + intros [= <-]. by apply Forall_cons in Hargs as [? _].
    + apply set_alpha_valid.
      destruct param as [| | |hex|name| |]; try done.
      * by apply with_hex_valid.
      * destruct (String.prefix "#" name); [by apply with_hex_valid|].
        destruct (keyword_rgb _) as [[[r g] b]|] eqn:E; simpl.
        -- apply Htable in E as (? & ? & ?).
           apply with_channels_valid; [done|by apply ratio_255..].
        -- apply with_channels_valid; [done|apply ratio_255..];
             by vm_compute.
  - destruct (bool_decide _); [|by intros [= <-]].
    destruct colorDefinition as [|r [|g [|b rest]]]; try by intros [= <-].
    destruct (Color.ratio r) as [red| |] eqn:Er; [|done..].
    destruct (Color.ratio g) as [green| |] eqn:Eg; [|done..].
    destruct (Color.ratio b) as [blue| |] eqn:Eb; [|done..].
    cbn [mbind outcome_bind bind]. apply set_alpha_valid.
    apply with_channels_valid; [done|by eapply ratio_range..].
Qed.

Lemma numbers_valid (channels : list Qc) :
  Forall Color.bounded_argument (Color.numbers channels).
Proof. unfold Color.numbers. apply Forall_forall. intros a Hin.
  apply list_elem_of_fmap in Hin as (q & -> & _). done.
Qed.

(** X17. Colors keep their channels and their alpha between [0] and [1]
    as long as no [NaN] comes in.  With a table of names whose entries
    lie between 0 and 255, every color that the constructor, [set],
    [from], [grey], [saturation], [lightness] or [reverse] makes of
    rational numbers, of strings and of colors that are in that range
    has its four values in that range, and on rational numbers each of
    them does return a color.  A channel or an alpha that is
    [NaN], or that is no number at all, is left out: [constrain] hands
    [NaN] on, and the outcome is [NotANumber], of which nothing is
    said. *)
Theorem color_stays_valid :
  (∀ name r g b,
      keyword_rgb name = Some (r, g, b) →
      (0 ≤ r ≤ Num.int 255)%Qc ∧ (0 ≤ g ≤ Num.int 255)%Qc
      ∧ (0 ≤ b ≤ Num.int 255)%Qc) →
  (∀ colorDefinition color,
      Forall Color.bounded_argument colorDefinition →
      (Color.new colorDefinition = Ok color
       ∨ Color.from colorDefinition = Ok (Some color)) →
      Color.bounded color)
  ∧ ∀ this, Color.bounded this →
      (∀ colorDefinition color,
          Forall Color.bounded_argument colorDefinition →
          Color.set this colorDefinition = Ok color → Color.bounded color)
      ∧ (∀ value color,
          (Color.grey this = Ok color
           ∨ Color.saturation this value = Ok color
           ∨ Color.lightness this value = Ok color
           ∨ Color.reverse this = Ok color) →
          Color.bounded color)
      ∧ (∀ value : Qc,
          (∃ color, Color.grey this = Ok color)
          ∧ (∃ color, Color.saturation this value = Ok color)
          ∧ (∃ color, Color.lightness this value = Ok color)
          ∧ (∃ color, Color.reverse this = Ok color))
      ∧ (∀ red green blue alpha : Qc,
          (∃ color,
             Color.set this (Color.numbers [red; green; blue]) = Ok color)
          ∧ (∃ color,
               Color.set this (Color.numbers [red; green; blue; alpha])
               = Ok color)).
Proof.
  intros Htable.
  assert (Color.bounded {| Color.red := 0%Qc; Color.green := 0%Qc;
                         Color.blue := 0%Qc; Color.alpha := 1%Qc |})
    as Hblack by (by vm_compute).
  assert (∀ colorDefinition color,
            Forall Color.bounded_argument colorDefinition →
            Color.new colorDefinition = Ok color → Color.bounded color)
    as Hnew.
  { intros colorDefinition color Hargs. unfold Color.new.
    by apply set_valid. }
  split.
  - intros colorDefinition color Hargs [Hcolor|Hcolor];
      [by eapply Hnew|].
    unfold Color.from in Hcolor.
    destruct colorDefinition as [|[param|param] rest];
      cbn [lookup list_lookup] in Hcolor.
    + destruct (Color.new []) as [c| |] eqn:E; [|done..].
      injection Hcolor as <-. by eapply Hnew.
    + injection Hcolor as <-. by apply Forall_cons in Hargs as [? _].
    + destruct param; try done;
        match type of Hcolor with
        | context [Color.new ?args] =>
            destruct (Color.new args) as [c| |] eqn:E; [|done..];
            injection Hcolor as <-; by eapply Hnew
        end.
  - intros this Hvalid. split; [|split; [|split]].
    + intros colorDefinition color Hargs. by apply set_valid.
    + intros value color [Hc|[Hc|[Hc|Hc]]];
        (eapply set_valid; [done|done| |exact Hc]); apply numbers_valid.
    + intros value. repeat split; by eexists.
    + intros red green blue alpha. split; by eexists.
Qed.

End ColorRange.

Lemma color_stays_valid_witness :
  ∃ color,
    @Color.lightness Examples.packages Examples.orange (Num.int 3) = Ok color
    ∧ Color.bounded color.
Proof.
  eexists. split; [vm_compute; reflexivity|].
  assert (∀ name r g b,
            @keyword_rgb Examples.packages name = Some (r, g, b) →
            (0 ≤ r ≤ Num.int 255)%Qc ∧ (0 ≤ g ≤ Num.int 255)%Qc
            ∧ (0 ≤ b ≤ Num.int 255)%Qc) as Htable.
  { intros name r g b. simpl.
    repeat case_bool_decide; intros [= <- <- <-]; by vm_compute. }
  apply (proj1 (proj2 (proj2 (@color_stays_valid Examples.packages Htable)
                         Examples.orange ltac:(by vm_compute)))
           (Num.int 3)).
  right. right. left. vm_compute. reflexivity.
Defined.

Section ColorHex.
Context `{Packages}.

Lemma truncate_int (z : Z) : Bits.truncate (Num.int z) = z.
Proof.
  unfold Bits.truncate, Num.int.
  destruct (Num.ltb _ _); [apply Qceiling_Z|apply Qfloor_Z].
Qed.

Lemma to_int32_small (z : Z) :
  (0 ≤ z < 2 ^ 24)%Z → Bits.to_int32 (Some (Num.int z)) = z.
Proof.
  intros Hz. unfold Bits.to_int32. rewrite truncate_int.
  change (2 ^ 24)%Z with 16777216%Z in Hz.
  change (2 ^ 31)%Z with 2147483648%Z.
  change (2 ^ 32)%Z with 4294967296%Z.
  rewrite Z.mod_small by lia. lia.
Qed.

Lemma hex_bytes (r g b : Z) :
  (0 ≤ r ≤ 255)%Z → (0 ≤ g ≤ 255)%Z → (0 ≤ b ≤ 255)%Z →
  let hex := (r * 65536 + g * 256 + b)%Z in
  Z.land (Bits.shiftr hex 16) 255 = r
  ∧ Z.land (Bits.shiftr hex 8) 255 = g
  ∧ Z.land (Bits.shiftr hex 0) 255 = b.
Proof.
  intros Hr Hg Hb hex. unfold Bits.shiftr.
  change (16 `mod` 32)%Z with 16%Z. change (8 `mod` 32)%Z with 8%Z.
  change (0 `mod` 32)%Z with 0%Z.
  change 255%Z with (Z.ones 8). rewrite !Z.land_ones by lia.
  rewrite !Z.shiftr_div_pow2 by lia.
  change (2 ^ 16)%Z with 65536%Z. change (2 ^ 8)%Z with 256%Z.
  change (2 ^ 0)%Z with 1%Z. rewrite Z.div_1_r.
  assert (hex `div` 65536 = r)%Z as ->.
  { symmetry. apply (Z.div_unique hex 65536 r (g * 256 + b)); unfold hex; lia. }
  assert (hex `div` 256 = r * 256 + g)%Z as ->.
  { symmetry. apply (Z.div_unique hex 256 (r * 256 + g) b); unfold hex; lia. }
  split; [apply Z.mod_small; lia|]. split.
  - symmetry. apply (Z.mod_unique (r * 256 + g) 256 r g); lia.
  - symmetry. apply (Z.mod_unique hex 256 (r * 256 + g) b); unfold hex; lia.
Qed.

Lemma set_number (this : Color.t) (hex : Qc) :
  Color.set this [Color.Plain (VNum hex)]
  = Ok (Color.with_hex this (Some hex)).
Proof. reflexivity. Qed.

(** X18. A number [0xRRGGBB] gives the color of its three bytes: red is
    the byte [RR] over 255, green the byte [GG], blue the byte [BB], and
    the color is opaque. *)
Theorem color_hex_channels (r g b : Z) :
  (0 ≤ r ≤ 255)%Z → (0 ≤ g ≤ 255)%Z → (0 ≤ b ≤ 255)%Z →
  Color.new [Color.Plain (VNum (Num.int (r * 65536 + g * 256 + b)))]
  = Ok {| Color.red := (Num.int r / Num.int 255)%Qc;
          Color.green := (Num.int g / Num.int 255)%Qc;
          Color.blue := (Num.int b / Num.int 255)%Qc;
          Color.alpha := 1%Qc |}.
Proof.
  intros Hr Hg Hb. unfold Color.new. rewrite set_number.
  unfold Color.with_hex, Color.with_channels, Color.hexToRatio.
  cbn [Color.alpha].
  rewrite to_int32_small
    by (change (2 ^ 24)%Z with 16777216%Z; lia).
  destruct (hex_bytes r g b Hr Hg Hb) as (Er & Eg & Eb).
  cbv zeta in Er, Eg, Eb.
  change (8 * Z.of_nat 2)%Z with 16%Z. change (8 * Z.of_nat 1)%Z with 8%Z.
  change (8 * Z.of_nat 0)%Z with 0%Z.
  by rewrite Er, Eg, Eb.
Qed.

Lemma doubled_length (s : string) :
  String.length (Color.doubled s) = (2 * String.length s)%nat.
Proof. induction s as [|c s IH]; [done|]. simpl. rewrite IH. lia. Qed.

Lemma prefix_number_sign (s : string) :
  String.prefix "#" (String.append "#" s) = true.
Proof. by destruct s. Qed.

(** X19. A hexadecimal string of two or three digits is a shorthand for
    the string of its digits doubled: [#abc] is the color of [#aabbcc],
    with any alpha given after it, whatever the digits are. *)
Theorem color_shorthand (this : Color.t) (digits : string)
    (rest : list Color.Argument) :
  (2 ≤ String.length digits ≤ 3)%nat →
  Color.set this (Color.Plain (VStr (String.append "#" digits)) :: rest)
  = Color.set this
      (Color.Plain (VStr (String.append "#" (Color.doubled digits))) :: rest).
Proof.
  intros Hlength. unfold Color.set. cbn [length lookup list_lookup].
  rewrite !prefix_number_sign.
  change (Color.substr 1 (String.append "#" ?s)) with s.
  rewrite (bool_decide_eq_true_2 (String.length digits < 4)%nat) by lia.
  rewrite (bool_decide_eq_false_2
             (String.length (Color.doubled digits) < 4)%nat)
    by (rewrite doubled_length; lia).
  done.
Qed.

Lemma zero_ratio : (0 / Num.int 255 = 0)%Qc.
Proof. apply Qcmult_0_l. Qed.

Lemma hexToRatio_NaN (n : nat) : Color.hexToRatio None n = 0%Qc.
Proof.
  unfold Color.hexToRatio, Bits.to_int32, Bits.shiftr.
  rewrite Z.shiftr_0_l. change (Z.land 0 255) with 0%Z.
  unfold Num.int. rewrite Z2Qc_inj_0. apply zero_ratio.
Qed.

Lemma set_string (this : Color.t) (name : string) :
  Color.set this [Color.Plain (VStr name)]
  = Ok (if String.prefix "#" name
        then Color.with_hex this
               (Qc_of_Z <$>
                  parseInt
                    (if bool_decide
                          (String.length (Color.substr 1 name) < 4)%nat
                     then Color.doubled (Color.substr 1 name)
                     else Color.substr 1 name))
        else Color.with_channels this
               ((default (0%Qc, 0%Qc, 0%Qc)
                   (keyword_rgb (toLocaleLowerCase name))).1.1
                / Num.int 255)%Qc
               ((default (0%Qc, 0%Qc, 0%Qc)
                   (keyword_rgb (toLocaleLowerCase name))).1.2
                / Num.int 255)%Qc
               ((default (0%Qc, 0%Qc, 0%Qc)
                   (keyword_rgb (toLocaleLowerCase name))).2
                / Num.int 255)%Qc).
Proof. reflexivity. Qed.

(** X20. What the constructor cannot read is black: a name that the
    table of names does not know and a string after [#] that [parseInt]
    reads as [NaN] both give opaque black, as a constructor without
    argument does; nothing is thrown. *)
Theorem color_unknown_black (name : string) :
  (String.prefix "#" name = false →
   keyword_rgb (toLocaleLowerCase name) = None) →
  (String.prefix "#" name = true →
   parseInt (if bool_decide (String.length (Color.substr 1 name) < 4)%nat
             then Color.doubled (Color.substr 1 name)
             else Color.substr 1 name) = None) →
  Color.new [Color.Plain (VStr name)] = Color.new []
  ∧ Color.new []
    = Ok {| Color.red := 0%Qc; Color.green := 0%Qc; Color.blue := 0%Qc;
            Color.alpha := 1%Qc |}.
Proof.
  intros Hname Hhex. split; [|done].
  unfold Color.new. rewrite set_string.
  destruct (String.prefix "#" name).
  - rewrite Hhex by done.
    unfold Color.with_hex, Color.with_channels.
    change (Qc_of_Z <$> None) with (@None Qc).
    by rewrite !hexToRatio_NaN.
  - rewrite Hname by done. unfold Color.with_channels.
    cbn [default fst snd]. by rewrite zero_ratio.
Qed.

(** X21. The array that [toJSON] returns gives the color back: [from]
    applied to its four numbers is a color with the same channels and
    the same alpha, for every color whose values are ratios. *)
Theorem color_json_round_trip (color : Color.t) :
  Color.bounded color →
  Color.from (Color.numbers (Color.toJSON color)) = Ok (Some color).
Proof.
  intros (Hr & Hg & Hb & Ha). destruct color as [r g b a].
  unfold Color.from, Color.toJSON, Color.numbers, Color.array.
  cbn [map app lookup list_lookup Color.red Color.green Color.blue
       Color.alpha] in *.
  unfold Color.new, Color.set. cbn [length]. simpl.
  unfold number_of. simpl.
  by rewrite !constrain_id.
Qed.


End ColorHex.

Lemma color_hex_channels_witness :
  @Color.new Examples.packages
    [Color.Plain (VNum (Num.int (18 * 65536 + 52 * 256 + 86)))]
  = Ok {| Color.red := (Num.int 18 / Num.int 255)%Qc;
          Color.green := (Num.int 52 / Num.int 255)%Qc;
          Color.blue := (Num.int 86 / Num.int 255)%Qc;
          Color.alpha := 1%Qc |}.
Proof. apply (@color_hex_channels Examples.packages 18 52 86); lia. Defined.

Lemma color_shorthand_witness :
  @Color.new Examples.packages [Color.Plain (VStr "#1af")]
  = @Color.new Examples.packages [Color.Plain (VStr "#11aaff")].
Proof.
  apply (@color_shorthand Examples.packages
           {| Color.red := 0%Qc; Color.green := 0%Qc; Color.blue := 0%Qc;
              Color.alpha := 1%Qc |} "1af" []).
  simpl. lia.
Defined.

Lemma color_unknown_black_witness :
  @Color.new Examples.packages [Color.Plain (VStr "#zebra")]
  = @Color.new Examples.packages []
  ∧ @Color.new Examples.packages []
    = Ok {| Color.red := 0%Qc; Color.green := 0%Qc; Color.blue := 0%Qc;
            Color.alpha := 1%Qc |}.
Proof.
  apply (@color_unknown_black Examples.packages "#zebra");
    vm_compute; first [reflexivity | discriminate].
Defined.

Lemma color_json_round_trip_witness :
  @Color.from Examples.packages (Color.numbers (Color.toJSON Examples.orange))
  = Ok (Some Examples.orange).
Proof.
  apply (@color_json_round_trip Examples.packages Examples.orange).
  by vm_compute.
Defined.

Section ColorTone.
Context `{Packages}.

Lemma set_numbers (this : Color.t) (red green blue : Qc) :
  Color.set this (Color.numbers [red; green; blue])
  = Ok (Color.with_channels this
          (Math.constrain red 0 1) (Math.constrain green 0 1)
          (Math.constrain blue 0 1)).
Proof. reflexivity. Qed.

Lemma constrain_zero : Math.constrain 0 0 1 = 0%Qc.
Proof. apply constrain_id. by vm_compute. Qed.

Lemma constrain_one : Math.constrain 1 0 1 = 1%Qc.
Proof. apply constrain_id. by vm_compute. Qed.

Lemma half_tone (channel : Qc) :
  (channel + (1 - channel) * (Num.frac 1 2 - Num.frac 1 2) * 2 = channel)%Qc.
Proof.
  assert (Num.frac 1 2 - Num.frac 1 2 = 0)%Qc as -> by apply Qcplus_opp_r.
  ring.
Qed.

Lemma full_tone (channel : Qc) :
  (channel + (1 - channel) * (1 - Num.frac 1 2) * 2 = 1)%Qc.
Proof.
  assert ((1 - Num.frac 1 2) * 2 = 1)%Qc as Hone
    by (apply Qc_is_canon; reflexivity).
  rewrite <- Qcmult_assoc, Hone. ring.
Qed.

(** X22. [lightness] runs from black to white through the color itself:
    at [0] every channel is [0], at [0.5] the color is unchanged, at [1]
    every channel is [1]; the alpha is kept throughout. *)
Theorem color_lightness_ends (this : Color.t) :
  Color.bounded this →
  Color.lightness this 0
  = Ok {| Color.red := 0%Qc; Color.green := 0%Qc; Color.blue := 0%Qc;
          Color.alpha := Color.alpha this |}
  ∧ Color.lightness this (Num.frac 1 2) = Ok this
  ∧ Color.lightness this 1
    = Ok {| Color.red := 1%Qc; Color.green := 1%Qc; Color.blue := 1%Qc;
            Color.alpha := Color.alpha this |}.
Proof.
  intros (Hr & Hg & Hb & Ha). destruct this as [r g b a].
  unfold Color.lightness, Color.array.
  cbn [Color.red Color.green Color.blue Color.alpha] in *.
  split; [|split].
  - assert (Num.ltb 0 (Num.frac 1 2) = true) as -> by (by vm_compute).
    cbn [map]. rewrite set_numbers. unfold Color.with_channels.
    cbn [Color.alpha]. rewrite !Qcmult_0_r. by rewrite constrain_zero.
  - assert (Num.ltb (Num.frac 1 2) (Num.frac 1 2) = false) as ->
      by (by vm_compute).
    cbn [map]. rewrite set_numbers. unfold Color.with_channels.
    cbn [Color.alpha]. rewrite !half_tone. by rewrite !constrain_id.
  - assert (Num.ltb 1 (Num.frac 1 2) = false) as -> by (by vm_compute).
    cbn [map]. rewrite set_numbers. unfold Color.with_channels.
    cbn [Color.alpha]. rewrite !full_tone. by rewrite constrain_one.
Qed.

(** X23. [grey ()] and [saturation (0)] make the three channels equal
    and keep the alpha, whatever value [average] returns for them; both
    complete for every color. *)
Theorem color_grey_channels (this : Color.t) :
  (∃ color,
      Color.grey this = Ok color
      ∧ Color.red color = Color.green color
      ∧ Color.green color = Color.blue color
      ∧ Color.alpha color = Color.alpha this)
  ∧ (∃ color,
      Color.saturation this 0 = Ok color
      ∧ Color.red color = Color.green color
      ∧ Color.green color = Color.blue color
      ∧ Color.alpha color = Color.alpha this).
Proof.
  split.
  - unfold Color.grey. cbv zeta. rewrite set_numbers.
    eexists. split; [reflexivity|]. done.
  - unfold Color.saturation, Color.array. cbv zeta. cbn [map].
    rewrite set_numbers. eexists. split; [reflexivity|].
    unfold Color.with_channels.
    cbn [Color.red Color.green Color.blue Color.alpha].
    rewrite !Qcmult_0_l. done.
Qed.

End ColorTone.

Lemma color_lightness_ends_witness :
  @Color.lightness Examples.packages Examples.orange 0
  = Ok {| Color.red := 0%Qc; Color.green := 0%Qc; Color.blue := 0%Qc;
          Color.alpha := Color.alpha Examples.orange |}
  ∧ @Color.lightness Examples.packages Examples.orange (Num.frac 1 2)
    = Ok Examples.orange
  ∧ @Color.lightness Examples.packages Examples.orange 1
    = Ok {| Color.red := 1%Qc; Color.green := 1%Qc; Color.blue := 1%Qc;
            Color.alpha := Color.alpha Examples.orange |}.
Proof.
  apply (@color_lightness_ends Examples.packages Examples.orange).
  by vm_compute.
Defined.
